(** * Feedback-Ingestion: the polling subsystem

    A shallow embedding of the polling scheduler (PollingService), its
    sliding-window rate limiter, its Redis-backed polling state (the
    circuit breaker), the response extractor and the two polling
    behaviours, followed by the properties proved about them.

    Conventions of the embedding.
    - JavaScript numbers are integers ([Z]); times are milliseconds since
      the epoch, read from the clock by the caller and passed in as [now].
    - JavaScript strings are [string]s, read as their UTF-8 bytes.
    - A Redis sorted set is a finite map from member to score, a Redis hash
      a finite map from field to value; both live in a map from Redis key.
    - An [async] method that talks to Redis is a state transformer over the
      backend that may throw; [try]/[catch] is [try_catch]. Each backend
      command consumes one entry of a fault schedule, so that every single
      command can be made to throw.
    - Every step of the scheduler (a reconciliation, a timer fire) runs to
      completion before the next one starts.
    - The Kafka topic is the list of the messages sent to it so far. *)

From Stdlib Require Import ZArith Lia Ascii.
From Stdlib Require String.
From stdpp Require Import base option list strings pretty gmap fin_maps sorting.

Local Open Scope Z_scope.

(* ===================================================================== *)
(** * Part I: the program                                                  *)
(* ===================================================================== *)

(** ** JavaScript values *)

Module JS.

(** The result of a computation that may throw. *)
Inductive res (A : Type) : Type :=
| Ok (a : A)
| Throw (msg : string).
Arguments Ok {A} a.
Arguments Throw {A} msg.

(** A number that may be [NaN]. *)
Inductive num : Type :=
| Num (z : Z)
| NaN.

(** Parsed JSON, plus [undefined]. *)
#[warnings="-register-all"]
Inductive json : Type :=
| JUndefined
| JNull
| JBool (b : bool)
| JNum (n : num)
| JStr (s : string)
| JArr (xs : list json)
| JObj (fields : list (string * json)).

(** [!!v] *)
Definition truthy (v : json) : bool :=
  match v with
  | JUndefined | JNull => false
  | JBool b => b
  | JNum (Num n) => negb (n =? 0)
  | JNum NaN => false
  | JStr s => negb (bool_decide (s = ""))
  | JArr _ | JObj _ => true
  end.

(** Truthiness of an optional string property. *)
Definition str_truthy (o : option string) : bool :=
  match o with
  | Some s => negb (bool_decide (s = ""))
  | None => false
  end.

(** [obj[k]] on a [Record<string, any>]. *)
Definition prop (o : gmap string json) (k : string) : json :=
  default JUndefined (o !! k).

Definition num_succ (n : num) : num :=
  match n with Num z => Num (z + 1) | NaN => NaN end.

(** [n >= m]; false when [n] is [NaN]. *)
Definition num_geb (n : num) (m : Z) : bool :=
  match n with Num z => m <=? z | NaN => false end.

(** [n.toString()] *)
Definition num_toString (n : num) : string :=
  match n with Num z => pretty z | NaN => "NaN" end.

(** [parseInt(s)] in radix 10: an optional sign followed by the longest
    run of decimal digits; [NaN] when there is no digit. Leading white
    space and the hexadecimal prefix accepted by the built-in are not
    modelled: the program only parses what [toString] wrote. *)
Fixpoint digits_go (acc : Z) (seen : bool) (s : string) : option Z :=
  match s with
  | String c s' =>
      match Ascii.is_nat c with
      | Some d => digits_go (acc * 10 + Z.of_nat d) true s'
      | None => if seen then Some acc else None
      end
  | EmptyString => if seen then Some acc else None
  end.

Definition parseInt (s : string) : num :=
  match digits_go 0 false s with
  | Some z => Num z
  | None =>
      (* no leading digit: a sign, or not a number *)
      match s with
      | String "-"%char s' =>
          match digits_go 0 false s' with Some z => Num (- z) | None => NaN end
      | String "+"%char s' =>
          match digits_go 0 false s' with Some z => Num z | None => NaN end
      | _ => NaN
      end
  end.

(** [String(v)], the conversion [parseInt] applies to its argument. *)
Fixpoint js_String (v : json) : string :=
  match v with
  | JUndefined => "undefined"
  | JNull => "null"
  | JBool true => "true"
  | JBool false => "false"
  | JNum n => num_toString n
  | JStr s => s
  | JArr xs =>
      (fix join (l : list json) : string :=
         match l with
         | [] => ""
         | x :: rest =>
             let elem :=
               match x with
               | JUndefined | JNull => ""
               | _ => js_String x
               end in
             match rest with
             | [] => elem
             | _ :: _ => elem +:+ "," +:+ join rest
             end
         end) xs
  | JObj _ => "[object Object]"
  end.

(** [parseInt(v || dflt)] *)
Definition parseInt_or (v : json) (dflt : string) : num :=
  if truthy v then parseInt (js_String v) else parseInt dflt.

(** [v !== null && v !== undefined] *)
Definition not_nullish (v : json) : bool :=
  match v with
  | JNull | JUndefined => false
  | _ => true
  end.

(** [s.slice(0, n)] *)
Definition slice0 (n : nat) (s : string) : string := String.substring 0 n s.

(** The host's [Date]: [toISOString] of a time and [new Date(string)]. *)
Class DateHost := {
  toISOString : Z -> string;
  dateOfString : string -> Z
}.

(** The jsonpath package: [jsonpath.query(obj, path)], the list of
    matches, or a throw on a path it cannot evaluate. *)
Class JsonPath := {
  jsonpath_query : json -> string -> res (list json)
}.

End JS.
Export JS.

(** ** Base64, as [Buffer.from(s).toString('base64')] *)

Module Base64.

Definition alphabet : string :=
  "ABCDEFGHIJKLMNOPQRSTUVWXYZabcdefghijklmnopqrstuvwxyz0123456789+/".

Definition sextet (n : N) : ascii :=
  default "A"%char (String.get (N.to_nat n) alphabet).

Definition byte_of (c : ascii) : N := Ascii.N_of_ascii c.

Fixpoint encode_bytes (bs : list N) : string :=
  match bs with
  | [] => ""
  | [a] =>
      String (sextet (N.shiftr a 2))
        (String (sextet (N.shiftl (N.land a 3) 4)) "==")
  | [a; b] =>
      String (sextet (N.shiftr a 2))
        (String (sextet (N.lor (N.shiftl (N.land a 3) 4) (N.shiftr b 4)))
           (String (sextet (N.shiftl (N.land b 15) 2)) "="))
  | a :: b :: c :: rest =>
      String (sextet (N.shiftr a 2))
        (String (sextet (N.lor (N.shiftl (N.land a 3) 4) (N.shiftr b 4)))
           (String (sextet (N.lor (N.shiftl (N.land b 15) 2) (N.shiftr c 6)))
              (String (sextet (N.land c 63)) (encode_bytes rest))))
  end.

Definition encode (s : string) : string :=
  encode_bytes (map byte_of (String.list_ascii_of_string s)).

End Base64.

(** ** The polling configuration (models/pollingConfig.ts)

    The headers, body and authentication of [api_config] do not reach any
    function embedded here and are left out. *)

Inductive PaginationType : Type := Offset | Cursor | Page.

Record Pagination : Type := {
  pg_type : PaginationType;
  limit_param : option string;
  offset_param : option string;
  cursor_param : option string;
  page_param : option string;
  per_page_param : option string;
  next_page_path : option string
}.

Record DataExtraction : Type := {
  response_path : option string;
  pagination : option Pagination
}.

Record ApiConfig : Type := {
  endpoint : string;
  query_params : list (string * string)
}.

Record PollingSettings : Type := {
  interval_seconds : Z;
  enabled : bool;
  max_failures_before_disable : Z
}.

Record RateLimiting : Type := {
  requests_per_minute : Z;
  requests_per_hour : Z
}.

Record PollingConfig : Type := {
  tenant_id : string;
  source_type : string;
  instance_url : string;
  api_config : ApiConfig;
  polling_config : PollingSettings;
  data_extraction : DataExtraction;
  rate_limiting : RateLimiting
}.

Global Instance PaginationType_eq_dec : EqDecision PaginationType.
Proof. solve_decision. Defined.
Global Instance Pagination_eq_dec : EqDecision Pagination.
Proof. solve_decision. Defined.
Global Instance DataExtraction_eq_dec : EqDecision DataExtraction.
Proof. solve_decision. Defined.

(** The SourceType enumeration member handled by the specialised behaviour. *)
Definition DISCOURSE : string := "DISCOURSE".

(** ** Computations over a backend that may throw *)

Module Effect.

(** A stateful computation over [S] that returns or throws; the state
    reached before a throw is kept, as the writes of an [await]ed call
    are. *)
Definition M (S A : Type) : Type := S -> res A * S.

Definition ret {S A : Type} (a : A) : M S A := fun s => (Ok a, s).

Definition throw {S A : Type} (msg : string) : M S A := fun s => (Throw msg, s).

Definition bind {S A B : Type} (m : M S A) (k : A -> M S B) : M S B :=
  fun s =>
    match m s with
    | (Ok a, s') => k a s'
    | (Throw e, s') => (Throw e, s')
    end.

(** [try { m } catch (e) { h e }] *)
Definition try_catch {S A : Type} (m : M S A) (h : string -> M S A) : M S A :=
  fun s =>
    match m s with
    | (Ok a, s') => (Ok a, s')
    | (Throw e, s') => h e s'
    end.

(** A backend: its contents and the schedule of faults still to come,
    one entry per command ([true]: the command throws and does nothing).
    An exhausted schedule means that no further command fails. *)
Record Backend (D : Type) : Type := {
  store : D;
  faults : list bool
}.
Arguments store {D} b.
Arguments faults {D} b.

Definition command {D A : Type} (f : D -> A * D) : M (Backend D) A :=
  fun b =>
    match faults b with
    | true :: fs => (Throw "redis: command failed", {| store := store b; faults := fs |})
    | false :: fs =>
        let '(a, d) := f (store b) in (Ok a, {| store := d; faults := fs |})
    | [] =>
        let '(a, d) := f (store b) in (Ok a, {| store := d; faults := [] |})
    end.

(** A backend with the given contents on which no command fails. *)
Definition healthy {D : Type} (d : D) : Backend D := {| store := d; faults := [] |}.

End Effect.
Export Effect.

Declare Scope eff_scope.
Delimit Scope eff_scope with eff.
Notation "'let*' x ':=' m 'in' k" := (bind m (fun x => k))
  (at level 10, x pattern, m at level 100, k at level 200) : eff_scope.
Notation "m ';;' k" := (bind m (fun _ => k))
  (at level 100, k at level 200, right associativity) : eff_scope.
Local Open Scope eff_scope.

(** ** The rate limiter (common/rateLimiter.ts) *)

Module RateLimiter.

(** The sorted sets of the Redis instance, member to score, and the
    time to live last set on each key, in seconds. *)
Record ZStore : Type := {
  zsets : gmap string (gmap string Z);
  zttl : gmap string Z
}.

Definition zset (d : ZStore) (key : string) : gmap string Z :=
  default ∅ (zsets d !! key).

Definition in_range (lo hi : Z) (e : string * Z) : Prop := lo <= e.2 <= hi.

Global Instance in_range_dec lo hi e : Decision (in_range lo hi e).
Proof. unfold in_range. apply _. Defined.

(** ZREMRANGEBYSCORE key lo hi: the members scored in [lo, hi] go; the
    reply is how many went. *)
Definition zRemRangeByScore (key : string) (lo hi : Z) (d : ZStore) : Z * ZStore :=
  let z := zset d key in
  let kept := filter (fun e => ~ in_range lo hi e) z in
  (Z.of_nat (size z) - Z.of_nat (size kept),
   {| zsets := <[key := kept]> (zsets d); zttl := zttl d |}).

(** ZCARD key *)
Definition zCard (key : string) (d : ZStore) : Z * ZStore :=
  (Z.of_nat (size (zset d key)), d).

(** ZADD key score member: a member already present only changes score. *)
Definition zAdd (key : string) (score : Z) (member : string) (d : ZStore) : unit * ZStore :=
  (tt, {| zsets := <[key := <[member := score]> (zset d key)]> (zsets d);
          zttl := zttl d |}).

(** EXPIRE key seconds *)
Definition expire (key : string) (seconds : Z) (d : ZStore) : unit * ZStore :=
  (tt, {| zsets := zsets d; zttl := <[key := seconds]> (zttl d) |}).

(** The MULTI ... EXEC of [isAllowed]: one round trip, two replies. *)
Definition pipeline_exec (key : string) (lo hi : Z) (d : ZStore) : (Z * Z) * ZStore :=
  let '(removed, d1) := zRemRangeByScore key lo hi d in
  let '(card, d2) := zCard key d1 in
  ((removed, card), d2).

Definition isAllowed_body (now : Z) (key : string) (windowSizeSeconds maxRequests : Z)
  : M (Backend ZStore) bool :=
  let windowStart := now - windowSizeSeconds * 1000 in
  let* results := command (pipeline_exec key 0 windowStart) in
  let currentCount := results.2 in
  if maxRequests <=? currentCount then ret false
  else
    command (zAdd key now (pretty now));;
    command (expire key (windowSizeSeconds * 2));;
    ret true.

(** [isAllowed(key, windowSizeSeconds, maxRequests)], called when the
    clock reads [now]. *)
Definition isAllowed (now : Z) (key : string) (windowSizeSeconds maxRequests : Z)
  : M (Backend ZStore) bool :=
  try_catch (isAllowed_body now key windowSizeSeconds maxRequests)
    (fun _ => ret true).

(** [getCurrentCount(key, windowSizeSeconds)], called when the clock
    reads [now]: the eviction and the count are two commands. *)
Definition getCurrentCount (now : Z) (key : string) (windowSizeSeconds : Z)
  : M (Backend ZStore) Z :=
  try_catch
    (let windowStart := now - windowSizeSeconds * 1000 in
     command (zRemRangeByScore key 0 windowStart);;
     command (zCard key))
    (fun _ => ret 0).

(** The order of a sorted set: by score, members of equal score in
    lexicographic order. *)
Definition entry_le (a b : string * Z) : Prop :=
  a.2 < b.2 \/ (a.2 = b.2 /\ String.leb a.1 b.1 = true).

Global Instance entry_le_dec a b : Decision (entry_le a b).
Proof. unfold entry_le. apply _. Defined.

(** ZRANGE key lo hi BYSCORE, the command sent by
    [zRange(key, lo, hi, { BY: 'SCORE', REV: false })]: the members scored
    in [lo, hi], in the order of the sorted set. *)
Definition zRangeByScore (key : string) (lo hi : Z) (d : ZStore) : list string * ZStore :=
  ((merge_sort entry_le (map_to_list (filter (in_range lo hi) (zset d key)))).*1, d).

(** [Math.ceil(a / b)] on integers, [b] positive. *)
Definition ceil_div (a b : Z) : Z := - ((- a) / b).

(** [getTimeUntilReset(key, windowSizeSeconds)]; [now] is the clock as
    read after the reply of the range query. *)
Definition getTimeUntilReset (now : Z) (key : string) (windowSizeSeconds : Z)
  : M (Backend ZStore) num :=
  try_catch
    (let* oldest := command (zRangeByScore key 0 0) in
     match oldest with
     | [] => ret (Num 0)
     | first :: _ =>
         match parseInt first with
         | Num oldestTimestamp =>
             let resetTime := oldestTimestamp + windowSizeSeconds * 1000 in
             ret (Num (Z.max 0 (ceil_div (resetTime - now) 1000)))
         | NaN => ret NaN
         end
     end)
    (fun _ => ret (Num 0)).

End RateLimiter.

(** ** The polling state (services/polling/PollingStateService.ts) *)

Module PollingStateService.

Record PollingState : Type := {
  lastSuccessfulPoll : option Z;
  lastPollAttempt : option Z;
  consecutiveFailures : num;
  lastError : option string;
  lastErrorTimestamp : option Z
}.

(** [{ consecutiveFailures: 0 }] *)
Definition default_state : PollingState :=
  {| lastSuccessfulPoll := None; lastPollAttempt := None;
     consecutiveFailures := Num 0; lastError := None;
     lastErrorTimestamp := None |}.

(** The hashes of the Redis instance, field to value, and the time to
    live last set on each key, in seconds. *)
Record HStore : Type := {
  hashes : gmap string (gmap string string);
  httl : gmap string Z
}.

Definition hash (d : HStore) (key : string) : gmap string string :=
  default ∅ (hashes d !! key).

Definition hGetAll (key : string) (d : HStore) : gmap string string * HStore :=
  (hash d key, d).

Definition hSet (key : string) (fields : list (string * string)) (d : HStore) : unit * HStore :=
  (tt, {| hashes := <[key := foldl (fun h fv => <[fv.1 := fv.2]> h) (hash d key) fields]> (hashes d);
          httl := httl d |}).

Definition hDel (key : string) (fields : list string) (d : HStore) : unit * HStore :=
  (tt, {| hashes := <[key := foldl (fun h f => delete f h) (hash d key) fields]> (hashes d);
          httl := httl d |}).

Definition expire (key : string) (seconds : Z) (d : HStore) : unit * HStore :=
  (tt, {| hashes := hashes d; httl := <[key := seconds]> (httl d) |}).

Definition ttl_seconds : Z := 30 * 24 * 60 * 60.

Definition getStateKey (tenantId sourceType instanceUrl : string) : string :=
  let instanceHash := slice0 8 (Base64.encode instanceUrl) in
  "polling_state:" +:+ tenantId +:+ ":" +:+ sourceType +:+ ":" +:+ instanceHash.

Section WithDate.
Context `{DateHost}.

(** A hash field as a [Date]: [data.f ? new Date(data.f) : undefined] *)
Definition date_field (data : gmap string string) (f : string) : option Z :=
  if str_truthy (data !! f) then dateOfString <$> data !! f else None.

Definition state_of_hash (data : gmap string string) : PollingState :=
  {| lastSuccessfulPoll := date_field data "lastSuccessfulPoll";
     lastPollAttempt := date_field data "lastPollAttempt";
     consecutiveFailures :=
       parseInt (if str_truthy (data !! "consecutiveFailures")
                 then default "0" (data !! "consecutiveFailures") else "0");
     lastError :=
       if str_truthy (data !! "lastError") then data !! "lastError" else None;
     lastErrorTimestamp := date_field data "lastErrorTimestamp" |}.

Definition getPollingState (tenantId sourceType instanceUrl : string)
  : M (Backend HStore) PollingState :=
  let key := getStateKey tenantId sourceType instanceUrl in
  try_catch
    (let* data := command (hGetAll key) in
     if bool_decide (size data = 0%nat) then ret default_state
     else ret (state_of_hash data))
    (fun _ => ret default_state).

Definition updateLastPollAttempt (now : Z) (tenantId sourceType instanceUrl : string)
  : M (Backend HStore) unit :=
  let key := getStateKey tenantId sourceType instanceUrl in
  let timestamp := toISOString now in
  try_catch
    (command (hSet key [("lastPollAttempt", timestamp)]);;
     command (expire key ttl_seconds))
    (fun _ => ret tt).

Definition updateSuccessfulPoll (now : Z) (tenantId sourceType instanceUrl : string)
  : M (Backend HStore) unit :=
  let key := getStateKey tenantId sourceType instanceUrl in
  let timestamp := toISOString now in
  try_catch
    (command (hSet key [("lastSuccessfulPoll", timestamp); ("consecutiveFailures", "0")]);;
     command (hDel key ["lastError"; "lastErrorTimestamp"]);;
     command (expire key ttl_seconds))
    (fun _ => ret tt).

Definition updateFailedPoll (now : Z) (tenantId sourceType instanceUrl : string)
    (error : string) (maxFailures : Z) : M (Backend HStore) bool :=
  let key := getStateKey tenantId sourceType instanceUrl in
  let timestamp := toISOString now in
  try_catch
    (let* currentState := getPollingState tenantId sourceType instanceUrl in
     let newFailureCount := num_succ (consecutiveFailures currentState) in
     let shouldDisable := num_geb newFailureCount maxFailures in
     command (hSet key [("consecutiveFailures", num_toString newFailureCount);
                        ("lastError", error);
                        ("lastErrorTimestamp", timestamp)]);;
     command (expire key ttl_seconds);;
     ret shouldDisable)
    (fun _ => ret false).

Definition resetFailureCount (tenantId sourceType instanceUrl : string)
  : M (Backend HStore) unit :=
  let key := getStateKey tenantId sourceType instanceUrl in
  try_catch
    (command (hSet key [("consecutiveFailures", "0")]);;
     command (hDel key ["lastError"; "lastErrorTimestamp"]);;
     command (expire key ttl_seconds))
    (fun _ => ret tt).

Definition shouldDisablePolling (tenantId sourceType instanceUrl : string)
    (maxFailures : Z) : M (Backend HStore) bool :=
  try_catch
    (let* state := getPollingState tenantId sourceType instanceUrl in
     ret (num_geb (consecutiveFailures state) maxFailures))
    (fun _ => ret false).

End WithDate.

End PollingStateService.

(** ** The response extractor (services/polling/dataExtractor.ts)

    A response is represented by its [data]. *)

Module DataExtractor.

Section WithHost.
Context `{JsonPath} `{DateHost}.

Definition extractData (data : json) (config : PollingConfig) : res (list json) :=
  let extracted :=
    if str_truthy (response_path (data_extraction config)) then
      let path := default "" (response_path (data_extraction config)) in
      match jsonpath_query data path with
      | Ok results =>
          Ok (match results with
              | [r] => r
              | _ => JArr results
              end)
      | Throw _ => Throw ("Failed to extract data using path: " +:+ path)
      end
    else Ok data in
  match extracted with
  | Ok (JArr xs) => Ok xs
  | Ok v => Ok [v]
  | Throw e => Throw e
  end.

(** The body of the [try] of [hasNextPage]; a throw is caught by the
    caller below and answered with [false]. *)
Definition hasNextPage_body (data : json) (config : PollingConfig) (pg : Pagination)
  : res bool :=
  match pg_type pg with
  | Cursor =>
      if str_truthy (next_page_path pg) then
        match jsonpath_query data (default "" (next_page_path pg)) with
        | Ok nextCursor =>
            Ok (match nextCursor with
                | v :: _ => not_nullish v
                | [] => false
                end)
        | Throw e => Throw e
        end
      else Ok false
  | Page | Offset =>
      match extractData data config with
      | Ok extractedData => Ok (0 <? Z.of_nat (length extractedData))
      | Throw e => Throw e
      end
  end.

Definition hasNextPage (data : json) (config : PollingConfig) : bool :=
  match pagination (data_extraction config) with
  | None => false
  | Some pg =>
      match hasNextPage_body data config pg with
      | Ok b => b
      | Throw _ => false
      end
  end.

Definition num_json_add (a b : num) : json :=
  match a, b with
  | Num x, Num y => JNum (Num (x + y))
  | _, _ => JNum NaN
  end.

(** The parameters written before a throw stay in [nextParams]; the
    only call that can throw, the path query, comes before any write. *)
Definition getNextPageParams (data : json) (config : PollingConfig)
    (currentParams : gmap string json) : gmap string json :=
  match pagination (data_extraction config) with
  | None => ∅
  | Some pg =>
      match pg_type pg with
      | Cursor =>
          if str_truthy (cursor_param pg) && str_truthy (next_page_path pg) then
            match jsonpath_query data (default "" (next_page_path pg)) with
            | Ok (v :: _) => {[ default "" (cursor_param pg) := v ]}
            | Ok [] => ∅
            | Throw _ => ∅
            end
          else ∅
      | Page =>
          let nextParams : gmap string json :=
            if str_truthy (page_param pg) then
              let k := default "" (page_param pg) in
              let currentPage := parseInt_or (prop currentParams k) "1" in
              {[ k := num_json_add currentPage (Num 1) ]}
            else ∅ in
          if str_truthy (per_page_param pg)
             && negb (truthy (prop currentParams (default "" (per_page_param pg))))
          then <[ default "" (per_page_param pg) := JNum (Num 50) ]> nextParams
          else nextParams
      | Offset =>
          if str_truthy (offset_param pg) && str_truthy (limit_param pg) then
            let ko := default "" (offset_param pg) in
            let kl := default "" (limit_param pg) in
            let currentOffset := parseInt_or (prop currentParams ko) "0" in
            let limit := parseInt_or (prop currentParams kl) "50" in
            <[ kl := JNum limit ]> {[ ko := num_json_add currentOffset limit ]}
          else ∅
      end
  end.

Definition getInitialPaginationParams (config : PollingConfig) : gmap string json :=
  match pagination (data_extraction config) with
  | None => ∅
  | Some pg =>
      match pg_type pg with
      | Page =>
          let params : gmap string json :=
            if str_truthy (page_param pg)
            then {[ default "" (page_param pg) := JNum (Num 1) ]} else ∅ in
          if str_truthy (per_page_param pg)
          then <[ default "" (per_page_param pg) := JNum (Num 50) ]> params
          else params
      | Offset =>
          let params : gmap string json :=
            if str_truthy (offset_param pg)
            then {[ default "" (offset_param pg) := JNum (Num 0) ]} else ∅ in
          if str_truthy (limit_param pg)
          then <[ default "" (limit_param pg) := JNum (Num 50) ]> params
          else params
      | Cursor =>
          if str_truthy (per_page_param pg) || str_truthy (limit_param pg) then
            let limitParam :=
              if str_truthy (per_page_param pg) then per_page_param pg
              else limit_param pg in
            {[ default "" limitParam := JNum (Num 50) ]}
          else ∅
      end
  end.

Definition addIncrementalParams (params : gmap string json)
    (lastPollTimestamp : option Z) (config : PollingConfig) : gmap string json :=
  match lastPollTimestamp with
  | None => params
  | Some t =>
      if negb (truthy (prop params "since"))
         && negb (truthy (prop params "updated_after"))
         && negb (truthy (prop params "modified_since"))
      then <[ "since" := JStr (toISOString t) ]> params
      else params
  end.

End WithHost.

End DataExtractor.

(** ** The behaviours (services/polling/behaviors) *)

Record PollingResult (R : Type) : Type := {
  records : list R;
  totalRecords : Z;
  pagesProcessed : Z;
  hasMoreData : bool
}.
Arguments records {R} p.
Arguments totalRecords {R} p.
Arguments pagesProcessed {R} p.
Arguments hasMoreData {R} p.

Module DefaultPollingBehavior.
Import DataExtractor PollingStateService.

Definition canHandle (sourceType : string) : bool := true.

Section WithHost.
Context `{JsonPath} `{DateHost}.

(** [apiClient.makeRequest(config, params)] for the page numbered
    [pageCount]: the response data, or the request error. *)
Variable makeRequest : Z -> gmap string json -> res json.
Variable config : PollingConfig.

(** The [while (hasMorePages && pageCount < 10)] loop; [left] is the
    number of pages left under the cap, [10 - pageCount]. The second
    component lists the parameters of the requests issued, in order. *)
Fixpoint poll_loop (left : nat) (hasMorePages : bool) (pageCount : Z)
    (totalRecords : Z) (allRecords : list json)
    (paginationParams : gmap string json) (issued : list (gmap string json))
  : res (PollingResult json) * list (gmap string json) :=
  match left with
  | O =>
      (Ok {| records := allRecords; totalRecords := totalRecords;
             pagesProcessed := pageCount; hasMoreData := hasMorePages |}, issued)
  | S left' =>
      if hasMorePages then
        let pageCount := pageCount + 1 in
        let issued := issued ++ [paginationParams] in
        match makeRequest pageCount paginationParams with
        | Throw e => (Throw e, issued)
        | Ok response =>
            match extractData response config with
            | Throw e => (Throw e, issued)
            | Ok extractedData =>
                let n := Z.of_nat (length extractedData) in
                let allRecords :=
                  if 0 <? n then allRecords ++ extractedData else allRecords in
                let totalRecords :=
                  if 0 <? n then totalRecords + n else totalRecords in
                let hasMorePages := hasNextPage response config in
                let paginationParams :=
                  if hasMorePages
                  then getNextPageParams response config paginationParams
                         ∪ paginationParams
                  else paginationParams in
                poll_loop left' hasMorePages pageCount totalRecords allRecords
                  paginationParams issued
            end
        end
      else
        (Ok {| records := allRecords; totalRecords := totalRecords;
               pagesProcessed := pageCount; hasMoreData := hasMorePages |}, issued)
  end.

(** The parameters of the first request. *)
Definition initial_params (pollingState : PollingState) : gmap string json :=
  addIncrementalParams (getInitialPaginationParams config)
    (lastSuccessfulPoll pollingState) config.

Definition poll : M (Backend HStore) (PollingResult json * list (gmap string json)) :=
  let* pollingState :=
    getPollingState (tenant_id config) (source_type config) (instance_url config) in
  fun b =>
    match poll_loop 10 true 0 0 [] (initial_params pollingState) [] with
    | (Ok r, issued) => (Ok (r, issued), b)
    | (Throw e, _) => (Throw e, b)
    end.

End WithHost.

End DefaultPollingBehavior.

(** ** The Discourse client (services/polling/discourseClient.ts)

    Of a post only the fields the client reads are kept. *)

Module DiscourseClient.

Record DiscourseSearchPost : Type := {
  sp_id : Z;
  sp_topic_id : Z;
  sp_topic_title_headline : string
}.

Record DiscourseDetailedPost : Type := {
  dp_id : Z;
  dp_topic_id : Z;
  dp_cooked : string
}.

(** [{ ...detailedPost, topic_title_headline }] *)
Record EnrichedPost : Type := {
  detailed : DiscourseDetailedPost;
  topic_title_headline : string
}.

(** The requests a cycle sends. *)
Inductive Request : Type :=
| SearchRequest (page : Z)
| DetailRequest (page : Z) (topicId : Z) (postIds : list Z).

(** [postsByTopic.get(topic_id).push(post)], creating the entry at the
    end of the map when the topic is new. *)
Fixpoint group_push (post : DiscourseSearchPost)
    (groups : list (Z * list DiscourseSearchPost)) : list (Z * list DiscourseSearchPost) :=
  match groups with
  | [] => [(sp_topic_id post, [post])]
  | (t, ps) :: rest =>
      if bool_decide (t = sp_topic_id post) then (t, ps ++ [post]) :: rest
      else (t, ps) :: group_push post rest
  end.

Definition groupPostsByTopic (posts : list DiscourseSearchPost)
  : list (Z * list DiscourseSearchPost) :=
  foldl (fun groups post => group_push post groups) [] posts.

Definition mergePostData (searchPosts : list DiscourseSearchPost)
    (detailedPosts : list DiscourseDetailedPost) : list EnrichedPost :=
  let searchPostsMap : gmap Z DiscourseSearchPost :=
    foldl (fun m post => <[sp_id post := post]> m) ∅ searchPosts in
  map (fun detailedPost =>
         {| detailed := detailedPost;
            topic_title_headline :=
              match searchPostsMap !! dp_id detailedPost with
              | Some searchPost => sp_topic_title_headline searchPost
              | None => ""
              end |})
    detailedPosts.

Section WithNetwork.
(** [searchPostsInTimeRange(afterDate, beforeDate, page)]: the [posts]
    of the response ([None] when the property is missing), or the
    request error. *)
Variable searchPostsInTimeRange : Z -> res (option (list DiscourseSearchPost)).
(** [getPostDetails(topicId, postIds)] as called while page [page] is
    processed: [post_stream?.posts] of the response, or the request
    error. *)
Variable getPostDetails : Z -> Z -> list Z -> res (option (list DiscourseDetailedPost)).

(** One iteration of the loop over the topics of a page. *)
Definition fetch_group (page : Z)
    (st : list EnrichedPost * list Request)
    (group : Z * list DiscourseSearchPost) : list EnrichedPost * list Request :=
  let '(allDetailedPosts, sent) := st in
  let '(topicId, posts) := group in
  let postIds := map sp_id posts in
  let sent := sent ++ [DetailRequest page topicId postIds] in
  match getPostDetails page topicId postIds with
  | Ok (Some detailedPosts) => (allDetailedPosts ++ mergePostData posts detailedPosts, sent)
  | Ok None => (allDetailedPosts, sent)
  | Throw _ => (allDetailedPosts, sent)
  end.

(** The [for (page = 1; page <= maxPages; page++)] loop, [left] pages
    to go from [page]. *)
Fixpoint fetch_pages (left : nat) (page : Z)
    (st : list EnrichedPost * list Request) : res (list EnrichedPost) * list Request :=
  match left with
  | O => (Ok st.1, st.2)
  | S left' =>
      let sent := st.2 ++ [SearchRequest page] in
      match searchPostsInTimeRange page with
      | Throw e => (Throw e, sent)
      | Ok None | Ok (Some []) => (Ok st.1, sent)
      | Ok (Some posts) =>
          let postsByTopic := groupPostsByTopic posts in
          fetch_pages left' (page + 1)
            (foldl (fetch_group page) (st.1, sent) postsByTopic)
      end
  end.

Definition fetchPostsWithDetails (maxPages : nat)
  : res (list EnrichedPost) * list Request :=
  fetch_pages maxPages 1 ([], []).

End WithNetwork.

End DiscourseClient.

Module DiscoursePollingBehavior.
Import DiscourseClient PollingStateService.

Definition canHandle (sourceType : string) : bool :=
  bool_decide (sourceType = DISCOURSE).

Section WithHost.
Context `{DateHost}.

(** The network as seen from a cycle that searches after [afterDate]. *)
Variable searchPostsInTimeRange : Z -> Z -> res (option (list DiscourseSearchPost)).
Variable getPostDetails : Z -> Z -> list Z -> res (option (list DiscourseDetailedPost)).

Definition poll (now : Z) (config : PollingConfig)
  : M (Backend HStore) (PollingResult EnrichedPost) :=
  let* pollingState :=
    getPollingState (tenant_id config) (source_type config) (instance_url config) in
  let afterDate :=
    default (now - 24 * 60 * 60 * 1000) (lastSuccessfulPoll pollingState) in
  match fetchPostsWithDetails (searchPostsInTimeRange afterDate) getPostDetails 5 with
  | (Ok detailedPosts, _) =>
      ret {| records := detailedPosts;
             totalRecords := Z.of_nat (length detailedPosts);
             pagesProcessed := 1;
             hasMoreData := false |}
  | (Throw e, _) => throw e
  end.

End WithHost.

End DiscoursePollingBehavior.

(** ** The behaviour registry *)

Module PollingBehaviorRegistry.

Inductive Behavior : Type := DiscourseSpecialized | DefaultGeneric.

Definition canHandle (b : Behavior) (sourceType : string) : bool :=
  match b with
  | DiscourseSpecialized => DiscoursePollingBehavior.canHandle sourceType
  | DefaultGeneric => DefaultPollingBehavior.canHandle sourceType
  end.

(** The registered behaviours, in registration order. *)
Definition behaviors : list Behavior := [DiscourseSpecialized].

Definition getBehavior (sourceType : string) : Behavior :=
  match List.find (fun b => canHandle b sourceType) behaviors with
  | Some specificBehavior => specificBehavior
  | None => DefaultGeneric
  end.

End PollingBehaviorRegistry.

(** ** The scheduler (services/polling/pollingService.ts) *)

Module PollingService.
Import RateLimiter PollingStateService.

Record PollingJob : Type := {
  config : PollingConfig;
  timeoutId : option nat;
  isRunning : bool
}.

(** The service object together with what it reaches: the pending
    timers of the event loop (identifier to the job key captured by the
    callback), the two Redis backends, and a record, kept for the proofs
    only, of the job keys whose behaviour was invoked, latest first. *)
Record World : Type := {
  jobs : gmap string PollingJob;
  serviceRunning : bool;
  timers : gmap nat string;
  nextTimer : nat;
  limiter : Backend ZStore;
  states : Backend HStore;
  polled : list string
}.

Definition set_jobs (j : gmap string PollingJob) (w : World) : World :=
  {| jobs := j; serviceRunning := serviceRunning w; timers := timers w;
     nextTimer := nextTimer w; limiter := limiter w; states := states w;
     polled := polled w |}.

Definition set_timers (t : gmap nat string) (n : nat) (w : World) : World :=
  {| jobs := jobs w; serviceRunning := serviceRunning w; timers := t;
     nextTimer := n; limiter := limiter w; states := states w;
     polled := polled w |}.

Definition set_limiter (l : Backend ZStore) (w : World) : World :=
  {| jobs := jobs w; serviceRunning := serviceRunning w; timers := timers w;
     nextTimer := nextTimer w; limiter := l; states := states w;
     polled := polled w |}.

Definition set_states (st : Backend HStore) (w : World) : World :=
  {| jobs := jobs w; serviceRunning := serviceRunning w; timers := timers w;
     nextTimer := nextTimer w; limiter := limiter w; states := st;
     polled := polled w |}.

Definition set_polled (p : list string) (w : World) : World :=
  {| jobs := jobs w; serviceRunning := serviceRunning w; timers := timers w;
     nextTimer := nextTimer w; limiter := limiter w; states := states w;
     polled := p |}.

(** Calls into the two singletons. *)
Definition on_limiter {A : Type} (m : M (Backend ZStore) A) : M World A :=
  fun w => let '(r, l) := m (limiter w) in (r, set_limiter l w).

Definition on_states {A : Type} (m : M (Backend HStore) A) : M World A :=
  fun w => let '(r, st) := m (states w) in (r, set_states st w).

(** A synchronous method of the service. *)
Definition sync (f : World -> World) : M World unit := fun w => (Ok tt, f w).

Fixpoint for_each {S A : Type} (l : list A) (body : A -> M S unit) : M S unit :=
  match l with
  | [] => ret tt
  | x :: rest => body x;; for_each rest body
  end.

Definition getJobKey (config : PollingConfig) : string :=
  tenant_id config +:+ ":" +:+ source_type config +:+ ":" +:+ instance_url config.

(** [rateLimitKey] of [executePoll] *)
Definition rateLimitKey (config : PollingConfig) : string :=
  tenant_id config +:+ ":" +:+ source_type config +:+ ":api_calls".

Definition hasConfigChanged (oldConfig newConfig : PollingConfig) : bool :=
  negb (interval_seconds (polling_config oldConfig)
        =? interval_seconds (polling_config newConfig))
  || negb (bool_decide (endpoint (api_config oldConfig) = endpoint (api_config newConfig)))
  || negb (bool_decide (query_params (api_config oldConfig)
                        = query_params (api_config newConfig)))
  || negb (bool_decide (data_extraction oldConfig = data_extraction newConfig)).

Definition clearTimeout (id : option nat) (t : gmap nat string) : gmap nat string :=
  match id with
  | Some i => delete i t
  | None => t
  end.

Definition stopPollingJob (jobKey : string) (w : World) : World :=
  match jobs w !! jobKey with
  | Some job =>
      set_jobs (delete jobKey (jobs w))
        (set_timers (clearTimeout (timeoutId job) (timers w)) (nextTimer w) w)
  | None => w
  end.

(** [setTimeout] arms a fresh timer; its callback is [timer_callback]
    below, run when the timer fires. *)
Definition scheduleNextPoll (jobKey : string) (w : World) : World :=
  match jobs w !! jobKey with
  | Some job =>
      if serviceRunning w then
        let id := nextTimer w in
        set_jobs (<[jobKey := {| config := config job; timeoutId := Some id;
                                 isRunning := isRunning job |}]> (jobs w))
          (set_timers (<[id := jobKey]> (timers w)) (S id) w)
      else w
  | None => w
  end.

Definition startPollingJob (config : PollingConfig) (w : World) : World :=
  let jobKey := getJobKey config in
  let job := {| config := config; timeoutId := None; isRunning := false |} in
  scheduleNextPoll jobKey (set_jobs (<[jobKey := job]> (jobs w)) w).

Definition set_job_running (jobKey : string) (b : bool) (w : World) : World :=
  set_jobs (alter (fun job => {| config := config job; timeoutId := timeoutId job;
                                 isRunning := b |}) jobKey (jobs w)) w.

Definition set_serviceRunning (b : bool) (w : World) : World :=
  {| jobs := jobs w; serviceRunning := b; timers := timers w;
     nextTimer := nextTimer w; limiter := limiter w; states := states w;
     polled := polled w |}.

(** [stop()]: the flag goes down and every job is stopped; the keys are
    those the map holds when the loop starts, and [stopPollingJob] removes
    only its own. The interval that triggers the reconciliations, the
    registry and the connections are outside the model: a reconciliation
    is a step, whoever triggers it. *)
Definition stop (w : World) : World :=
  let w1 := set_serviceRunning false w in
  foldl (fun w jobKey => stopPollingJob jobKey w) w1 (map_to_list (jobs w1)).*1.

(** The message of [publishToKafka]; [msg_api_key] is
    [config.api_config.auth?.api_key_value]. *)
Record QueueMessage (R : Type) : Type := {
  msg_tenant_id : string;
  msg_source_type : string;
  msg_instance_url : string;
  msg_api_key : option string;
  msg_ingestion_method : string;
  msg_raw_data : R;
  msg_retry_count : Z;
  msg_correlation_id : string
}.
Arguments msg_tenant_id {R} q.
Arguments msg_source_type {R} q.
Arguments msg_instance_url {R} q.
Arguments msg_api_key {R} q.
Arguments msg_ingestion_method {R} q.
Arguments msg_raw_data {R} q.
Arguments msg_retry_count {R} q.
Arguments msg_correlation_id {R} q.

Definition message {R : Type} (config : PollingConfig) (apiKey : option string)
    (record : R) (correlationId : string) : QueueMessage R :=
  {| msg_tenant_id := tenant_id config;
     msg_source_type := source_type config;
     msg_instance_url := instance_url config;
     msg_api_key := apiKey;
     msg_ingestion_method := "POLLING";
     msg_raw_data := record;
     msg_retry_count := 0;
     msg_correlation_id := correlationId |}.

(** [publishToKafka(config, record, correlationId)]: one send of one
    message; the topic is the list of the messages sent so far, and the
    fault schedule of the backend decides which send throws. *)
Definition publishToKafka {R : Type} (config : PollingConfig) (apiKey : option string)
    (record : R) (correlationId : string) : M (Backend (list (QueueMessage R))) unit :=
  command (fun topic => (tt, topic ++ [message config apiKey record correlationId])).

(** The [try] block of [pollWithBehavior] from the outcome of
    [behavior.poll] on: one [publishToKafka] per record, in order; an
    error of the behaviour or of a send is thrown again. *)
Definition publish_records {R : Type} (config : PollingConfig) (apiKey : option string)
    (correlationId : string) (outcome : res (PollingResult R))
  : M (Backend (list (QueueMessage R))) unit :=
  match outcome with
  | Throw e => throw e
  | Ok result =>
      for_each (records result)
        (fun record => publishToKafka config apiKey record correlationId)
  end.

(** What a cycle meets outside the service: the clock at its four
    readings and the outcome of [pollWithBehavior], the fetch by the
    registered behaviour followed by one publish per record. *)
Record Env : Type := {
  t_minute : Z;
  t_hour : Z;
  t_attempt : Z;
  t_done : Z;
  poll_outcome : res unit
}.

Section WithDate.
Context `{DateHost}.

(** The body of the first loop of [loadPollingConfigurations]. *)
Definition reconcile_config (cfg : PollingConfig) : M World unit :=
  let jobKey := getJobKey cfg in
  fun w0 =>
    let existingJob := jobs w0 !! jobKey in
    (let* shouldDisable :=
       on_states (shouldDisablePolling (tenant_id cfg) (source_type cfg)
                    (instance_url cfg)
                    (max_failures_before_disable (polling_config cfg))) in
     if shouldDisable : bool then
       match existingJob with
       | Some _ => sync (stopPollingJob jobKey)
       | None => ret tt
       end
     else
       (match existingJob with
        | Some job =>
            if hasConfigChanged (config job) cfg
            then sync (stopPollingJob jobKey) else ret tt
        | None => ret tt
        end);;
       sync (fun w =>
               match jobs w !! jobKey with
               | None => startPollingJob cfg w
               | Some _ => w
               end)) w0.

Definition isStillEnabled (configs : list PollingConfig) (jobKey : string) : bool :=
  existsb (fun cfg => bool_decide (getJobKey cfg = jobKey)
                      && enabled (polling_config cfg)) configs.

(** [found] is the outcome of the configuration query. *)
Definition loadPollingConfigurations (found : res (list PollingConfig)) : M World unit :=
  try_catch
    (match found with
     | Throw e => throw e
     | Ok configs =>
         for_each configs reconcile_config;;
         fun w =>
           for_each (map_to_list (jobs w)).*1
             (fun jobKey =>
                if isStillEnabled configs jobKey then ret tt
                else sync (stopPollingJob jobKey)) w
     end)
    (fun _ => ret tt).

(** [pollWithBehavior]: the invocation is recorded, the outcome is the
    environment's. *)
Definition pollWithBehavior (env : Env) (jobKey : string) : M World unit :=
  fun w =>
    (poll_outcome env, set_polled (jobKey :: polled w) w).

Definition executePoll (env : Env) (jobKey : string) : M World unit :=
  fun w0 =>
    match jobs w0 !! jobKey with
    | None => (Ok tt, w0)
    | Some job =>
        if isRunning job then (Ok tt, w0)
        else
          let cfg := config job in
          let attempt : M World unit :=
            try_catch
              (let key := rateLimitKey cfg in
               let* minuteAllowed :=
                 on_limiter (isAllowed (t_minute env) (key +:+ ":minute") 60
                               (requests_per_minute (rate_limiting cfg))) in
               let* hourAllowed :=
                 on_limiter (isAllowed (t_hour env) (key +:+ ":hour") 3600
                               (requests_per_hour (rate_limiting cfg))) in
               if negb minuteAllowed || negb hourAllowed then ret tt
               else
                 on_states (updateLastPollAttempt (t_attempt env) (tenant_id cfg)
                              (source_type cfg) (instance_url cfg));;
                 pollWithBehavior env jobKey;;
                 on_states (updateSuccessfulPoll (t_done env) (tenant_id cfg)
                              (source_type cfg) (instance_url cfg)))
              (fun errorMessage =>
                 let* shouldDisable :=
                   on_states (updateFailedPoll (t_done env) (tenant_id cfg)
                                (source_type cfg) (instance_url cfg) errorMessage
                                (max_failures_before_disable (polling_config cfg))) in
                 if shouldDisable : bool then sync (stopPollingJob jobKey) else ret tt) in
          (* job.isRunning = true; try { ... } finally { job.isRunning = false } *)
          let '(r, w1) := attempt (set_job_running jobKey true w0) in
          (r, set_job_running jobKey false w1)
    end.

(** The callback of the timer armed by [scheduleNextPoll]. *)
Definition timer_callback (env : Env) (jobKey : string) (w : World) : World :=
  if serviceRunning w then
    scheduleNextPoll jobKey (executePoll env jobKey w).2
  else w.

(** What can happen to the service while it runs. *)
Inductive Event : Type :=
| Reconciliation (found : res (list PollingConfig))
| TimerFires (id : nat) (env : Env)
| StateWritten (st : Backend HStore).

Definition step (w : World) (e : Event) : World :=
  match e with
  | Reconciliation found => (loadPollingConfigurations found w).2
  | TimerFires id env =>
      match timers w !! id with
      | Some jobKey =>
          timer_callback env jobKey (set_timers (delete id (timers w)) (nextTimer w) w)
      | None => w
      end
  | StateWritten st => set_states st w
  end.

Definition run (w : World) (es : list Event) : World := foldl step w es.

End WithDate.

End PollingService.

(** ** Hosts for the examples *)

Module ExampleHost.

(** A clock host that writes a time as its decimal count of
    milliseconds and reads it back with [parseInt]. *)
Definition epoch_date : DateHost :=
  {| toISOString := fun t => pretty t;
     dateOfString := fun s => match parseInt s with Num z => z | NaN => 0 end |}.

(** An evaluator for the fragment of JSONPath made of the root [$], the
    child step [.name] and the wildcard [[*]]. *)
Inductive Step : Type :=
| Child (name : string)
| Wildcard.

Definition flush (cur : option string) (rest : res (list Step)) : res (list Step) :=
  match cur, rest with
  | _, Throw e => Throw e
  | None, Ok steps => Ok steps
  | Some EmptyString, Ok _ => Throw "jsonpath: empty name"
  | Some name, Ok steps => Ok (Child name :: steps)
  end.

Fixpoint parse_steps (cur : option string) (s : string) : res (list Step) :=
  match s with
  | EmptyString => flush cur (Ok [])
  | String "."%char s' => flush cur (parse_steps (Some EmptyString) s')
  | String "["%char (String "*"%char (String "]"%char s')) =>
      flush cur
        (match parse_steps None s' with
         | Ok steps => Ok (Wildcard :: steps)
         | Throw e => Throw e
         end)
  | String c s' =>
      match cur with
      | Some name => parse_steps (Some (name +:+ String c EmptyString)) s'
      | None => Throw "jsonpath: unexpected character"
      end
  end.

Definition field (name : string) (fields : list (string * json)) : list json :=
  match List.find (fun kv => bool_decide (kv.1 = name)) fields with
  | Some kv => [kv.2]
  | None => []
  end.

Definition apply_step (st : Step) (v : json) : list json :=
  match st, v with
  | Child name, JObj fields => field name fields
  | Wildcard, JArr xs => xs
  | Wildcard, JObj fields => fields.*2
  | _, _ => []
  end.

Definition query (data : json) (path : string) : res (list json) :=
  match path with
  | String "$"%char rest =>
      match parse_steps None rest with
      | Ok steps => Ok (foldl (fun vs st => vs ≫= apply_step st) [data] steps)
      | Throw e => Throw e
      end
  | _ => Throw "jsonpath: path must start with $"
  end.

Definition mini_jsonpath : JsonPath := {| jsonpath_query := query |}.

End ExampleHost.

(** ** Notions used in the statements *)

Module Notions.
Import RateLimiter PollingStateService.

(** What is left of a window once the events scored up to
    [now - windowSizeSeconds * 1000] are evicted. *)
Definition evict (now windowSizeSeconds : Z) (z : gmap string Z) : gmap string Z :=
  filter (fun e => ~ in_range 0 (now - windowSizeSeconds * 1000) e) z.

(** [x] turned into a list when it is not one already. *)
Definition as_list (v : json) : list json :=
  match v with
  | JArr xs => xs
  | _ => [v]
  end.

(** Successive [isAllowed] calls on one key, at the given clock readings. *)
Fixpoint calls (key : string) (windowSizeSeconds maxRequests : Z) (times : list Z)
    (b : Backend ZStore) : list (res bool) * Backend ZStore :=
  match times with
  | [] => ([], b)
  | now :: rest =>
      let '(r, b1) := isAllowed now key windowSizeSeconds maxRequests b in
      let '(rs, b2) := calls key windowSizeSeconds maxRequests rest b1 in
      (r :: rs, b2)
  end.

(** The state [getPollingState] reads off a stored hash. *)
Definition read_state `{DateHost} (h : gmap string string) : PollingState :=
  if bool_decide (size h = 0%nat) then default_state else state_of_hash h.

(** The hash a key holds after an [hSet] of the given fields. *)
Definition written (fields : list (string * string)) (h : gmap string string)
  : gmap string string :=
  foldl (fun h fv => <[fv.1 := fv.2]> h) h fields.

(** Successive [updateFailedPoll] calls for one source, each given as
    the clock reading and the error message. *)
Fixpoint failures `{DateHost} (tenantId sourceType instanceUrl : string)
    (maxFailures : Z) (polls : list (Z * string)) (b : Backend HStore)
  : list (res bool) * Backend HStore :=
  match polls with
  | [] => ([], b)
  | (now, error) :: rest =>
      let '(r, b1) :=
        updateFailedPoll now tenantId sourceType instanceUrl error maxFailures b in
      let '(rs, b2) := failures tenantId sourceType instanceUrl maxFailures rest b1 in
      (r :: rs, b2)
  end.

(** Whether a computation returned. *)
Definition returned {A : Type} (r : res A) : bool :=
  match r with
  | Ok _ => true
  | Throw _ => false
  end.

(** The records a topic group adds to a cycle: the merged details when
    the detail request answers with posts, nothing otherwise. *)
Definition group_records
    (getPostDetails : Z -> Z -> list Z -> res (option (list DiscourseClient.DiscourseDetailedPost)))
    (page : Z) (group : Z * list DiscourseClient.DiscourseSearchPost)
  : list DiscourseClient.EnrichedPost :=
  match getPostDetails page group.1 (map DiscourseClient.sp_id group.2) with
  | Ok (Some detailedPosts) => DiscourseClient.mergePostData group.2 detailedPosts
  | _ => []
  end.

Definition group_request (page : Z) (group : Z * list DiscourseClient.DiscourseSearchPost)
  : DiscourseClient.Request :=
  DiscourseClient.DetailRequest page group.1 (map DiscourseClient.sp_id group.2).

(** The timers of the event loop and the job handles agree: a pending
    timer belongs to the job handle of its key, which holds its
    identifier, and identifiers are handed out in increasing order. *)
Definition well_formed (w : PollingService.World) : Prop :=
  forall (id : nat) (jobKey : string),
    PollingService.timers w !! id = Some jobKey ->
    (id < PollingService.nextTimer w)%nat
    /\ exists job, PollingService.jobs w !! jobKey = Some job
                   /\ PollingService.timeoutId job = Some id.

(** The failure count the scheduler reads for a configuration has
    reached the threshold of that configuration. *)
Definition at_threshold `{DateHost} (st : Backend HStore) (cfg : PollingConfig) : Prop :=
  num_geb
    (consecutiveFailures
       (read_state (hash (store st)
                      (getStateKey (tenant_id cfg) (source_type cfg) (instance_url cfg)))))
    (max_failures_before_disable (polling_config cfg)) = true.

(** Along the events [es] from [w], every reconciliation finds the
    state store answering and every configuration with job key [jobKey]
    at its threshold. *)
Fixpoint kept_disabled `{DateHost} (jobKey : string) (w : PollingService.World)
    (es : list PollingService.Event) : Prop :=
  match es with
  | [] => True
  | e :: rest =>
      match e with
      | PollingService.Reconciliation (Ok configs) =>
          faults (PollingService.states w) = []
          /\ forall cfg, cfg ∈ configs -> PollingService.getJobKey cfg = jobKey ->
               at_threshold (PollingService.states w) cfg
      | _ => True
      end
      /\ kept_disabled jobKey (PollingService.step w e) rest
  end.

(** The service after the first loop of a reconciliation has handled
    [cfg], given the answer of [shouldDisablePolling]. *)
Definition reconciled (cfg : PollingConfig) (disable : bool)
    (w : PollingService.World) : PollingService.World :=
  let jobKey := PollingService.getJobKey cfg in
  if disable then PollingService.stopPollingJob jobKey w
  else
    let w1 :=
      match PollingService.jobs w !! jobKey with
      | Some job =>
          if PollingService.hasConfigChanged (PollingService.config job) cfg
          then PollingService.stopPollingJob jobKey w else w
      | None => w
      end in
    match PollingService.jobs w1 !! jobKey with
    | None => PollingService.startPollingJob cfg w1
    | Some _ => w1
    end.

(** The service after a cycle of [jobKey] that left the limiter and the
    state store as given, invoked the behaviour or not, and stopped the
    job or not. *)
Definition cycled (jobKey : string) (l : Backend ZStore) (st : Backend HStore)
    (invoked stopped : bool) (w : PollingService.World) : PollingService.World :=
  let w' :=
    PollingService.set_polled
      (if invoked then jobKey :: PollingService.polled w else PollingService.polled w)
      (PollingService.set_states st (PollingService.set_limiter l w)) in
  if stopped then PollingService.stopPollingJob jobKey w' else w'.

(** Clock readings that increase strictly, the first one at or after [from]. *)
Fixpoint increasing_from (from : Z) (times : list Z) : Prop :=
  match times with
  | [] => True
  | t :: rest => from <= t /\ increasing_from (t + 1) rest
  end.

(** Every event of the window is stored under the decimal string of its
    score, and the scores lie in [lo, hi). *)
Definition window_within (lo hi : Z) (z : gmap string Z) : Prop :=
  forall (member : string) (score : Z),
    z !! member = Some score -> member = pretty score /\ lo <= score < hi.

(** A Redis instance that holds nothing. *)
Definition no_windows : ZStore := {| zsets := ∅; zttl := ∅ |}.
Definition no_states : HStore := {| hashes := ∅; httl := ∅ |}.

(** The hash and the expiry under [other] are in [b'] what they are in
    [b]. *)
Definition untouched (other : string) (b b' : Backend HStore) : Prop :=
  hash (store b') other = hash (store b) other
  /\ httl (store b') !! other = httl (store b) !! other.

(** The window and the expiry under [other] are in [b'] what they are in
    [b]. *)
Definition same_window (other : string) (b b' : Backend ZStore) : Prop :=
  zset (store b') other = zset (store b) other
  /\ zttl (store b') !! other = zttl (store b) !! other.

(** No character of [s] is a colon. *)
Definition colon_free (s : string) : Prop :=
  forall c, c ∈ String.list_ascii_of_string s -> c <> ":"%char.

Section Cycles.
Import DataExtractor DiscourseClient PollingService.
Context `{JsonPath}.

(** What the generic cycle adds to its records for the request number
    [page] sent with [params]. *)
Definition page_records (makeRequest : Z -> gmap string json -> res json)
    (cfg : PollingConfig) (page : Z) (params : gmap string json) : list json :=
  match makeRequest page params with
  | Ok response =>
      match extractData response cfg with
      | Ok extractedData => extractedData
      | Throw _ => []
      end
  | Throw _ => []
  end.

(** The same for the requests that follow request number [pageCount]. *)
Fixpoint pages_records (makeRequest : Z -> gmap string json -> res json)
    (cfg : PollingConfig) (pageCount : Z) (requests : list (gmap string json))
  : list json :=
  match requests with
  | [] => []
  | params :: rest =>
      page_records makeRequest cfg (pageCount + 1) params
      ++ pages_records makeRequest cfg (pageCount + 1) rest
  end.

(** The requests a Discourse cycle sends for one page: the search, then
    one detail request per topic group of the posts found. *)
Definition page_requests (search : Z -> res (option (list DiscourseSearchPost)))
    (page : Z) : list Request :=
  SearchRequest page ::
  match search page with
  | Ok (Some posts) => map (group_request page) (groupPostsByTopic posts)
  | _ => []
  end.

(** The search of [page] answers with at least one post. *)
Definition has_posts (search : Z -> res (option (list DiscourseSearchPost)))
    (page : Z) : Prop :=
  exists posts, search page = Ok (Some posts) /\ posts <> [].

(** Every job handle holds a timer that is pending for its key. *)
Definition all_armed (w : World) : Prop :=
  forall jobKey job,
    jobs w !! jobKey = Some job ->
    exists id, timeoutId job = Some id /\ timers w !! id = Some jobKey.

(** A running service in which timers and handles agree and every handle
    waits on a timer. *)
Definition scheduled (w : World) : Prop :=
  well_formed w /\ all_armed w /\ serviceRunning w = true.

(** A stopped service with no pending timer, whose invocations so far are
    [p]. *)
Definition halted (p : list string) (w : World) : Prop :=
  serviceRunning w = false /\ timers w = ∅ /\ polled w = p.

End Cycles.

End Notions.

(** ** Configurations and worlds for the examples *)

Module Examples.
Import RateLimiter PollingStateService PollingService Notions.

(** A cursor-paginated source of tenant "acme" at the given instance. *)
Definition acme (instanceUrl : string) (perMinute perHour maxFailures : Z)
  : PollingConfig :=
  {| tenant_id := "acme";
     source_type := "INTERCOM";
     instance_url := instanceUrl;
     api_config := {| endpoint := instanceUrl +:+ "/conversations";
                      query_params := [] |};
     polling_config := {| interval_seconds := 60; enabled := true;
                          max_failures_before_disable := maxFailures |};
     data_extraction :=
       {| response_path := Some "$.items";
          pagination := Some {| pg_type := Cursor;
                                limit_param := None; offset_param := None;
                                cursor_param := Some "starting_after";
                                page_param := None; per_page_param := None;
                                next_page_path := Some "$.next" |} |};
     rate_limiting := {| requests_per_minute := perMinute;
                         requests_per_hour := perHour |} |}.

Definition eu : PollingConfig := acme "https://eu.acme.io" 5 1 3.
Definition us : PollingConfig := acme "https://us.acme.io" 5 1 3.

Definition idle (cfg : PollingConfig) : PollingJob :=
  {| config := cfg; timeoutId := None; isRunning := false |}.

(** A running service that holds the given jobs, with no timer armed. *)
Definition world (js : gmap string PollingJob) (lim : Backend ZStore)
    (sts : Backend HStore) : World :=
  {| jobs := js; serviceRunning := true; timers := ∅; nextTimer := 0%nat;
     limiter := lim; states := sts; polled := [] |}.

(** A cycle whose clock reads [t] throughout. *)
Definition at_time (t : Z) (outcome : res unit) : Env :=
  {| t_minute := t; t_hour := t; t_attempt := t; t_done := t;
     poll_outcome := outcome |}.

(** The windows of "acme" after one call earlier in the hour. *)
Definition hour_spent : ZStore :=
  {| zsets := {[ "acme:INTERCOM:api_calls:hour" := {[ "1000" := 1000 ]} ]};
     zttl := ∅ |}.

Definition response : json :=
  JObj [("items", JArr [JObj [("id", JNum (Num 1))]; JObj [("id", JNum (Num 2))]]);
        ("next", JStr "abc")].

Definition last_response : json :=
  JObj [("items", JArr [JObj [("id", JNum (Num 3))]]); ("next", JNull)].

(** A forum whose search has two pages of posts, in topics 10, 20 and
    30, and whose detail request fails for topic 10. *)
Definition post (id topic : Z) (title : string) : DiscourseClient.DiscourseSearchPost :=
  {| DiscourseClient.sp_id := id; DiscourseClient.sp_topic_id := topic;
     DiscourseClient.sp_topic_title_headline := title |}.

Definition forum_search (page : Z)
  : res (option (list DiscourseClient.DiscourseSearchPost)) :=
  if page =? 1 then Ok (Some [post 1 10 "Login"; post 2 20 "Billing"; post 3 10 "Login"])
  else if page =? 2 then Ok (Some [post 4 30 "Export"])
  else Ok (Some []).

Definition forum_details (page topicId : Z) (postIds : list Z)
  : res (option (list DiscourseClient.DiscourseDetailedPost)) :=
  if topicId =? 10 then Throw "Request failed with status code 500"
  else Ok (Some (map (fun id => {| DiscourseClient.dp_id := id;
                                   DiscourseClient.dp_topic_id := topicId;
                                   DiscourseClient.dp_cooked := "<p>text</p>" |})
                   postIds)).

(** A service that has just started, with nothing configured yet. *)
Definition started : World := world ∅ (healthy no_windows) (healthy no_states).

(** The "eu" instance is configured, and its first three cycles, more
    than an hour apart, all fail. *)
Definition three_failures : list Event :=
  [Reconciliation (Ok [eu]);
   TimerFires 0 (at_time 1000 (Throw "connect ETIMEDOUT"));
   TimerFires 1 (at_time 3700000 (Throw "connect ETIMEDOUT"));
   TimerFires 2 (at_time 7400000 (Throw "connect ETIMEDOUT"))].

(** Two more reconciliations with "eu" still enabled, and a stale timer. *)
Definition still_configured : list Event :=
  [Reconciliation (Ok [eu]);
   TimerFires 2 (at_time 11100000 (Ok tt));
   Reconciliation (Ok [eu])].

(** A source with the given pagination, its records under [$.items]. *)
Definition paginated (pg : Pagination) : PollingConfig :=
  {| tenant_id := "acme";
     source_type := "JSONPLACEHOLDER";
     instance_url := "https://api.acme.io";
     api_config := {| endpoint := "https://api.acme.io/items"; query_params := [] |};
     polling_config := {| interval_seconds := 60; enabled := true;
                          max_failures_before_disable := 5 |};
     data_extraction := {| response_path := Some "$.items"; pagination := Some pg |};
     rate_limiting := {| requests_per_minute := 60; requests_per_hour := 1000 |} |}.

Definition by_page : PollingConfig :=
  paginated {| pg_type := Page; limit_param := None; offset_param := None;
               cursor_param := None; page_param := Some "page";
               per_page_param := Some "per_page"; next_page_path := None |}.

Definition by_offset : PollingConfig :=
  paginated {| pg_type := Offset; limit_param := Some "limit";
               offset_param := Some "offset"; cursor_param := None;
               page_param := None; per_page_param := None; next_page_path := None |}.

Definition unnamed_cursor : PollingConfig :=
  paginated {| pg_type := Cursor; limit_param := None; offset_param := None;
               cursor_param := None; page_param := None; per_page_param := None;
               next_page_path := Some "$.next" |}.

(** An API that answers request number [n] with the [n]-th of [pages],
    and with no items after the last. *)
Definition serving (pages : list json) (page : Z) (params : gmap string json) : res json :=
  Ok (default (JObj [("items", JArr [])]) (pages !! Z.to_nat (page - 1))).

(** The state after a success at time [t]. *)
Definition succeeded (t : Z) : PollingState :=
  {| lastSuccessfulPoll := Some t; lastPollAttempt := Some t;
     consecutiveFailures := Num 0; lastError := None; lastErrorTimestamp := None |}.

(** "eu" with a limit of one request per minute. *)
Definition strict : PollingConfig := acme "https://eu.acme.io" 1 5 3.

(** The per-minute window of "eu" after one request at time 1000. *)
Definition minute_spent : ZStore :=
  {| zsets := {[ "acme:INTERCOM:api_calls:minute" := {[ "1000" := 1000 ]} ]};
     zttl := ∅ |}.

End Examples.

(* ===================================================================== *)
(** * Part II: the properties                                              *)
(* ===================================================================== *)

Import RateLimiter PollingStateService DataExtractor PollingService Notions.

(** ** Backend commands *)

Lemma command_healthy {D A : Type} (f : D -> A * D) (b : Backend D) :
  faults b = [] -> command f b = (Ok (f (store b)).1, healthy (f (store b)).2).
Proof.
  intros Hf. unfold command, healthy. rewrite Hf. by destruct (f (store b)).
Qed.

Lemma command_faulty {D A : Type} (f : D -> A * D) (b : Backend D) fs :
  faults b = true :: fs ->
  command f b = (Throw "redis: command failed", {| store := store b; faults := fs |}).
Proof. intros Hf. unfold command. by rewrite Hf. Qed.

Lemma command_outcome {D A : Type} (f : D -> A * D) (b : Backend D) :
  (exists fs, faults b = true :: fs /\
      command f b = (Throw "redis: command failed", {| store := store b; faults := fs |}))
  \/ (head (faults b) <> Some true /\
      command f b = (Ok (f (store b)).1,
                     {| store := (f (store b)).2; faults := tail (faults b) |})).
Proof.
  unfold command. destruct (faults b) as [|[] fs] eqn:Hf; simpl.
  - right. split; [done|]. by destruct (f (store b)).
  - left. eauto.
  - right. split; [done|]. by destruct (f (store b)).
Qed.

(** ** Decimal round trip: [parseInt (n.toString ()) = n] *)

Lemma is_nat_pretty_N_char (d : N) :
  (d < 10)%N -> Ascii.is_nat (pretty_N_char d) = Some (N.to_nat d).
Proof.
  intros Hd.
  assert (d = 0 \/ d = 1 \/ d = 2 \/ d = 3 \/ d = 4 \/ d = 5 \/ d = 6
          \/ d = 7 \/ d = 8 \/ d = 9)%N as Hcases by lia.
  repeat (destruct Hcases as [->|Hcases]; [reflexivity|]). by subst.
Qed.

Lemma digits_go_pretty_N_go (x : N) :
  (0 < x)%N ->
  exists m : Z, forall (s : string) (acc : Z) (seen : bool),
    digits_go acc seen (pretty_N_go x s) = digits_go (acc * m + Z.of_N x) true s.
Proof.
  induction (N.lt_wf_0 x) as [x _ IH]. intros Hx.
  assert (Hdigit : (x `mod` 10 < 10)%N) by (apply N.mod_lt; lia).
  pose proof (N.div_mod x 10 ltac:(lia)) as Hx10.
  destruct (decide (x `div` 10 = 0)%N) as [Hz|Hnz].
  - exists 10. intros s acc seen.
    rewrite pretty_N_go_step by done. rewrite Hz, pretty_N_go_0. simpl.
    rewrite is_nat_pretty_N_char by done. rewrite N_nat_Z.
    f_equal. lia.
  - destruct (IH (x `div` 10)%N) as [m Hm].
    { apply N.div_lt; lia. }
    { lia. }
    exists (m * 10). intros s acc seen.
    rewrite pretty_N_go_step by done. rewrite Hm. simpl.
    rewrite is_nat_pretty_N_char by done. rewrite N_nat_Z.
    f_equal. lia.
Qed.

Lemma digits_go_pretty_pos (p : positive) :
  digits_go 0 false (pretty p) = Some (Z.pos p).
Proof.
  unfold pretty, pretty_positive, pretty, pretty_N.
  destruct (decide (N.pos p = 0%N)) as [|_]; [done|].
  destruct (digits_go_pretty_N_go (N.pos p)) as [m Hm]; [lia|].
  rewrite Hm. reflexivity.
Qed.

Lemma parseInt_pretty (z : Z) : parseInt (pretty z) = Num z.
Proof.
  destruct z as [|p|p].
  - reflexivity.
  - change (pretty (Z.pos p)) with (pretty p).
    unfold parseInt. by rewrite digits_go_pretty_pos.
  - change (pretty (Z.neg p)) with (String "-"%char (pretty p)).
    unfold parseInt.
    change (digits_go 0 false (String "-"%char (pretty p))) with (@None Z).
    by rewrite digits_go_pretty_pos.
Qed.
(** ** The rate limiter on a healthy backend *)

Lemma zset_after_write (zs : gmap string (gmap string Z)) (ttl : gmap string Z)
    (key : string) (z : gmap string Z) :
  zset {| zsets := <[key := z]> zs; zttl := ttl |} key = z.
Proof. unfold zset. simpl. by rewrite lookup_insert_eq. Qed.

Lemma zset_after_write_ne (zs : gmap string (gmap string Z)) (ttl : gmap string Z)
    (key key' : string) (z : gmap string Z) :
  key <> key' ->
  zset {| zsets := <[key := z]> zs; zttl := ttl |} key' = default ∅ (zs !! key').
Proof. intros Hne. unfold zset. simpl. by rewrite lookup_insert_ne. Qed.

Lemma isAllowed_body_healthy now key W N (b : Backend ZStore) :
  faults b = [] ->
  isAllowed_body now key W N b =
    let kept := evict now W (zset (store b) key) in
    if N <=? Z.of_nat (size kept)
    then (Ok false,
          healthy {| zsets := <[key := kept]> (zsets (store b)); zttl := zttl (store b) |})
    else (Ok true,
          healthy {| zsets := <[key := <[pretty now := now]> kept]> (zsets (store b));
                     zttl := <[key := W * 2]> (zttl (store b)) |}).
Proof.
  intros Hf. unfold isAllowed_body, bind.
  rewrite command_healthy by done.
  unfold pipeline_exec, zRemRangeByScore, zCard. cbn [fst snd].
  rewrite zset_after_write. fold (evict now W (zset (store b) key)).
  cbn zeta. destruct (N <=? _) eqn:Hcmp; [done|].
  rewrite command_healthy by done. unfold zAdd. cbn [fst snd].
  rewrite command_healthy by done. unfold expire. cbn [fst snd store healthy zsets zttl].
  rewrite zset_after_write, insert_insert_eq. done.
Qed.

Lemma isAllowed_healthy now key W N (b : Backend ZStore) :
  faults b = [] ->
  isAllowed now key W N b = isAllowed_body now key W N b.
Proof.
  intros Hf. unfold isAllowed, try_catch.
  rewrite (isAllowed_body_healthy now key W N b Hf). cbn zeta.
  by destruct (N <=? _).
Qed.

Lemma isAllowed_keeps_healthy now key W N (b : Backend ZStore) :
  faults b = [] -> faults (isAllowed now key W N b).2 = [].
Proof.
  intros Hf. rewrite isAllowed_healthy, isAllowed_body_healthy by done.
  cbn zeta. by destruct (N <=? _).
Qed.

(** A throw of the body is answered with [true], and the body never
    returns after a failed command. *)
Lemma isAllowed_catches now key W N (b : Backend ZStore) :
  isAllowed now key W N b =
    match isAllowed_body now key W N b with
    | (Ok r, b') => (Ok r, b')
    | (Throw _, b') => (Ok true, b')
    end.
Proof.
  unfold isAllowed, try_catch, ret.
  by destruct (isAllowed_body now key W N b) as [[r|e] b'].
Qed.

Lemma isAllowed_body_first_fault now key W N (b : Backend ZStore) fs :
  faults b = true :: fs ->
  isAllowed_body now key W N b
  = (Throw "redis: command failed", {| store := store b; faults := fs |}).
Proof.
  intros Hf. unfold isAllowed_body, bind. by rewrite (command_faulty _ b fs).
Qed.

(** The body returns [false] only from a completed count that reached
    the limit. *)
Lemma isAllowed_body_denies now key W N (b : Backend ZStore) b' :
  isAllowed_body now key W N b = (Ok false, b') ->
  head (faults b) <> Some true
  /\ N <= Z.of_nat (size (evict now W (zset (store b) key))).
Proof.
  unfold isAllowed_body, bind.
  destruct (command_outcome (pipeline_exec key 0 (now - W * 1000)) b)
    as [(fs & Hf & ->)|[Hh ->]]; [done|].
  unfold pipeline_exec, zRemRangeByScore, zCard. cbn [fst snd].
  rewrite zset_after_write. fold (evict now W (zset (store b) key)).
  destruct (N <=? _) eqn:Hcmp.
  - intros _. split; [done|]. lia.
  - match goal with |- context [command ?f ?x] =>
      destruct (command_outcome f x) as [(fs & Hf & ->)|[_ ->]] end; [done|].
    match goal with |- context [command ?f ?x] =>
      destruct (command_outcome f x) as [(fs & Hf & ->)|[_ ->]] end; done.
Qed.

(** ** The polling state on a healthy backend *)

Section StateFacts.
Context `{DateHost}.

Lemma hash_after_write (hs : gmap string (gmap string string)) (ttl : gmap string Z)
    (key : string) (h : gmap string string) :
  hash {| hashes := <[key := h]> hs; httl := ttl |} key = h.
Proof. unfold hash. simpl. by rewrite lookup_insert_eq. Qed.

Lemma getPollingState_healthy tenant source url (b : Backend HStore) :
  faults b = [] ->
  getPollingState tenant source url b
  = (Ok (read_state (hash (store b) (getStateKey tenant source url))), b).
Proof.
  intros Hf. unfold getPollingState, try_catch, bind.
  rewrite command_healthy by done. unfold hGetAll, read_state. cbn [fst snd].
  destruct b as [d fs]. simpl in Hf. subst fs. unfold healthy.
  by case_bool_decide.
Qed.

(** Reading never throws: a failed read answers the default state. *)
Lemma getPollingState_total tenant source url (b : Backend HStore) :
  exists st b', getPollingState tenant source url b = (Ok st, b').
Proof.
  unfold getPollingState, try_catch, bind.
  destruct (command_outcome (hGetAll (getStateKey tenant source url)) b)
    as [(fs & Hf & ->)|[_ ->]].
  - unfold ret. eauto.
  - unfold ret. case_bool_decide; eauto.
Qed.

Lemma shouldDisablePolling_healthy tenant source url max (b : Backend HStore) :
  faults b = [] ->
  shouldDisablePolling tenant source url max b
  = (Ok (num_geb (consecutiveFailures
                    (read_state (hash (store b) (getStateKey tenant source url)))) max), b).
Proof.
  intros Hf. unfold shouldDisablePolling, try_catch, bind.
  by rewrite getPollingState_healthy.
Qed.

Lemma shouldDisablePolling_total tenant source url max (b : Backend HStore) :
  exists r b', shouldDisablePolling tenant source url max b = (Ok r, b').
Proof.
  unfold shouldDisablePolling, try_catch, bind.
  destruct (getPollingState_total tenant source url b) as (st & b' & ->).
  unfold ret. eauto.
Qed.

Lemma updateLastPollAttempt_total now tenant source url (b : Backend HStore) :
  exists b', updateLastPollAttempt now tenant source url b = (Ok tt, b').
Proof.
  unfold updateLastPollAttempt, try_catch, bind, ret.
  repeat match goal with |- context [command ?f ?x] =>
    destruct (command_outcome f x) as [(? & ? & ->)|[_ ->]]; cbn [fst snd]
  end; eauto.
Qed.

Lemma updateSuccessfulPoll_total now tenant source url (b : Backend HStore) :
  exists b', updateSuccessfulPoll now tenant source url b = (Ok tt, b').
Proof.
  unfold updateSuccessfulPoll, try_catch, bind, ret.
  repeat match goal with |- context [command ?f ?x] =>
    destruct (command_outcome f x) as [(? & ? & ->)|[_ ->]]; cbn [fst snd]
  end; eauto.
Qed.

Lemma updateFailedPoll_total now tenant source url err max (b : Backend HStore) :
  exists r b', updateFailedPoll now tenant source url err max b = (Ok r, b').
Proof.
  unfold updateFailedPoll, try_catch, bind.
  destruct (getPollingState_total tenant source url b) as (st & b' & ->).
  unfold ret.
  repeat match goal with |- context [command ?f ?x] =>
    destruct (command_outcome f x) as [(? & ? & ->)|[_ ->]]; cbn [fst snd]
  end; eauto.
Qed.

Lemma updateFailedPoll_healthy now tenant source url err max (b : Backend HStore) :
  faults b = [] ->
  let key := getStateKey tenant source url in
  let count := num_succ (consecutiveFailures (read_state (hash (store b) key))) in
  updateFailedPoll now tenant source url err max b
  = (Ok (num_geb count max),
     healthy {| hashes := <[key := written [("consecutiveFailures", num_toString count);
                                             ("lastError", err);
                                             ("lastErrorTimestamp", toISOString now)]
                                      (hash (store b) key)]> (hashes (store b));
                httl := <[key := ttl_seconds]> (httl (store b)) |}).
Proof.
  intros Hf key count. unfold updateFailedPoll, try_catch, bind.
  rewrite getPollingState_healthy by done.
  rewrite command_healthy by done. unfold hSet. cbn [fst snd].
  rewrite command_healthy by done. done.
Qed.

Lemma updateSuccessfulPoll_healthy now tenant source url (b : Backend HStore) :
  faults b = [] ->
  let key := getStateKey tenant source url in
  updateSuccessfulPoll now tenant source url b
  = (Ok tt,
     healthy {| hashes :=
                  <[key := delete "lastErrorTimestamp"
                             (delete "lastError"
                                (written [("lastSuccessfulPoll", toISOString now);
                                          ("consecutiveFailures", "0")]
                                   (hash (store b) key)))]> (hashes (store b));
                httl := <[key := ttl_seconds]> (httl (store b)) |}).
Proof.
  intros Hf key. unfold updateSuccessfulPoll, try_catch, bind.
  rewrite command_healthy by done. unfold hSet. cbn [fst snd].
  rewrite command_healthy by done. unfold hDel. cbn [fst snd store healthy].
  rewrite command_healthy by done. unfold PollingStateService.expire.
  cbn [fst snd store healthy hashes httl].
  rewrite hash_after_write, insert_insert_eq. done.
Qed.

End StateFacts.

(** ** The failure counter *)

Section CounterFacts.
Context `{DateHost}.

Lemma pretty_Z_nonempty (z : Z) : pretty z <> "".
Proof.
  intros Hz. pose proof (parseInt_pretty z) as Hp. rewrite Hz in Hp. done.
Qed.

Lemma read_count_written (h : gmap string string) (count : Z) (err ts : string) :
  consecutiveFailures
    (read_state (written [("consecutiveFailures", pretty count);
                          ("lastError", err); ("lastErrorTimestamp", ts)] h))
  = Num count.
Proof.
  unfold written, read_state. cbn [foldl fst snd].
  case_bool_decide as Hsize.
  { apply map_size_empty_inv in Hsize. by apply insert_non_empty in Hsize. }
  unfold state_of_hash. cbn [consecutiveFailures].
  rewrite !lookup_insert_ne by done. rewrite lookup_insert_eq.
  unfold str_truthy. rewrite bool_decide_eq_false_2 by apply pretty_Z_nonempty.
  apply parseInt_pretty.
Qed.

Lemma failures_from_count tenant source url max (polls : list (Z * string)) :
  forall (b : Backend HStore) (n : nat),
    faults b = [] ->
    consecutiveFailures (read_state (hash (store b) (getStateKey tenant source url)))
    = Num (Z.of_nat n) ->
    let run := failures tenant source url max polls b in
    run.1 = (fun i : nat => Ok (bool_decide (max <= Z.of_nat i))) <$> seq (S n) (length polls)
    /\ faults run.2 = []
    /\ consecutiveFailures (read_state (hash (store run.2) (getStateKey tenant source url)))
       = Num (Z.of_nat (n + length polls))
    /\ (forall now error, last polls = Some (now, error) ->
          hash (store run.2) (getStateKey tenant source url) !! "lastError" = Some error
          /\ hash (store run.2) (getStateKey tenant source url) !! "lastErrorTimestamp"
             = Some (toISOString now)).
Proof.
  induction polls as [|[now error] rest IH]; intros b n Hf Hcount.
  - simpl. rewrite Nat.add_0_r. done.
  - cbn [failures].
    rewrite updateFailedPoll_healthy by done. cbn zeta.
    rewrite Hcount. cbn [num_succ num_toString].
    set (b1 := healthy _).
    assert (Hcount1 : consecutiveFailures
               (read_state (hash (store b1) (getStateKey tenant source url)))
             = Num (Z.of_nat (S n))).
    { unfold b1. cbn [store healthy]. rewrite hash_after_write.
      rewrite read_count_written. f_equal. lia. }
    destruct (IH b1 (S n) eq_refl Hcount1) as (Hrs & Hf' & Hc' & Hlast).
    destruct (failures tenant source url max rest b1) as [rs b2] eqn:Hrun.
    cbn [fst snd] in *. split; [|split; [|split]].
    + rewrite Hrs. cbn [length seq fmap list_fmap num_geb]. f_equal. f_equal.
      case_bool_decide; [apply Z.leb_le|apply Z.leb_gt]; lia.
    + done.
    + rewrite Hc'. cbn [length]. f_equal. lia.
    + intros now' error' Hl.
      destruct rest as [|p rest'].
      * cbn in Hl. injection Hl as <- <-.
        cbn in Hrun. injection Hrun as _ <-.
        unfold b1. cbn [store healthy]. rewrite hash_after_write.
        unfold written. cbn [foldl fst snd].
        rewrite lookup_insert_eq. rewrite lookup_insert_ne by done.
        by rewrite lookup_insert_eq.
      * apply Hlast. by rewrite last_cons_cons in Hl.
Qed.

End CounterFacts.

(** C4. From a state with zero failures, [k] consecutive calls of
    [updateFailedPoll] (recordFailure) leave [consecutive_failures = k]
    with the message and the timestamp of the last call stored, the call
    number [i] returning [true] exactly when [i >= maxFailures]; a call of
    [updateSuccessfulPoll] (recordSuccess) after them stores the
    last-success timestamp, brings the count back to 0 and removes the
    stored error and its timestamp. The backend is taken to answer every
    command. *)
Theorem failure_counter_counts_and_resets `{DateHost} (tenant source url : string)
    (maxFailures : Z) (polls : list (Z * string)) (t_ok : Z) (b : Backend HStore) :
  faults b = [] ->
  consecutiveFailures (read_state (hash (store b) (getStateKey tenant source url))) = Num 0 ->
  let key := getStateKey tenant source url in
  let failed := failures tenant source url maxFailures polls b in
  let reset := (updateSuccessfulPoll t_ok tenant source url failed.2).2 in
  failed.1 = (fun i : nat => Ok (bool_decide (maxFailures <= Z.of_nat i)))
               <$> seq 1 (length polls)
  /\ (exists st, (getPollingState tenant source url failed.2).1 = Ok st
                 /\ consecutiveFailures st = Num (Z.of_nat (length polls)))
  /\ (forall now error, last polls = Some (now, error) ->
        hash (store failed.2) key !! "lastError" = Some error
        /\ hash (store failed.2) key !! "lastErrorTimestamp" = Some (toISOString now))
  /\ hash (store reset) key !! "lastSuccessfulPoll" = Some (toISOString t_ok)
  /\ hash (store reset) key !! "consecutiveFailures" = Some "0"
  /\ hash (store reset) key !! "lastError" = None
  /\ hash (store reset) key !! "lastErrorTimestamp" = None
  /\ (exists st, (getPollingState tenant source url reset).1 = Ok st
                 /\ consecutiveFailures st = Num 0
                 /\ lastError st = None
                 /\ lastErrorTimestamp st = None).
Proof.
  intros Hf H0 key failed reset.
  destruct (failures_from_count tenant source url maxFailures polls b 0%nat Hf H0)
    as (Hrs & Hf' & Hcount & Hlast).
  fold failed in Hrs, Hf', Hcount, Hlast. fold key in Hcount, Hlast.
  assert (Hreset : store reset
            = {| hashes :=
                   <[key := delete "lastErrorTimestamp"
                              (delete "lastError"
                                 (written [("lastSuccessfulPoll", toISOString t_ok);
                                           ("consecutiveFailures", "0")]
                                    (hash (store failed.2) key)))]> (hashes (store failed.2));
                 httl := <[key := ttl_seconds]> (httl (store failed.2)) |}
          /\ faults reset = []).
  { unfold reset. by rewrite updateSuccessfulPoll_healthy. }
  destruct Hreset as [Hstore Hfr].
  assert (Hh : hash (store reset) key
               = delete "lastErrorTimestamp"
                   (delete "lastError"
                      (<["consecutiveFailures" := "0"]>
                         (<["lastSuccessfulPoll" := toISOString t_ok]>
                            (hash (store failed.2) key))))).
  { rewrite Hstore. by rewrite hash_after_write. }
  split; [done|]. split.
  { eexists. rewrite getPollingState_healthy by done. split; [done|].
    exact Hcount. }
  split; [done|].
  rewrite Hh.
  assert (Hne : delete "lastErrorTimestamp"
                  (delete "lastError"
                     (<["consecutiveFailures" := "0"]>
                        (<["lastSuccessfulPoll" := toISOString t_ok]>
                           (hash (store failed.2) key)))) !! "consecutiveFailures"
                = Some "0").
  { rewrite !lookup_delete_ne by done. by rewrite lookup_insert_eq. }
  split.
  { rewrite !lookup_delete_ne by done. rewrite lookup_insert_ne by done.
    by rewrite lookup_insert_eq. }
  split; [done|]. split.
  { rewrite lookup_delete_ne by done. by rewrite lookup_delete_eq. }
  split.
  { by rewrite lookup_delete_eq. }
  eexists. rewrite getPollingState_healthy by done. split; [done|].
  fold key. rewrite Hh. unfold read_state.
  case_bool_decide as Hsize.
  { apply map_size_empty_inv in Hsize. rewrite Hsize in Hne. by rewrite lookup_empty in Hne. }
  unfold state_of_hash, date_field. cbn [consecutiveFailures lastError lastErrorTimestamp].
  rewrite Hne. rewrite lookup_delete_eq.
  rewrite lookup_delete_ne by done. rewrite lookup_delete_eq. done.
Qed.

Lemma failure_counter_counts_and_resets_witness :
  let H := ExampleHost.epoch_date in
  let polls := [(1000, "timeout"); (2000, "HTTP 500"); (3000, "HTTP 502")] in
  let b := healthy no_states in
  let key := getStateKey "acme" "DISCOURSE" "https://forum.acme.io" in
  let failed := failures "acme" "DISCOURSE" "https://forum.acme.io" 3 polls b in
  let reset := (updateSuccessfulPoll 4000 "acme" "DISCOURSE" "https://forum.acme.io" failed.2).2 in
  failed.1 = [Ok false; Ok false; Ok true]
  /\ hash (store failed.2) key !! "consecutiveFailures" = Some "3"
  /\ hash (store failed.2) key !! "lastError" = Some "HTTP 502"
  /\ hash (store reset) key !! "consecutiveFailures" = Some "0"
  /\ hash (store reset) key !! "lastError" = None.
Proof.
  intros H polls b key failed reset.
  pose proof (failure_counter_counts_and_resets (H := H)
                "acme" "DISCOURSE" "https://forum.acme.io" 3 polls 4000 b
                eq_refl eq_refl) as (Hrs & _ & Hlast & _ & Hzero & Herr & _).
  split; [exact Hrs|]. split; [vm_compute; reflexivity|].
  split; [exact (proj1 (Hlast 3000 "HTTP 502" eq_refl))|].
  split; [exact Hzero|exact Herr].
Defined.

(** ** One cycle of the scheduler *)

(** Setters applied to an explicit world are evaluated innermost first. *)
Ltac world_norm :=
  cbv beta iota delta
    [set_job_running set_polled set_states set_limiter set_timers set_jobs
     jobs serviceRunning timers nextTimer limiter states polled].

Ltac world_norm_in H :=
  cbv beta iota delta
    [set_job_running set_polled set_states set_limiter set_timers set_jobs
     jobs serviceRunning timers nextTimer limiter states polled] in H.

Section CycleFacts.
Context `{DateHost}.

Lemma isAllowed_total now key W N (b : Backend ZStore) :
  exists r b', isAllowed now key W N b = (Ok r, b').
Proof.
  rewrite isAllowed_catches.
  destruct (isAllowed_body now key W N b) as [[r|e] b']; eauto.
Qed.

Lemma executePoll_absent env jobKey (w : World) :
  jobs w !! jobKey = None -> executePoll env jobKey w = (Ok tt, w).
Proof. intros Hj. unfold executePoll. by rewrite Hj. Qed.

Lemma executePoll_in_flight env jobKey (w : World) job :
  jobs w !! jobKey = Some job -> isRunning job = true ->
  executePoll env jobKey w = (Ok tt, w).
Proof. intros Hj Hr. unfold executePoll. by rewrite Hj, Hr. Qed.

Lemma running_flag_restored (js : gmap string PollingJob) jobKey job :
  js !! jobKey = Some job -> isRunning job = false ->
  alter (fun job => {| config := config job; timeoutId := timeoutId job;
                       isRunning := false |}) jobKey
    (alter (fun job => {| config := config job; timeoutId := timeoutId job;
                          isRunning := true |}) jobKey js) = js.
Proof.
  intros Hj Hr. apply map_eq. intros k.
  destruct (decide (jobKey = k)) as [<-|Hk].
  - rewrite !lookup_alter_eq. rewrite Hj. simpl. f_equal.
    destruct job. simpl in *. by subst.
  - by rewrite !lookup_alter_ne.
Qed.

Lemma running_flag_after_stop (js : gmap string PollingJob) jobKey :
  alter (fun job => {| config := config job; timeoutId := timeoutId job;
                       isRunning := false |}) jobKey
    (delete jobKey
       (alter (fun job => {| config := config job; timeoutId := timeoutId job;
                             isRunning := true |}) jobKey js)) = delete jobKey js.
Proof.
  apply map_eq. intros k.
  destruct (decide (jobKey = k)) as [<-|Hk].
  - rewrite lookup_alter_eq. by rewrite !lookup_delete_eq.
  - rewrite lookup_alter_ne by done. rewrite !lookup_delete_ne by done.
    by rewrite lookup_alter_ne.
Qed.

(** A cycle stopped by the rate limiter only touches the limiter. *)
Lemma executePoll_rate_limited env jobKey (w : World) job rm rh l1 l2 :
  jobs w !! jobKey = Some job -> isRunning job = false ->
  isAllowed (t_minute env) (rateLimitKey (config job) +:+ ":minute") 60
    (requests_per_minute (rate_limiting (config job))) (limiter w) = (Ok rm, l1) ->
  isAllowed (t_hour env) (rateLimitKey (config job) +:+ ":hour") 3600
    (requests_per_hour (rate_limiting (config job))) l1 = (Ok rh, l2) ->
  rm && rh = false ->
  executePoll env jobKey w = (Ok tt, set_limiter l2 w).
Proof.
  destruct w as [js run ts nt lim sts pol].
  intros Hj Hr Hmin Hhour Hdenied. world_norm_in Hj. world_norm_in Hmin.
  unfold executePoll. world_norm. rewrite Hj, Hr.
  unfold try_catch, bind, on_limiter. world_norm.
  rewrite Hmin. world_norm. rewrite Hhour.
  replace (negb rm || negb rh) with true by (by destruct rm, rh).
  unfold ret. world_norm.
  by rewrite (running_flag_restored _ _ _ Hj Hr).
Qed.

(** A cycle that passes the limiter and whose fetch and publish succeed. *)
Lemma executePoll_success env jobKey (w : World) job l1 l2 s1 s2 :
  jobs w !! jobKey = Some job -> isRunning job = false ->
  isAllowed (t_minute env) (rateLimitKey (config job) +:+ ":minute") 60
    (requests_per_minute (rate_limiting (config job))) (limiter w) = (Ok true, l1) ->
  isAllowed (t_hour env) (rateLimitKey (config job) +:+ ":hour") 3600
    (requests_per_hour (rate_limiting (config job))) l1 = (Ok true, l2) ->
  updateLastPollAttempt (t_attempt env) (tenant_id (config job))
    (source_type (config job)) (instance_url (config job)) (states w) = (Ok tt, s1) ->
  poll_outcome env = Ok tt ->
  updateSuccessfulPoll (t_done env) (tenant_id (config job))
    (source_type (config job)) (instance_url (config job)) s1 = (Ok tt, s2) ->
  executePoll env jobKey w
  = (Ok tt, set_polled (jobKey :: polled w) (set_states s2 (set_limiter l2 w))).
Proof.
  destruct w as [js run ts nt lim sts pol].
  intros Hj Hr Hmin Hhour Hatt Hout Hsucc.
  world_norm_in Hj. world_norm_in Hmin. world_norm_in Hatt.
  unfold executePoll. world_norm. rewrite Hj, Hr.
  unfold try_catch, bind, on_limiter, on_states, pollWithBehavior. world_norm.
  rewrite Hmin. world_norm. rewrite Hhour.
  cbn [negb orb]. world_norm. rewrite Hatt. world_norm. rewrite Hout.
  world_norm. rewrite Hsucc. world_norm.
  by rewrite (running_flag_restored _ _ _ Hj Hr).
Qed.

(** A cycle that passes the limiter and whose fetch or publish throws. *)
Lemma executePoll_failure env jobKey (w : World) job l1 l2 s1 s2 e (disable : bool) :
  jobs w !! jobKey = Some job -> isRunning job = false ->
  isAllowed (t_minute env) (rateLimitKey (config job) +:+ ":minute") 60
    (requests_per_minute (rate_limiting (config job))) (limiter w) = (Ok true, l1) ->
  isAllowed (t_hour env) (rateLimitKey (config job) +:+ ":hour") 3600
    (requests_per_hour (rate_limiting (config job))) l1 = (Ok true, l2) ->
  updateLastPollAttempt (t_attempt env) (tenant_id (config job))
    (source_type (config job)) (instance_url (config job)) (states w) = (Ok tt, s1) ->
  poll_outcome env = Throw e ->
  updateFailedPoll (t_done env) (tenant_id (config job))
    (source_type (config job)) (instance_url (config job)) e
    (max_failures_before_disable (polling_config (config job))) s1 = (Ok disable, s2) ->
  executePoll env jobKey w
  = (Ok tt,
     let w' := set_polled (jobKey :: polled w) (set_states s2 (set_limiter l2 w)) in
     if disable then stopPollingJob jobKey w' else w').
Proof.
  destruct w as [js run ts nt lim sts pol].
  intros Hj Hr Hmin Hhour Hatt Hout Hfail.
  world_norm_in Hj. world_norm_in Hmin. world_norm_in Hatt.
  unfold executePoll. world_norm. rewrite Hj, Hr.
  unfold try_catch, bind, on_limiter, on_states, pollWithBehavior. world_norm.
  rewrite Hmin. world_norm. rewrite Hhour.
  cbn [negb orb]. world_norm. rewrite Hatt. world_norm. rewrite Hout.
  world_norm. rewrite Hfail.
  destruct disable.
  - unfold sync, stopPollingJob. world_norm.
    rewrite lookup_alter_eq, Hj. cbn [fmap option_fmap option_map timeoutId].
    world_norm. by rewrite running_flag_after_stop.
  - unfold ret. world_norm.
    by rewrite (running_flag_restored _ _ _ Hj Hr).
Qed.

End CycleFacts.

(** ** What a check leaves in the windows *)

Lemma isAllowed_body_allows now key W N (b b' : Backend ZStore) :
  isAllowed_body now key W N b = (Ok true, b') ->
  Z.of_nat (size (evict now W (zset (store b) key))) < N
  /\ store b'
     = {| zsets := <[key := <[pretty now := now]> (evict now W (zset (store b) key))]>
                     (zsets (store b));
          zttl := <[key := W * 2]> (zttl (store b)) |}.
Proof.
  unfold isAllowed_body, bind.
  destruct (command_outcome (pipeline_exec key 0 (now - W * 1000)) b)
    as [(fs & Hf & ->)|[Hh ->]]; [done|].
  unfold pipeline_exec, zRemRangeByScore, zCard. cbn [fst snd].
  rewrite zset_after_write. fold (evict now W (zset (store b) key)).
  destruct (N <=? _) eqn:Hcmp; [done|].
  match goal with |- context [command ?f ?x] =>
    destruct (command_outcome f x) as [(fs & Hf & ->)|[_ ->]] end; [done|].
  match goal with |- context [command ?f ?x] =>
    destruct (command_outcome f x) as [(fs & Hf & ->)|[_ ->]] end; [done|].
  unfold ret. intros [= <-]. split; [lia|].
  unfold zAdd, RateLimiter.expire. cbn [fst snd store zsets zttl].
  by rewrite zset_after_write, insert_insert_eq.
Qed.

(** A check reads and writes the window of its own key only. *)
Lemma isAllowed_other_window now key W N (b : Backend ZStore) key' :
  key <> key' ->
  zset (store (isAllowed now key W N b).2) key' = zset (store b) key'.
Proof.
  intros Hne. rewrite isAllowed_catches. unfold isAllowed_body, bind.
  destruct (command_outcome (pipeline_exec key 0 (now - W * 1000)) b)
    as [(fs & Hf & ->)|[Hh ->]]; [done|].
  unfold pipeline_exec, zRemRangeByScore, zCard. cbn [fst snd].
  rewrite zset_after_write.
  assert (Hkept : forall z ttl fs,
             zset (store {| store := {| zsets := <[key := z]> (zsets (store b)); zttl := ttl |};
                            faults := fs |}) key' = zset (store b) key').
  { intros z ttl fs. cbn [store]. by rewrite zset_after_write_ne. }
  destruct (N <=? _) eqn:Hcmp; [apply Hkept|].
  match goal with |- context [command ?f ?x] =>
    destruct (command_outcome f x) as [(fs & Hf & ->)|[_ ->]] end; [apply Hkept|].
  unfold zAdd. cbn [fst snd store zsets zttl].
  match goal with |- context [command ?f ?x] =>
    destruct (command_outcome f x) as [(fs & Hf & ->)|[_ ->]] end.
  - cbn [fst snd store]. rewrite insert_insert_eq. by rewrite zset_after_write_ne.
  - unfold RateLimiter.expire, ret. cbn [fst snd store zsets zttl].
    rewrite insert_insert_eq. by rewrite zset_after_write_ne.
Qed.

Lemma minute_hour_keys_differ (key : string) : key +:+ ":minute" <> key +:+ ":hour".
Proof. intros Heq. by apply (inj (String.app key)) in Heq. Qed.

(** C10. When the per-minute check of a cycle reaches the verdict
    "allowed" and the per-hour check denies, the cycle is skipped: nothing
    is written to the polling state, the behaviour is not invoked and the
    job stays as it was; but the per-minute window now is the evicted
    window with the current timestamp added, so that the skipped cycle
    takes one unit of the per-minute budget (the count grows by one
    whenever that millisecond was not yet recorded). *)
Theorem hour_denial_still_spends_minute_budget `{DateHost} env jobKey (w : World) job l1 :
  jobs w !! jobKey = Some job ->
  isRunning job = false ->
  let minuteKey := rateLimitKey (config job) +:+ ":minute" in
  let hourKey := rateLimitKey (config job) +:+ ":hour" in
  isAllowed_body (t_minute env) minuteKey 60
    (requests_per_minute (rate_limiting (config job))) (limiter w) = (Ok true, l1) ->
  (isAllowed (t_hour env) hourKey 3600
     (requests_per_hour (rate_limiting (config job))) l1).1 = Ok false ->
  let w' := (executePoll env jobKey w).2 in
  let before := evict (t_minute env) 60 (zset (store (limiter w)) minuteKey) in
  let after := zset (store (limiter w')) minuteKey in
  states w' = states w
  /\ polled w' = polled w
  /\ jobs w' = jobs w
  /\ after = <[pretty (t_minute env) := t_minute env]> before
  /\ after !! pretty (t_minute env) = Some (t_minute env)
  /\ (before !! pretty (t_minute env) = None -> size after = S (size before)).
Proof.
  intros Hj Hr minuteKey hourKey Hbody Hhour w' before after.
  assert (Hmin : isAllowed (t_minute env) minuteKey 60
            (requests_per_minute (rate_limiting (config job))) (limiter w) = (Ok true, l1)).
  { rewrite isAllowed_catches. by rewrite Hbody. }
  destruct (isAllowed (t_hour env) hourKey 3600
              (requests_per_hour (rate_limiting (config job))) l1) as [rh l2] eqn:Hh.
  cbn [fst] in Hhour. subst rh.
  assert (Hw' : w' = set_limiter l2 w).
  { unfold w'. by rewrite (executePoll_rate_limited env jobKey w job true false l1 l2). }
  assert (Hafter : after = <[pretty (t_minute env) := t_minute env]> before).
  { unfold after. rewrite Hw'. cbn [limiter set_limiter].
    replace l2 with (isAllowed (t_hour env) hourKey 3600
                       (requests_per_hour (rate_limiting (config job))) l1).2
      by (by rewrite Hh).
    rewrite isAllowed_other_window by (symmetry; apply minute_hour_keys_differ).
    destruct (isAllowed_body_allows _ _ _ _ _ _ Hbody) as [_ ->].
    by rewrite zset_after_write. }
  rewrite Hw'. cbn [states polled jobs set_limiter].
  repeat split; try done.
  - rewrite Hafter. apply lookup_insert_eq.
  - intros Hfresh. rewrite Hafter. by apply map_size_insert_None.
Qed.

Lemma hour_denial_still_spends_minute_budget_witness :
  let w := Examples.world {[ getJobKey Examples.eu := Examples.idle Examples.eu ]}
             (healthy Examples.hour_spent) (healthy no_states) in
  let w' := (executePoll (H := ExampleHost.epoch_date) (Examples.at_time 61000 (Ok tt))
               (getJobKey Examples.eu) w).2 in
  states w' = states w
  /\ polled w' = []
  /\ zset (store (limiter w')) "acme:INTERCOM:api_calls:minute" !! "61000" = Some 61000.
Proof.
  intros w w'.
  pose proof (hour_denial_still_spends_minute_budget (H := ExampleHost.epoch_date)
                (Examples.at_time 61000 (Ok tt)) (getJobKey Examples.eu) w
                (Examples.idle Examples.eu)
                (isAllowed_body 61000 "acme:INTERCOM:api_calls:minute" 60 5 (limiter w)).2
                ltac:(vm_compute; reflexivity) eq_refl
                ltac:(vm_compute; reflexivity) ltac:(vm_compute; reflexivity))
    as (Hst & Hpol & _ & _ & Hin & _).
  split; [exact Hst|]. split; [exact Hpol|]. exact Hin.
Defined.

(** ** A cycle during an outage of the limiter *)

(** A throw inside the check is answered with [true]; [false] comes only
    from a completed count. *)
Lemma rate_limiter_answers now key W N (b : Backend ZStore) :
  (forall e b', isAllowed_body now key W N b = (Throw e, b') ->
                isAllowed now key W N b = (Ok true, b'))
  /\ (forall fs, faults b = true :: fs ->
                 isAllowed now key W N b = (Ok true, {| store := store b; faults := fs |}))
  /\ (exists r, (isAllowed now key W N b).1 = Ok r)
  /\ ((isAllowed now key W N b).1 = Ok false ->
      head (faults b) <> Some true
      /\ N <= Z.of_nat (size (evict now W (zset (store b) key)))).
Proof.
  rewrite isAllowed_catches. split; [|split; [|split]].
  - intros e b' ->. done.
  - intros fs Hf. by rewrite (isAllowed_body_first_fault now key W N b fs Hf).
  - destruct (isAllowed_body now key W N b) as [[r|e] b']; eauto.
  - destruct (isAllowed_body now key W N b) as [[[]|e] b'] eqn:Hbody; try done.
    intros _. by apply (isAllowed_body_denies now key W N b b').
Qed.


Lemma stopPollingJob_polled jobKey (w : World) :
  polled (stopPollingJob jobKey w) = polled w.
Proof. unfold stopPollingJob. by destruct (jobs w !! jobKey). Qed.

Lemma outage_does_not_stop_cycle `{DateHost} env jobKey (w : World) job fs :
  jobs w !! jobKey = Some job ->
  isRunning job = false ->
  faults (limiter w) = true :: true :: fs ->
  polled (executePoll env jobKey w).2 = jobKey :: polled w.
Proof.
  intros Hj Hr Hf.
  pose proof (proj1 (proj2 (rate_limiter_answers (t_minute env)
    (rateLimitKey (config job) +:+ ":minute") 60
    (requests_per_minute (rate_limiting (config job))) (limiter w))) _ Hf) as Hmin.
  pose proof (proj1 (proj2 (rate_limiter_answers (t_hour env)
    (rateLimitKey (config job) +:+ ":hour") 3600
    (requests_per_hour (rate_limiting (config job)))
    {| store := store (limiter w); faults := true :: fs |})) fs eq_refl) as Hhour.
  destruct (updateLastPollAttempt_total (t_attempt env) (tenant_id (config job))
              (source_type (config job)) (instance_url (config job)) (states w))
    as (s1 & Hatt).
  destruct (poll_outcome env) as [[]|e] eqn:Hout.
  - destruct (updateSuccessfulPoll_total (t_done env) (tenant_id (config job))
                (source_type (config job)) (instance_url (config job)) s1) as (s2 & Hs).
    by rewrite (executePoll_success env jobKey w job _ _ s1 s2 Hj Hr Hmin Hhour Hatt Hout Hs).
  - destruct (updateFailedPoll_total (t_done env) (tenant_id (config job))
                (source_type (config job)) (instance_url (config job)) e
                (max_failures_before_disable (polling_config (config job))) s1)
      as (d & s2 & Hfl).
    rewrite (executePoll_failure env jobKey w job _ _ s1 s2 e d Hj Hr Hmin Hhour Hatt Hout Hfl).
    cbn [snd]. destruct d; [by rewrite stopPollingJob_polled|done].
Qed.

(** C5. Whenever a backend command issued by [isAllowed] throws, and in
    particular when the backing store is unavailable so that already the
    first command fails, the call returns [true]: the call never throws,
    and it returns [false] only when no command failed and the count of
    the window, after eviction, had reached the limit. A cycle that meets
    an outage of the limiter therefore passes both checks and goes on to
    invoke its behaviour. *)
Theorem rate_limiter_fails_open `{DateHost} now key W N (b : Backend ZStore) :
  (forall e b', isAllowed_body now key W N b = (Throw e, b') ->
                isAllowed now key W N b = (Ok true, b'))
  /\ (forall fs, faults b = true :: fs ->
                 isAllowed now key W N b = (Ok true, {| store := store b; faults := fs |}))
  /\ (exists r, (isAllowed now key W N b).1 = Ok r)
  /\ ((isAllowed now key W N b).1 = Ok false ->
      head (faults b) <> Some true
      /\ N <= Z.of_nat (size (evict now W (zset (store b) key))))
  /\ (forall env jobKey (w : World) job fs,
        jobs w !! jobKey = Some job ->
        isRunning job = false ->
        faults (limiter w) = true :: true :: fs ->
        polled (executePoll env jobKey w).2 = jobKey :: polled w).
Proof.
  destruct (rate_limiter_answers now key W N b) as (H1 & H2 & H3 & H4).
  repeat (split; [done|]).
  intros env jobKey w job fs. apply outage_does_not_stop_cycle.
Qed.

Lemma rate_limiter_fails_open_witness :
  let down : Backend ZStore := {| store := Examples.hour_spent; faults := [true; true] |} in
  let w := Examples.world {[ getJobKey Examples.eu := Examples.idle Examples.eu ]}
             down (healthy no_states) in
  isAllowed 2000 "acme:INTERCOM:api_calls:hour" 3600 1 down
  = (Ok true, {| store := Examples.hour_spent; faults := [true] |})
  /\ polled (executePoll (H := ExampleHost.epoch_date) (Examples.at_time 2000 (Ok tt))
               (getJobKey Examples.eu) w).2 = [getJobKey Examples.eu].
Proof.
  intros down w.
  destruct (rate_limiter_fails_open (H := ExampleHost.epoch_date)
              2000 "acme:INTERCOM:api_calls:hour" 3600 1 down)
    as (_ & Hdown & _ & _ & Hcycle).
  split.
  - exact (Hdown [true] eq_refl).
  - exact (Hcycle (Examples.at_time 2000 (Ok tt)) (getJobKey Examples.eu) w
             (Examples.idle Examples.eu) [] ltac:(vm_compute; reflexivity) eq_refl eq_refl).
Defined.

(** ** Calls that read the same millisecond *)

(** The member added for a call is the decimal string of [now]: a second
    call in the same millisecond finds the member present and the window
    does not grow. Once one call is recorded, every further call in that
    millisecond is allowed as long as the limit is at least 2. *)
Lemma same_millisecond_window now key W N (b : Backend ZStore) :
  faults b = [] -> 0 < W -> 1 < N ->
  zset (store b) key = {[ pretty now := now ]} ->
  isAllowed now key W N b
  = (Ok true,
     healthy {| zsets := <[key := {[ pretty now := now ]}]> (zsets (store b));
                zttl := <[key := W * 2]> (zttl (store b)) |}).
Proof.
  intros Hf HW HN Hz.
  rewrite isAllowed_healthy, isAllowed_body_healthy by done. cbn zeta.
  rewrite Hz. unfold evict.
  rewrite map_filter_singleton_True by (unfold in_range; simpl; lia).
  rewrite map_size_singleton.
  replace (N <=? Z.of_nat 1) with false by (symmetry; apply Z.leb_gt; lia).
  by rewrite insert_singleton_eq.
Qed.

Lemma same_millisecond_calls_all_allowed now key W N (n : nat) :
  forall b : Backend ZStore,
    faults b = [] -> 0 < W -> 1 < N ->
    zset (store b) key = {[ pretty now := now ]} ->
    (calls key W N (replicate n now) b).1 = replicate n (Ok true).
Proof.
  induction n as [|n IH]; intros b Hf HW HN Hz; [done|].
  cbn [replicate calls].
  rewrite same_millisecond_window by done.
  specialize (IH (healthy {| zsets := <[key := {[ pretty now := now ]}]> (zsets (store b));
                             zttl := <[key := W * 2]> (zttl (store b)) |})
                eq_refl HW HN).
  cbn [store healthy] in IH. rewrite zset_after_write in IH. specialize (IH eq_refl).
  destruct (calls key W N (replicate n now) _) as [rs b']. cbn [fst] in *.
  by rewrite IH.
Qed.

(** C2, at the input where the code departs from it: with a limit of 2
    requests per 60 seconds, three calls that read the same millisecond
    are all allowed, and the window holds one event after them. *)
Theorem three_calls_in_one_millisecond :
  let run := calls "acme:INTERCOM:api_calls:minute" 60 2 [5000; 5000; 5000]
               (healthy no_windows) in
  run.1 = [Ok true; Ok true; Ok true]
  /\ zset (store run.2) "acme:INTERCOM:api_calls:minute" = {[ "5000" := 5000 ]}.
Proof. vm_compute. split; reflexivity. Qed.

(** ** Calls at distinct milliseconds *)

Lemma evict_keeps_recent now W (z : gmap string Z) lo hi :
  window_within lo hi z -> now < lo + W * 1000 -> evict now W z = z.
Proof.
  intros Hz Hnow. unfold evict. apply map_filter_id.
  intros member score Hm. destruct (Hz member score Hm) as [_ Hs].
  unfold in_range. simpl. lia.
Qed.

Lemma evict_clears_old now W (z : gmap string Z) lo hi :
  window_within lo hi z -> 0 <= lo -> hi <= now - W * 1000 + 1 -> evict now W z = ∅.
Proof.
  intros Hz Hlo Hhi. unfold evict. apply map_empty. intros member.
  apply map_lookup_filter_None. right. intros score Hm Hkeep.
  destruct (Hz member score Hm) as [_ Hs].
  apply Hkeep. unfold in_range. simpl. lia.
Qed.

Lemma window_within_wider lo hi hi' (z : gmap string Z) :
  window_within lo hi z -> hi <= hi' -> window_within lo hi' z.
Proof.
  intros Hz Hhi member score Hm. destruct (Hz member score Hm) as [-> Hs].
  split; [done|lia].
Qed.

Lemma window_within_add lo hi now (z : gmap string Z) :
  window_within lo hi z -> lo <= now -> hi <= now ->
  window_within lo (now + 1) (<[pretty now := now]> z).
Proof.
  intros Hz Hlo Hhi member score Hm.
  apply lookup_insert_Some in Hm as [[<- <-]|[_ Hm]]; [split; [done|lia]|].
  destruct (Hz member score Hm) as [-> Hs]. split; [done|lia].
Qed.

Lemma fresh_member lo hi now (z : gmap string Z) :
  window_within lo hi z -> hi <= now -> z !! pretty now = None.
Proof.
  intros Hz Hhi. destruct (z !! pretty now) as [score|] eqn:Hm; [|done].
  destruct (Hz _ _ Hm) as [Heq Hs]. apply (inj pretty) in Heq. lia.
Qed.

(** Calls at increasing milliseconds, all less than [W] seconds after the
    oldest event of the window: with [c] calls counted so far, the next
    calls are numbered from [c] and call number [i] is allowed exactly
    when [i < N]. *)
Lemma burst_within_window key W N (times : list Z) :
  forall (b : Backend ZStore) (lo hi : Z) (c : nat),
    faults b = [] ->
    window_within lo hi (zset (store b) key) ->
    (Z.of_nat c < N -> size (zset (store b) key) = c) ->
    (N <= Z.of_nat c -> N <= Z.of_nat (size (zset (store b) key))) ->
    lo <= hi ->
    increasing_from hi times ->
    Forall (fun t => t < lo + W * 1000) times ->
    let run := calls key W N times b in
    run.1 = (fun i : nat => Ok (bool_decide (Z.of_nat i < N))) <$> seq c (length times)
    /\ faults run.2 = []
    /\ window_within lo (foldl (fun _ t => t + 1) hi times) (zset (store run.2) key).
Proof.
  induction times as [|now rest IH]; intros b lo hi c Hf Hz Hlow Hhigh Hlohi Hinc Hspan.
  - cbn. done.
  - cbn [calls foldl]. destruct Hinc as [Hnow Hinc].
    apply Forall_cons in Hspan as [Hnow' Hspan].
    rewrite isAllowed_healthy, isAllowed_body_healthy by done. cbn zeta.
    rewrite (evict_keeps_recent now W _ lo hi Hz Hnow').
    pose proof (fresh_member lo hi now _ Hz Hnow) as Hfresh.
    destruct (N <=? Z.of_nat (size (zset (store b) key))) eqn:Hcmp.
    + apply Z.leb_le in Hcmp.
      assert (Hc : N <= Z.of_nat c).
      { destruct (decide (Z.of_nat c < N)) as [Hlt|]; [|lia]. rewrite (Hlow Hlt) in Hcmp. lia. }
      set (b1 := healthy _).
      assert (Hz1 : zset (store b1) key = zset (store b) key).
      { unfold b1. cbn [store healthy]. by rewrite zset_after_write. }
      destruct (IH b1 lo (now + 1) (S c) eq_refl) as (Hrs & Hf' & Hwin); try done.
      { rewrite Hz1. apply (window_within_wider lo hi); [done|lia]. }
      { lia. }
      { rewrite Hz1. lia. }
      { lia. }
      destruct (calls key W N rest b1) as [rs b2]. cbn [fst snd] in *.
      split; [|done].
      rewrite Hrs. cbn [length seq fmap list_fmap]. f_equal. f_equal.
      symmetry. apply bool_decide_eq_false. lia.
    + apply Z.leb_gt in Hcmp.
      assert (Hc : Z.of_nat c < N) by (destruct (decide (Z.of_nat c < N)); [done|lia]).
      pose proof (Hlow Hc) as Hsize.
      set (b1 := healthy _).
      assert (Hz1 : zset (store b1) key = <[pretty now := now]> (zset (store b) key)).
      { unfold b1. cbn [store healthy]. by rewrite zset_after_write. }
      assert (Hsize1 : size (zset (store b1) key) = S c).
      { rewrite Hz1, map_size_insert_None by done. by rewrite Hsize. }
      destruct (IH b1 lo (now + 1) (S c) eq_refl) as (Hrs & Hf' & Hwin); try done.
      { rewrite Hz1. apply (window_within_add lo hi); [done|lia|done]. }
      { rewrite Hsize1. lia. }
      { lia. }
      destruct (calls key W N rest b1) as [rs b2]. cbn [fst snd] in *.
      split; [|done].
      rewrite Hrs. cbn [length seq fmap list_fmap]. f_equal. f_equal.
      symmetry. by apply bool_decide_eq_true.
Qed.

(** X1. On an empty window, of the calls made at distinct milliseconds
    within a span of less than [W] seconds, the first [N] are allowed and
    every later one is denied. *)
Lemma sliding_window_admits_exactly_the_limit key W N (first : Z) (later : list Z)
    (b : Backend ZStore) :
  faults b = [] ->
  zset (store b) key = ∅ ->
  increasing_from (first + 1) later ->
  Forall (fun t => t < first + W * 1000) later ->
  0 < W ->
  (calls key W N (first :: later) b).1
  = (fun i : nat => Ok (bool_decide (Z.of_nat i < N))) <$> seq 0 (S (length later)).
Proof.
  intros Hf Hz Hinc Hspan HW.
  destruct (burst_within_window key W N (first :: later) b first first 0 Hf)
    as (Hrs & _); try done.
  - rewrite Hz. intros m s Hm. by rewrite lookup_empty in Hm.
  - rewrite Hz. by rewrite map_size_empty.
  - rewrite Hz, map_size_empty. lia.
  - apply Forall_cons. split; [lia|done].
Qed.

Lemma sliding_window_admits_exactly_the_limit_witness :
  (calls "acme:INTERCOM:api_calls:minute" 60 2 [5000; 5001; 20000; 64999]
     (healthy no_windows)).1
  = [Ok true; Ok true; Ok false; Ok false].
Proof.
  rewrite (sliding_window_admits_exactly_the_limit "acme:INTERCOM:api_calls:minute" 60 2
             5000 [5001; 20000; 64999] (healthy no_windows)).
  - reflexivity.
  - reflexivity.
  - reflexivity.
  - cbn. lia.
  - repeat constructor; lia.
  - lia.
Defined.

(** X2. Once [W] seconds have passed since the latest event of the window, a
    call is allowed again, provided the limit allows any call at all. *)
Lemma window_reopens_after_silence now key W N (b : Backend ZStore) lo hi :
  faults b = [] ->
  window_within lo hi (zset (store b) key) ->
  0 <= lo ->
  hi <= now - W * 1000 + 1 ->
  0 < N ->
  (isAllowed now key W N b).1 = Ok true.
Proof.
  intros Hf Hz Hlo Hhi HN.
  rewrite isAllowed_healthy, isAllowed_body_healthy by done. cbn zeta.
  rewrite (evict_clears_old now W _ lo hi Hz Hlo Hhi), map_size_empty.
  by replace (N <=? Z.of_nat 0) with false by (symmetry; apply Z.leb_gt; lia).
Qed.

Lemma window_reopens_after_silence_witness :
  let spent := (calls "acme:INTERCOM:api_calls:minute" 60 2 [5000; 5001]
                  (healthy no_windows)).2 in
  (isAllowed 64999 "acme:INTERCOM:api_calls:minute" 60 2 spent).1 = Ok false
  /\ (isAllowed 65001 "acme:INTERCOM:api_calls:minute" 60 2 spent).1 = Ok true.
Proof.
  intros spent. split; [vm_compute; reflexivity|].
  apply (window_reopens_after_silence 65001 "acme:INTERCOM:api_calls:minute" 60 2 spent
           5000 5002); [vm_compute; reflexivity| |lia|lia|lia].
  intros member score Hm.
  assert (Hall : map_Forall (fun (m : string) (s : Z) => m = pretty s /\ 5000 <= s < 5002)
                   (zset (store spent) "acme:INTERCOM:api_calls:minute")).
  { apply (bool_decide_unpack _). vm_compute. exact I. }
  exact (Hall member score Hm).
Defined.

(** A limit of 2 per minute: three calls at distinct milliseconds of one
    minute, then a call a minute after the last recorded one. *)
Example limit_of_two_per_minute :
  (calls "acme:INTERCOM:api_calls:minute" 60 2 [5000; 5001; 20000; 65001]
     (healthy no_windows)).1
  = [Ok true; Ok true; Ok false; Ok true].
Proof. vm_compute. reflexivity. Qed.

(** ** Keys of two instances of one source *)

(** C3, as stated, fails: "https://eu.acme.io" and "https://us.acme.io"
    of tenant "acme" have the same rate-limit key and the same state key.
    With one request per hour, the cycle of the first instance uses the
    budget up and the cycle of the second is skipped; and three failures
    of the first instance make [shouldDisablePolling] answer [true] for
    the second, which never failed. *)
Lemma instances_share_limiter_and_state_keys :
  tenant_id Examples.eu = tenant_id Examples.us
  /\ source_type Examples.eu = source_type Examples.us
  /\ instance_url Examples.eu <> instance_url Examples.us
  /\ rateLimitKey Examples.eu = rateLimitKey Examples.us
  /\ getStateKey "acme" "INTERCOM" "https://eu.acme.io"
     = getStateKey "acme" "INTERCOM" "https://us.acme.io"
  /\ (let w := Examples.world
                 (<[ getJobKey Examples.us := Examples.idle Examples.us ]>
                    {[ getJobKey Examples.eu := Examples.idle Examples.eu ]})
                 (healthy no_windows) (healthy no_states) in
      let H := ExampleHost.epoch_date in
      let w1 := (executePoll (Examples.at_time 1000 (Ok tt)) (getJobKey Examples.eu) w).2 in
      let w2 := (executePoll (Examples.at_time 2000 (Ok tt)) (getJobKey Examples.us) w1).2 in
      polled w2 = [getJobKey Examples.eu])
  /\ (let H := ExampleHost.epoch_date in
      let failed := failures "acme" "INTERCOM" "https://eu.acme.io" 3
                      [(1000, "e"); (2000, "e"); (3000, "e")] (healthy no_states) in
      (shouldDisablePolling "acme" "INTERCOM" "https://us.acme.io" 3 failed.2).1 = Ok true).
Proof.
  split; [reflexivity|]. split; [reflexivity|]. split; [discriminate|].
  split; [reflexivity|]. split; [reflexivity|].
  split; vm_compute; reflexivity.
Qed.

(** C3, amended. Two configurations with the same tenant and source type
    and different instance URLs have different job keys, hence a job
    handle each; they use the same rate-limit key, so that both draw on
    one per-minute and one per-hour budget. *)
Theorem instances_are_separate_jobs_on_one_budget (c1 c2 : PollingConfig) :
  tenant_id c1 = tenant_id c2 ->
  source_type c1 = source_type c2 ->
  instance_url c1 <> instance_url c2 ->
  getJobKey c1 <> getJobKey c2
  /\ rateLimitKey c1 = rateLimitKey c2
  /\ rateLimitKey c1 +:+ ":minute" = rateLimitKey c2 +:+ ":minute"
  /\ rateLimitKey c1 +:+ ":hour" = rateLimitKey c2 +:+ ":hour".
Proof.
  intros Ht Hs Hu. unfold getJobKey, rateLimitKey. rewrite Ht, Hs.
  split; [|done].
  intros Heq. apply Hu.
  repeat (apply (inj (String.app _)) in Heq). done.
Qed.

Lemma instances_are_separate_jobs_on_one_budget_witness :
  getJobKey Examples.eu <> getJobKey Examples.us
  /\ rateLimitKey Examples.eu = rateLimitKey Examples.us.
Proof.
  destruct (instances_are_separate_jobs_on_one_budget Examples.eu Examples.us
              eq_refl eq_refl ltac:(discriminate)) as (Hjob & Hrate & _).
  split; [exact Hjob|exact Hrate].
Defined.

(** ** The incremental parameter *)

(** C8, as stated, fails: with [since] already among the parameters the
    specification has [updated_after] injected, but the parameters come
    back unchanged. *)
Lemma since_present_blocks_injection :
  let H := ExampleHost.epoch_date in
  let params : gmap string json := {[ "since" := JStr "2024-01-01" ]} in
  addIncrementalParams params (Some 1700000000000) Examples.eu = params
  /\ addIncrementalParams params (Some 1700000000000) Examples.eu !! "updated_after" = None.
Proof. split; reflexivity. Qed.

Lemma poll_loop_issued_grows `{JsonPath} makeRequest cfg (left : nat) :
  forall hasMore pageCount total all params issued,
  exists more,
    (DefaultPollingBehavior.poll_loop makeRequest cfg left hasMore pageCount total all
       params issued).2 = issued ++ more.
Proof.
  induction left as [|left IH]; intros hasMore pageCount total all params issued.
  - exists []. cbn. by rewrite app_nil_r.
  - cbn [DefaultPollingBehavior.poll_loop].
    destruct hasMore; [|exists []; cbn; by rewrite app_nil_r].
    destruct (makeRequest (pageCount + 1) params) as [response|e];
      [|by exists [params]].
    destruct (extractData response cfg) as [extracted|e]; [|by exists [params]].
    match goal with |- context [DefaultPollingBehavior.poll_loop _ _ _ ?h ?p ?t ?a ?q ?i] =>
      destruct (IH h p t a q i) as [more ->] end.
    exists ([params] ++ more). by rewrite app_assoc.
Qed.

Lemma poll_loop_first_request `{JsonPath} makeRequest cfg (left : nat)
    pageCount total all params issued :
  exists more,
    (DefaultPollingBehavior.poll_loop makeRequest cfg (S left) true pageCount total all
       params issued).2 = issued ++ params :: more.
Proof.
  cbn [DefaultPollingBehavior.poll_loop].
  destruct (makeRequest (pageCount + 1) params) as [response|e]; [|by exists []].
  destruct (extractData response cfg) as [extracted|e]; [|by exists []].
  match goal with |- context [DefaultPollingBehavior.poll_loop _ _ _ ?h ?p ?t ?a ?q ?i] =>
    destruct (poll_loop_issued_grows makeRequest cfg left h p t a q i) as [more ->] end.
  exists more. by rewrite <- app_assoc.
Qed.

(** C8, amended. With a last successful poll time, [since] is set to its
    ISO timestamp exactly when none of [since], [updated_after] and
    [modified_since] is already set to a truthy value, and the other
    parameters are kept; when one of them is set, and when there is no
    last successful poll time, the parameters are returned unchanged. The
    parameters so obtained from the initial pagination parameters are those
    of the first request of a generic cycle. *)
Theorem since_injected_only_when_none_is_set `{JsonPath} `{DateHost}
    (params : gmap string json) (last : option Z) (cfg : PollingConfig) :
  let unset :=
    negb (truthy (prop params "since"))
    && negb (truthy (prop params "updated_after"))
    && negb (truthy (prop params "modified_since")) in
  (last = None -> addIncrementalParams params last cfg = params)
  /\ (forall t, last = Some t -> unset = true ->
        addIncrementalParams params last cfg !! "since" = Some (JStr (toISOString t))
        /\ forall k, k <> "since" ->
             addIncrementalParams params last cfg !! k = params !! k)
  /\ (forall t, last = Some t -> unset = false ->
        addIncrementalParams params last cfg = params)
  /\ (forall makeRequest st,
        exists more,
          (DefaultPollingBehavior.poll_loop makeRequest cfg 10 true 0 0 []
             (DefaultPollingBehavior.initial_params cfg st) []).2
          = addIncrementalParams (getInitialPaginationParams cfg)
              (lastSuccessfulPoll st) cfg :: more).
Proof.
  intros unset. unfold addIncrementalParams. fold unset.
  split; [by intros ->|]. split; [|split].
  - intros t -> ->. split.
    + apply lookup_insert_eq.
    + intros k Hk. by rewrite lookup_insert_ne.
  - by intros t -> ->.
  - intros makeRequest st.
    apply (poll_loop_first_request makeRequest cfg 9 0 0 []
             (DefaultPollingBehavior.initial_params cfg st) []).
Qed.

Lemma since_injected_only_when_none_is_set_witness :
  let H := ExampleHost.epoch_date in
  let J := ExampleHost.mini_jsonpath in
  addIncrementalParams (∅ : gmap string json) (Some 1700000000000) Examples.eu !! "since"
  = Some (JStr "1700000000000")
  /\ addIncrementalParams ({[ "updated_after" := JStr "x" ]} : gmap string json)
       (Some 1700000000000) Examples.eu = {[ "updated_after" := JStr "x" ]}
  /\ addIncrementalParams ({[ "page" := JNum (Num 1) ]} : gmap string json) None Examples.eu
     = {[ "page" := JNum (Num 1) ]}.
Proof.
  intros H J. split; [|split].
  - exact (proj1 (proj1 (proj2 (since_injected_only_when_none_is_set (H := J) (H0 := H)
             ∅ (Some 1700000000000) Examples.eu)) 1700000000000 eq_refl eq_refl)).
  - exact (proj1 (proj2 (proj2 (since_injected_only_when_none_is_set (H := J) (H0 := H)
             {[ "updated_after" := JStr "x" ]} (Some 1700000000000) Examples.eu)))
             1700000000000 eq_refl eq_refl).
  - exact (proj1 (since_injected_only_when_none_is_set (H := J) (H0 := H)
             {[ "page" := JNum (Num 1) ]} None Examples.eu) eq_refl).
Defined.

(** ** Extraction *)

Lemma path_configured (o : option string) (path : string) :
  o = Some path -> path <> "" -> str_truthy o = true /\ default "" o = path.
Proof.
  intros -> Hne. unfold str_truthy. by rewrite bool_decide_eq_false_2.
Qed.

(** C6. With a response path configured, a single match is the extracted
    value by itself, so that a path selecting an array yields the elements
    of that array and a path selecting a scalar or an object yields the
    one-element list of it; any other number of matches yields the list of
    the matches; with no path configured the whole body is the extracted
    value. In every case the result is a list: the extracted value itself
    when it is an array, the one-element list of it otherwise. *)
Theorem extraction_yields_a_list `{JsonPath} (data : json) (cfg : PollingConfig) :
  (forall path m,
      response_path (data_extraction cfg) = Some path -> path <> "" ->
      jsonpath_query data path = Ok [m] ->
      extractData data cfg = Ok (as_list m))
  /\ (forall path ms,
        response_path (data_extraction cfg) = Some path -> path <> "" ->
        jsonpath_query data path = Ok ms -> length ms <> 1%nat ->
        extractData data cfg = Ok ms)
  /\ (str_truthy (response_path (data_extraction cfg)) = false ->
      extractData data cfg = Ok (as_list data))
  /\ (forall path m1 m2,
        response_path (data_extraction cfg) = Some path -> path <> "" ->
        jsonpath_query data path = Ok [JArr [m1; m2]] ->
        extractData data cfg = Ok [m1; m2]).
Proof.
  unfold extractData. split; [|split; [|split]].
  - intros path m Hp Hne Hq.
    destruct (path_configured _ _ Hp Hne) as [-> ->]. rewrite Hq. by destruct m.
  - intros path ms Hp Hne Hq Hlen.
    destruct (path_configured _ _ Hp Hne) as [-> ->]. rewrite Hq.
    by destruct ms as [|m [|m' ms]].
  - intros ->. by destruct data.
  - intros path m1 m2 Hp Hne Hq.
    destruct (path_configured _ _ Hp Hne) as [-> ->]. by rewrite Hq.
Qed.

Lemma extraction_yields_a_list_witness :
  let J := ExampleHost.mini_jsonpath in
  extractData Examples.response Examples.eu
  = Ok [JObj [("id", JNum (Num 1))]; JObj [("id", JNum (Num 2))]].
Proof.
  intros J.
  exact (proj2 (proj2 (proj2 (extraction_yields_a_list (H := J) Examples.response Examples.eu)))
           "$.items" (JObj [("id", JNum (Num 1))]) (JObj [("id", JNum (Num 2))])
           eq_refl ltac:(discriminate) eq_refl).
Defined.

(** ** Cursor pagination *)

(** C7. With cursor pagination, a next-page path and a cursor parameter
    configured: when the path matches nothing, or its first match is
    [null], there is no next page; when its first match is a value other
    than [null] and [undefined], there is a next page, the next-page
    parameters map the cursor parameter to exactly that value, and so do
    the parameters of the next request, whatever they held before. *)
Theorem cursor_pagination_follows_next `{JsonPath} (data : json) (cfg : PollingConfig)
    (pg : Pagination) (path cursor : string) (current : gmap string json) :
  pagination (data_extraction cfg) = Some pg ->
  pg_type pg = Cursor ->
  next_page_path pg = Some path -> path <> "" ->
  cursor_param pg = Some cursor -> cursor <> "" ->
  (jsonpath_query data path = Ok [] -> hasNextPage data cfg = false)
  /\ (forall rest, jsonpath_query data path = Ok (JNull :: rest) ->
        hasNextPage data cfg = false)
  /\ (forall v rest, jsonpath_query data path = Ok (v :: rest) ->
        not_nullish v = true ->
        hasNextPage data cfg = true
        /\ getNextPageParams data cfg current = {[ cursor := v ]}
        /\ (getNextPageParams data cfg current ∪ current) !! cursor = Some v).
Proof.
  intros Hpg Hty Hpath Hne Hcur Hcne.
  destruct (path_configured _ _ Hpath Hne) as [Hpt Hpd].
  destruct (path_configured _ _ Hcur Hcne) as [Hct Hcd].
  unfold hasNextPage, hasNextPage_body, getNextPageParams.
  rewrite Hpg, Hty, Hpt, Hpd, Hct, Hcd. cbn [andb].
  split; [|split].
  - by intros ->.
  - by intros rest ->.
  - intros v rest -> Hv. split; [done|]. split; [done|].
    apply lookup_union_Some_l. apply lookup_singleton_eq.
Qed.

Lemma cursor_pagination_follows_next_witness :
  let J := ExampleHost.mini_jsonpath in
  hasNextPage Examples.last_response Examples.eu = false
  /\ hasNextPage Examples.response Examples.eu = true
  /\ getNextPageParams Examples.response Examples.eu ∅ = {[ "starting_after" := JStr "abc" ]}.
Proof.
  intros J.
  pose proof (fun data =>
    cursor_pagination_follows_next (H := J) data Examples.eu
      {| pg_type := Cursor; limit_param := None; offset_param := None;
         cursor_param := Some "starting_after"; page_param := None;
         per_page_param := None; next_page_path := Some "$.next" |}
      "$.next" "starting_after" ∅ eq_refl eq_refl eq_refl ltac:(discriminate)
      eq_refl ltac:(discriminate)) as Hall.
  split; [|split].
  - exact (proj1 (proj2 (Hall Examples.last_response)) [] eq_refl).
  - exact (proj1 (proj2 (proj2 (Hall Examples.response)) (JStr "abc") [] eq_refl eq_refl)).
  - exact (proj1 (proj2 (proj2 (proj2 (Hall Examples.response)) (JStr "abc") [] eq_refl eq_refl))).
Defined.

(** ** The two-phase Discourse cycle and the generic cycle *)

Section DiscourseFacts.
Import DiscourseClient.
Variable search : Z -> res (option (list DiscourseSearchPost)).

Lemma fetch_group_spec details page (st : list EnrichedPost * list Request)
    (group : Z * list DiscourseSearchPost) :
  fetch_group details page st group
  = (st.1 ++ group_records details page group, st.2 ++ [group_request page group]).
Proof.
  destruct st as [acc sent], group as [topicId posts].
  unfold fetch_group, group_records, group_request. cbn [fst snd].
  destruct (details page topicId (map sp_id posts)) as [[dps|]|e];
    by rewrite ?app_nil_r.
Qed.

Lemma fetch_groups_spec details page (groups : list (Z * list DiscourseSearchPost)) :
  forall st : list EnrichedPost * list Request,
    foldl (fetch_group details page) st groups
    = (st.1 ++ mjoin (map (group_records details page) groups),
       st.2 ++ map (group_request page) groups).
Proof.
  induction groups as [|g groups IH]; intros st.
  - cbn. rewrite !app_nil_r. by destruct st.
  - cbn [foldl map mjoin list_join]. rewrite IH, fetch_group_spec. cbn [fst snd].
    by rewrite <- !app_assoc.
Qed.

(** Which requests are sent, and whether the cycle returns, does not
    depend on what the detail requests answer. *)
Lemma fetch_pages_requests details details' (left : nat) :
  forall page acc acc' sent,
    (fetch_pages search details left page (acc, sent)).2
    = (fetch_pages search details' left page (acc', sent)).2
    /\ returned (fetch_pages search details left page (acc, sent)).1
       = returned (fetch_pages search details' left page (acc', sent)).1.
Proof.
  induction left as [|left IH]; intros page acc acc' sent; [done|].
  cbn [fetch_pages fst snd].
  destruct (search page) as [[[|p ps]|]|e]; try done.
  rewrite !fetch_groups_spec. cbn [fst snd]. apply IH.
Qed.

Lemma fetch_pages_returns details (left : nat) :
  forall page st,
    (forall q e, search q <> Throw e) ->
    exists rs, (fetch_pages search details left page st).1 = Ok rs.
Proof.
  induction left as [|left IH]; intros page st Hs; [by eexists|].
  cbn [fetch_pages].
  destruct (search page) as [[[|p ps]|]|e] eqn:Hp; try by eexists.
  - by apply IH.
  - by destruct (Hs page e).
Qed.

(** What is gathered is kept, and a page that is reached adds the
    records of each of its groups. *)
Lemma fetch_pages_keeps details (left : nat) :
  forall page st rs,
    (fetch_pages search details left page st).1 = Ok rs ->
    forall r, r ∈ st.1 -> r ∈ rs.
Proof.
  induction left as [|left IH]; intros page st rs Hrun r Hr.
  - cbn in Hrun. by injection Hrun as <-.
  - cbn [fetch_pages] in Hrun.
    destruct (search page) as [[[|p ps]|]|e]; cbn [fst] in Hrun;
      try (by injection Hrun as <-); [|done].
    apply (IH _ _ _ Hrun). rewrite fetch_groups_spec. cbn [fst].
    apply elem_of_app. by left.
Qed.

Lemma fetch_pages_includes details (left : nat) :
  forall page st rs (p : Z) posts group,
    (fetch_pages search details left page st).1 = Ok rs ->
    page <= p < page + Z.of_nat left ->
    (forall q, page <= q <= p -> exists ps, search q = Ok (Some ps) /\ ps <> []) ->
    search p = Ok (Some posts) ->
    group ∈ groupPostsByTopic posts ->
    forall r, r ∈ group_records details p group -> r ∈ rs.
Proof.
  induction left as [|left IH]; intros page st rs p posts group Hrun Hp Hne Hs Hg r Hr;
    [lia|].
  cbn [fetch_pages] in Hrun.
  destruct (Hne page ltac:(lia)) as (ps & Hps & Hnil).
  rewrite Hps in Hrun. destruct ps as [|p0 ps]; [done|].
  destruct (decide (p = page)) as [->|Hlater].
  - rewrite Hps in Hs. injection Hs as <-.
    apply (fetch_pages_keeps _ _ _ _ _ Hrun).
    rewrite fetch_groups_spec. cbn [fst].
    apply elem_of_app. right. apply list_elem_of_join.
    exists (group_records details page group). split; [done|].
    by apply (list_elem_of_fmap_2 (group_records details page)).
  - apply (IH _ _ _ p posts group Hrun); try done; [lia|].
    intros q Hq. apply Hne. lia.
Qed.

End DiscourseFacts.

Lemma discourse_poll_returns `{DateHost}
    (search : Z -> Z -> res (option (list DiscourseClient.DiscourseSearchPost)))
    details now cfg (b : Backend HStore) :
  (forall after q e, search after q <> Throw e) ->
  exists r b', DiscoursePollingBehavior.poll search details now cfg b = (Ok r, b').
Proof.
  intros Hs. unfold DiscoursePollingBehavior.poll, bind.
  destruct (getPollingState_total (tenant_id cfg) (source_type cfg) (instance_url cfg) b)
    as (st & b' & ->).
  set (after := default _ _).
  destruct (fetch_pages_returns (search after) details 5 1 ([], []) (Hs after)) as [rs Hrs].
  unfold DiscourseClient.fetchPostsWithDetails.
  destruct (DiscourseClient.fetch_pages (search after) details 5 1 ([], [])) as [r sent].
  cbn [fst] in Hrs. subst r. unfold ret. eauto.
Qed.

(** C9. In the two-phase Discourse cycle the answers of the detail
    requests, failures included, change neither the requests that are sent
    (every remaining group of the page and every later page is still
    requested) nor whether the cycle returns: as long as no search request
    fails, the cycle returns, also through [poll]. A group whose detail
    request fails adds no record, and the records of every group whose
    detail request succeeds, on any page that is reached, are in the
    result. In the generic cycle a failed request on any page ends the
    loop with that error, whatever was gathered before. *)
Theorem detail_failure_is_skipped_page_failure_aborts `{JsonPath} `{DateHost}
    (search : Z -> res (option (list DiscourseClient.DiscourseSearchPost)))
    (details : Z -> Z -> list Z -> res (option (list DiscourseClient.DiscourseDetailedPost)))
    (maxPages : nat) :
  (forall details',
      (DiscourseClient.fetchPostsWithDetails search details maxPages).2
      = (DiscourseClient.fetchPostsWithDetails search details' maxPages).2
      /\ returned (DiscourseClient.fetchPostsWithDetails search details maxPages).1
         = returned (DiscourseClient.fetchPostsWithDetails search details' maxPages).1)
  /\ ((forall q e, search q <> Throw e) ->
      exists rs, (DiscourseClient.fetchPostsWithDetails search details maxPages).1 = Ok rs)
  /\ (forall now cfg (b : Backend HStore),
        (forall q e, search q <> Throw e) ->
        exists r b',
          DiscoursePollingBehavior.poll (fun _ => search) details now cfg b = (Ok r, b'))
  /\ (forall p group e,
        details p group.1 (map DiscourseClient.sp_id group.2) = Throw e ->
        group_records details p group = [])
  /\ (forall rs p posts group,
        (DiscourseClient.fetchPostsWithDetails search details maxPages).1 = Ok rs ->
        1 <= p <= Z.of_nat maxPages ->
        (forall q, 1 <= q <= p -> exists ps, search q = Ok (Some ps) /\ ps <> []) ->
        search p = Ok (Some posts) ->
        group ∈ DiscourseClient.groupPostsByTopic posts ->
        forall r, r ∈ group_records details p group -> r ∈ rs)
  /\ (forall makeRequest cfg (left : nat) pageCount total all params issued e,
        makeRequest (pageCount + 1) params = Throw e ->
        DefaultPollingBehavior.poll_loop makeRequest cfg (S left) true pageCount total all
          params issued = (Throw e, issued ++ [params])).
Proof.
  split; [|split; [|split; [|split; [|split]]]].
  - intros details'. apply fetch_pages_requests.
  - intros Hs. by apply fetch_pages_returns.
  - intros now cfg b Hs. by apply discourse_poll_returns.
  - intros p group e He. unfold group_records. by rewrite He.
  - intros rs p posts group Hrun Hp Hne Hs Hg r Hr.
    apply (fetch_pages_includes search details maxPages 1 ([], []) rs p posts group);
      try done. lia.
  - intros makeRequest cfg left pageCount total all params issued e He.
    cbn [DefaultPollingBehavior.poll_loop]. by rewrite He.
Qed.

Lemma detail_failure_is_skipped_page_failure_aborts_witness :
  let run := DiscourseClient.fetchPostsWithDetails Examples.forum_search
               Examples.forum_details 5 in
  (exists rs, run.1 = Ok rs
     /\ {| DiscourseClient.detailed :=
             {| DiscourseClient.dp_id := 2; DiscourseClient.dp_topic_id := 20;
                DiscourseClient.dp_cooked := "<p>text</p>" |};
           DiscourseClient.topic_title_headline := "Billing" |} ∈ rs
     /\ {| DiscourseClient.detailed :=
             {| DiscourseClient.dp_id := 4; DiscourseClient.dp_topic_id := 30;
                DiscourseClient.dp_cooked := "<p>text</p>" |};
           DiscourseClient.topic_title_headline := "Export" |} ∈ rs)
  /\ run.2 = [DiscourseClient.SearchRequest 1;
              DiscourseClient.DetailRequest 1 10 [1; 3];
              DiscourseClient.DetailRequest 1 20 [2];
              DiscourseClient.SearchRequest 2;
              DiscourseClient.DetailRequest 2 30 [4];
              DiscourseClient.SearchRequest 3].
Proof.
  intros run.
  destruct (detail_failure_is_skipped_page_failure_aborts
              (H := ExampleHost.mini_jsonpath) (H0 := ExampleHost.epoch_date)
              Examples.forum_search Examples.forum_details 5)
    as (_ & Hret & _ & _ & Hin & _).
  split; [|vm_compute; reflexivity].
  destruct Hret as [rs Hrs].
  { intros q e. unfold Examples.forum_search. by repeat case_match. }
  exists rs. split; [exact Hrs|]. split.
  - apply (Hin rs 1 [Examples.post 1 10 "Login"; Examples.post 2 20 "Billing";
                     Examples.post 3 10 "Login"]
             (20, [Examples.post 2 20 "Billing"]) Hrs ltac:(lia)).
    + intros q Hq. assert (q = 1) as -> by lia. by eexists.
    + reflexivity.
    + vm_compute. apply list_elem_of_further, list_elem_of_here.
    + vm_compute. apply list_elem_of_here.
  - apply (Hin rs 2 [Examples.post 4 30 "Export"]
             (30, [Examples.post 4 30 "Export"]) Hrs ltac:(lia)).
    + intros q Hq. assert (q = 1 \/ q = 2) as [-> | ->] by lia; by eexists.
    + reflexivity.
    + vm_compute. apply list_elem_of_here.
    + vm_compute. apply list_elem_of_here.
Defined.

(** ** Job handles and timers *)

(** For a few setters around a world that is a variable. *)
Ltac world_simp :=
  unfold set_job_running, set_polled, set_states, set_limiter, set_timers, set_jobs;
  cbn [jobs serviceRunning timers nextTimer limiter states polled].

Lemma stopPollingJob_jobs jobKey (w : World) :
  jobs (stopPollingJob jobKey w) = delete jobKey (jobs w).
Proof.
  unfold stopPollingJob. destruct (jobs w !! jobKey) eqn:Hj; [done|].
  by rewrite delete_id.
Qed.

Lemma stopPollingJob_frame jobKey (w : World) :
  states (stopPollingJob jobKey w) = states w
  /\ limiter (stopPollingJob jobKey w) = limiter w
  /\ serviceRunning (stopPollingJob jobKey w) = serviceRunning w
  /\ nextTimer (stopPollingJob jobKey w) = nextTimer w.
Proof. unfold stopPollingJob. by destruct (jobs w !! jobKey). Qed.

Lemma stopPollingJob_timers jobKey (w : World) id k :
  timers (stopPollingJob jobKey w) !! id = Some k -> timers w !! id = Some k.
Proof.
  unfold stopPollingJob. destruct (jobs w !! jobKey) as [job|]; [|done].
  world_simp. unfold clearTimeout. destruct (timeoutId job) as [i|]; [|done].
  intros Hl. apply lookup_delete_Some in Hl. by destruct Hl.
Qed.

Lemma stopPollingJob_well_formed jobKey (w : World) :
  well_formed w -> well_formed (stopPollingJob jobKey w).
Proof.
  intros Hwf id k Hid.
  pose proof (stopPollingJob_timers _ _ _ _ Hid) as Hold.
  destruct (Hwf id k Hold) as (Hlt & job & Hj & Ht).
  destruct (stopPollingJob_frame jobKey w) as (_ & _ & _ & ->).
  split; [done|]. exists job. split; [|done].
  rewrite stopPollingJob_jobs.
  destruct (decide (jobKey = k)) as [->|Hne]; [|by rewrite lookup_delete_ne].
  exfalso. revert Hid. unfold stopPollingJob. rewrite Hj. world_simp.
  rewrite Ht. unfold clearTimeout. by rewrite lookup_delete_eq.
Qed.

Lemma scheduleNextPoll_jobs jobKey (w : World) k :
  jobs (scheduleNextPoll jobKey w) !! k = None <-> jobs w !! k = None.
Proof.
  unfold scheduleNextPoll. destruct (jobs w !! jobKey) as [job|] eqn:Hj; [|done].
  destruct (serviceRunning w); [|done]. world_simp.
  destruct (decide (jobKey = k)) as [<-|Hne].
  - rewrite lookup_insert_eq. naive_solver.
  - by rewrite lookup_insert_ne.
Qed.

Lemma scheduleNextPoll_frame jobKey (w : World) :
  states (scheduleNextPoll jobKey w) = states w
  /\ limiter (scheduleNextPoll jobKey w) = limiter w
  /\ polled (scheduleNextPoll jobKey w) = polled w
  /\ serviceRunning (scheduleNextPoll jobKey w) = serviceRunning w.
Proof.
  unfold scheduleNextPoll. destruct (jobs w !! jobKey); [|done].
  destruct (serviceRunning w) eqn:Hrun; [|done]. world_simp. by rewrite Hrun.
Qed.

(** A timer is armed for a key only when no timer of that key is pending. *)
Lemma scheduleNextPoll_well_formed jobKey (w : World) :
  well_formed w ->
  (forall id, timers w !! id <> Some jobKey) ->
  well_formed (scheduleNextPoll jobKey w).
Proof.
  intros Hwf Hquiet. unfold scheduleNextPoll.
  destruct (jobs w !! jobKey) as [job|] eqn:Hj; [|done].
  destruct (serviceRunning w); [|done].
  intros id k. world_simp. intros Hid.
  destruct (decide (nextTimer w = id)) as [<-|Hne].
  - rewrite lookup_insert_eq in Hid. injection Hid as <-.
    split; [lia|]. eexists. by rewrite lookup_insert_eq.
  - rewrite lookup_insert_ne in Hid by done.
    destruct (Hwf id k Hid) as (Hlt & job' & Hj' & Ht).
    split; [lia|]. exists job'. split; [|done].
    rewrite lookup_insert_ne; [done|]. intros <-. by apply (Hquiet id).
Qed.

Lemma startPollingJob_jobs cfg (w : World) k :
  k <> getJobKey cfg -> jobs (startPollingJob cfg w) !! k = None <-> jobs w !! k = None.
Proof.
  intros Hne. unfold startPollingJob. rewrite scheduleNextPoll_jobs. world_simp.
  by rewrite lookup_insert_ne.
Qed.

Lemma startPollingJob_frame cfg (w : World) :
  states (startPollingJob cfg w) = states w
  /\ limiter (startPollingJob cfg w) = limiter w
  /\ polled (startPollingJob cfg w) = polled w
  /\ serviceRunning (startPollingJob cfg w) = serviceRunning w.
Proof.
  unfold startPollingJob.
  destruct (scheduleNextPoll_frame (getJobKey cfg)
              (set_jobs (<[getJobKey cfg := {| config := cfg; timeoutId := None;
                                               isRunning := false |}]> (jobs w)) w))
    as (-> & -> & -> & ->).
  done.
Qed.

Lemma startPollingJob_well_formed cfg (w : World) :
  well_formed w -> jobs w !! getJobKey cfg = None ->
  well_formed (startPollingJob cfg w).
Proof.
  intros Hwf Hnew. unfold startPollingJob.
  assert (Hquiet : forall id, timers w !! id <> Some (getJobKey cfg)).
  { intros id Hid. destruct (Hwf id _ Hid) as (_ & job & Hj & _). by rewrite Hnew in Hj. }
  apply scheduleNextPoll_well_formed; [|done].
  intros id k. world_simp. intros Hid.
  destruct (Hwf id k Hid) as (Hlt & job & Hj & Ht).
  split; [done|]. exists job. split; [|done].
  rewrite lookup_insert_ne; [done|]. intros <-. by apply (Hquiet id).
Qed.

(** ** The shape of a cycle *)

Section CycleShape.
Context `{DateHost}.

Lemma executePoll_shape env jobKey (w : World) :
  exists l st invoked stopped,
    executePoll env jobKey w = (Ok tt, cycled jobKey l st invoked stopped w)
    /\ (invoked = true -> exists job, jobs w !! jobKey = Some job).
Proof.
  destruct (jobs w !! jobKey) as [job|] eqn:Hj.
  2: { exists (limiter w), (states w), false, false. split; [|done].
       rewrite executePoll_absent by done. unfold cycled. by destruct w. }
  destruct (isRunning job) eqn:Hr.
  { exists (limiter w), (states w), false, false. split; [|done].
    rewrite (executePoll_in_flight env jobKey w job) by done.
    unfold cycled. by destruct w. }
  destruct (isAllowed_total (t_minute env) (rateLimitKey (config job) +:+ ":minute") 60
              (requests_per_minute (rate_limiting (config job))) (limiter w))
    as (rm & l1 & Hmin).
  destruct (isAllowed_total (t_hour env) (rateLimitKey (config job) +:+ ":hour") 3600
              (requests_per_hour (rate_limiting (config job))) l1)
    as (rh & l2 & Hhour).
  destruct (rm && rh) eqn:Hboth.
  2: { exists l2, (states w), false, false. split; [|done].
       rewrite (executePoll_rate_limited env jobKey w job rm rh l1 l2) by done.
       unfold cycled. by destruct w. }
  apply andb_prop in Hboth as [-> ->].
  destruct (updateLastPollAttempt_total (t_attempt env) (tenant_id (config job))
              (source_type (config job)) (instance_url (config job)) (states w))
    as (s1 & Hatt).
  destruct (poll_outcome env) as [[]|e] eqn:Hout.
  - destruct (updateSuccessfulPoll_total (t_done env) (tenant_id (config job))
                (source_type (config job)) (instance_url (config job)) s1) as (s2 & Hs).
    exists l2, s2, true, false. split; [|eauto].
    by rewrite (executePoll_success env jobKey w job l1 l2 s1 s2).
  - destruct (updateFailedPoll_total (t_done env) (tenant_id (config job))
                (source_type (config job)) (instance_url (config job)) e
                (max_failures_before_disable (polling_config (config job))) s1)
      as (d & s2 & Hfl).
    exists l2, s2, true, d. split; [|eauto].
    by rewrite (executePoll_failure env jobKey w job l1 l2 s1 s2 e d).
Qed.

Lemma cycled_jobs jobKey l st invoked stopped (w : World) k :
  jobs w !! k = None -> jobs (cycled jobKey l st invoked stopped w) !! k = None.
Proof.
  intros Hk. unfold cycled. destruct stopped; [|done].
  rewrite stopPollingJob_jobs. world_simp.
  destruct (decide (jobKey = k)) as [->|Hne];
    [apply lookup_delete_eq|by rewrite lookup_delete_ne].
Qed.

Lemma cycled_timers jobKey l st invoked stopped (w : World) id k :
  timers (cycled jobKey l st invoked stopped w) !! id = Some k ->
  timers w !! id = Some k.
Proof.
  unfold cycled. destruct stopped; [|done].
  intros Hid. by apply stopPollingJob_timers in Hid.
Qed.

Lemma cycled_frame jobKey l st invoked stopped (w : World) :
  serviceRunning (cycled jobKey l st invoked stopped w) = serviceRunning w
  /\ polled (cycled jobKey l st invoked stopped w)
     = (if invoked then jobKey :: polled w else polled w).
Proof.
  unfold cycled. destruct stopped; [|done].
  rewrite stopPollingJob_polled.
  by destruct (stopPollingJob_frame jobKey
                 (set_polled (if invoked then jobKey :: polled w else polled w)
                    (set_states st (set_limiter l w)))) as (_ & _ & -> & _).
Qed.

Lemma cycled_well_formed jobKey l st invoked stopped (w : World) :
  well_formed w -> well_formed (cycled jobKey l st invoked stopped w).
Proof.
  intros Hwf. unfold cycled.
  assert (Hwf' : well_formed
            (set_polled (if invoked then jobKey :: polled w else polled w)
               (set_states st (set_limiter l w)))) by exact Hwf.
  destruct stopped; [by apply stopPollingJob_well_formed|done].
Qed.

End CycleShape.

(** ** Reconciliation *)

Section ReconcileFacts.
Context `{DateHost}.

Lemma reconcile_config_shape cfg (w : World) :
  exists (disable : bool) st',
    shouldDisablePolling (tenant_id cfg) (source_type cfg) (instance_url cfg)
      (max_failures_before_disable (polling_config cfg)) (states w) = (Ok disable, st')
    /\ reconcile_config cfg w = (Ok tt, reconciled cfg disable (set_states st' w)).
Proof.
  destruct (shouldDisablePolling_total (tenant_id cfg) (source_type cfg) (instance_url cfg)
              (max_failures_before_disable (polling_config cfg)) (states w))
    as (disable & st' & Hsd).
  exists disable, st'. split; [done|].
  unfold reconcile_config, bind, on_states. rewrite Hsd.
  unfold reconciled. cbn [jobs set_states].
  destruct disable.
  - destruct (jobs w !! getJobKey cfg) as [job|] eqn:Hj; [done|].
    unfold ret, stopPollingJob. cbn [jobs set_states]. by rewrite Hj.
  - unfold sync. destruct (jobs w !! getJobKey cfg) as [job|]; [|done].
    by destruct (hasConfigChanged (config job) cfg).
Qed.

Lemma reconciled_disabled cfg (w : World) :
  jobs (reconciled cfg true w) !! getJobKey cfg = None.
Proof. unfold reconciled. rewrite stopPollingJob_jobs. apply lookup_delete_eq. Qed.

Lemma reconciled_other cfg disable (w : World) k :
  k <> getJobKey cfg -> jobs w !! k = None -> jobs (reconciled cfg disable w) !! k = None.
Proof.
  intros Hne Hk. unfold reconciled. destruct disable.
  { rewrite stopPollingJob_jobs. by rewrite lookup_delete_ne. }
  set (w1 := match jobs w !! getJobKey cfg with
             | Some job => if hasConfigChanged (config job) cfg
                           then stopPollingJob (getJobKey cfg) w else w
             | None => w
             end).
  assert (Hk1 : jobs w1 !! k = None).
  { unfold w1. destruct (jobs w !! getJobKey cfg) as [job|]; [|done].
    destruct (hasConfigChanged (config job) cfg); [|done].
    rewrite stopPollingJob_jobs. by rewrite lookup_delete_ne. }
  destruct (jobs w1 !! getJobKey cfg); [done|].
  by apply startPollingJob_jobs.
Qed.

Lemma reconciled_frame cfg disable (w : World) :
  states (reconciled cfg disable w) = states w
  /\ polled (reconciled cfg disable w) = polled w.
Proof.
  unfold reconciled. destruct disable.
  { rewrite stopPollingJob_polled. by destruct (stopPollingJob_frame (getJobKey cfg) w) as [-> _]. }
  set (w1 := match jobs w !! getJobKey cfg with
             | Some job => if hasConfigChanged (config job) cfg
                           then stopPollingJob (getJobKey cfg) w else w
             | None => w
             end).
  assert (Hw1 : states w1 = states w /\ polled w1 = polled w).
  { unfold w1. destruct (jobs w !! getJobKey cfg) as [job|]; [|done].
    destruct (hasConfigChanged (config job) cfg); [|done].
    rewrite stopPollingJob_polled.
    by destruct (stopPollingJob_frame (getJobKey cfg) w) as [-> _]. }
  destruct (jobs w1 !! getJobKey cfg); [done|].
  by destruct (startPollingJob_frame cfg w1) as (-> & _ & -> & _).
Qed.

Lemma reconciled_well_formed cfg disable (w : World) :
  well_formed w -> well_formed (reconciled cfg disable w).
Proof.
  intros Hwf. unfold reconciled. destruct disable.
  { by apply stopPollingJob_well_formed. }
  set (w1 := match jobs w !! getJobKey cfg with
             | Some job => if hasConfigChanged (config job) cfg
                           then stopPollingJob (getJobKey cfg) w else w
             | None => w
             end).
  assert (Hwf1 : well_formed w1).
  { unfold w1. destruct (jobs w !! getJobKey cfg) as [job|]; [|done].
    destruct (hasConfigChanged (config job) cfg); [|done].
    by apply stopPollingJob_well_formed. }
  destruct (jobs w1 !! getJobKey cfg) eqn:Hj; [done|].
  by apply startPollingJob_well_formed.
Qed.

(** The first loop: every configuration of key [k] is found at its
    threshold, so [k] has no handle once one of them was handled. *)
Lemma first_loop k (configs : list PollingConfig) :
  forall w : World,
    faults (states w) = [] ->
    (forall cfg, cfg ∈ configs -> getJobKey cfg = k -> at_threshold (states w) cfg) ->
    exists w',
      for_each configs reconcile_config w = (Ok tt, w')
      /\ states w' = states w
      /\ polled w' = polled w
      /\ (jobs w !! k = None -> jobs w' !! k = None)
      /\ (jobs w' !! k = None \/ forall cfg, cfg ∈ configs -> getJobKey cfg <> k)
      /\ (well_formed w -> well_formed w').
Proof.
  induction configs as [|cfg configs IH]; intros w Hf Hthr.
  - exists w. cbn. split_and!; try done. right. intros cfg Hin. by apply not_elem_of_nil in Hin.
  - cbn [for_each]. unfold bind at 1.
    destruct (reconcile_config_shape cfg w) as (disable & st' & Hsd & ->).
    rewrite shouldDisablePolling_healthy in Hsd by done.
    injection Hsd as Hdis <-.
    assert (Hsame : set_states (states w) w = w) by (by destruct w).
    rewrite Hsame.
    destruct (reconciled_frame cfg disable w) as [Hst Hpol].
    destruct (IH (reconciled cfg disable w)) as (w' & -> & Hst' & Hpol' & Hkeep & Hgone & Hwf).
    { by rewrite Hst. }
    { intros c Hc Hk. rewrite Hst. apply Hthr; [|done]. by apply list_elem_of_further. }
    exists w'. split; [done|]. split; [congruence|]. split; [congruence|].
    assert (Hstep : jobs w !! k = None \/ getJobKey cfg = k ->
                    jobs (reconciled cfg disable w) !! k = None).
    { intros Hcase. destruct (decide (getJobKey cfg = k)) as [Hk|Hk].
      - assert (disable = true) as ->.
        { rewrite <- Hdis. apply (Hthr cfg); [apply list_elem_of_here|done]. }
        rewrite <- Hk. apply reconciled_disabled.
      - destruct Hcase as [Hnone|Hk']; [|done]. by apply reconciled_other. }
    split; [|split].
    + intros Hnone. apply Hkeep, Hstep. by left.
    + destruct Hgone as [Hnone|Hnokey]; [by left|].
      destruct (decide (getJobKey cfg = k)) as [Hk|Hk].
      * left. apply Hkeep, Hstep. by right.
      * right. intros c Hc. apply elem_of_cons in Hc as [->|Hc]; [done|by apply Hnokey].
    + intros Hw. by apply Hwf, reconciled_well_formed.
Qed.

(** The second loop stops the handles whose key is no longer enabled. *)
Lemma second_loop (configs : list PollingConfig) (keys : list string) :
  forall w : World,
    exists w',
      for_each keys
        (fun jobKey => if isStillEnabled configs jobKey then ret tt
                       else sync (stopPollingJob jobKey)) w = (Ok tt, w')
      /\ states w' = states w
      /\ polled w' = polled w
      /\ (forall k, jobs w !! k = None -> jobs w' !! k = None)
      /\ (forall k, k ∈ keys -> isStillEnabled configs k = false -> jobs w' !! k = None)
      /\ (well_formed w -> well_formed w').
Proof.
  induction keys as [|key keys IH]; intros w.
  - exists w. cbn. split_and!; try done. intros k Hk. by apply not_elem_of_nil in Hk.
  - cbn [for_each]. unfold bind at 1.
    destruct (isStillEnabled configs key) eqn:Hen.
    + unfold ret at 1.
      destruct (IH w) as (w' & -> & Hst & Hpol & Hkeep & Hstop & Hwf).
      exists w'. split_and!; try done.
      intros k Hk Hoff. apply elem_of_cons in Hk as [->|Hk]; [congruence|by apply Hstop].
    + unfold sync at 1.
      destruct (IH (stopPollingJob key w)) as (w' & -> & Hst & Hpol & Hkeep & Hstop & Hwf).
      exists w'. split; [done|].
      destruct (stopPollingJob_frame key w) as (Hs & _).
      split; [congruence|]. split; [by rewrite Hpol, stopPollingJob_polled|].
      split; [|split].
      * intros k Hk. apply Hkeep. rewrite stopPollingJob_jobs.
        destruct (decide (key = k)) as [->|Hne];
          [apply lookup_delete_eq|by rewrite lookup_delete_ne].
      * intros k Hk Hoff. apply elem_of_cons in Hk as [->|Hk]; [|by apply Hstop].
        apply Hkeep. rewrite stopPollingJob_jobs. apply lookup_delete_eq.
      * intros Hw. by apply Hwf, stopPollingJob_well_formed.
Qed.

Lemma not_still_enabled (configs : list PollingConfig) k :
  (forall cfg, cfg ∈ configs -> getJobKey cfg <> k) -> isStillEnabled configs k = false.
Proof.
  intros Hno. unfold isStillEnabled. apply not_true_is_false. intros Hex.
  apply existsb_exists in Hex as (cfg & Hin & Hcfg).
  apply andb_prop in Hcfg as [Hkey _]. apply bool_decide_eq_true in Hkey.
  apply (Hno cfg); [by apply list_elem_of_In|done].
Qed.

(** A reconciliation that finds every configuration of key [k] at its
    threshold leaves no handle for [k]. *)
Lemma reconciliation_disables k (configs : list PollingConfig) (w : World) :
  faults (states w) = [] ->
  (forall cfg, cfg ∈ configs -> getJobKey cfg = k -> at_threshold (states w) cfg) ->
  exists w',
    loadPollingConfigurations (Ok configs) w = (Ok tt, w')
    /\ jobs w' !! k = None
    /\ states w' = states w
    /\ polled w' = polled w
    /\ (well_formed w -> well_formed w').
Proof.
  intros Hf Hthr. unfold loadPollingConfigurations, try_catch. unfold bind.
  destruct (first_loop k configs w Hf Hthr)
    as (w1 & -> & Hst1 & Hpol1 & _ & Hgone & Hwf1).
  destruct (second_loop configs (map_to_list (jobs w1)).*1 w1)
    as (w2 & -> & Hst2 & Hpol2 & Hkeep & Hstop & Hwf2).
  exists w2. split; [done|]. split; [|split; [congruence|split; [congruence|auto]]].
  destruct Hgone as [Hnone|Hnokey]; [by apply Hkeep|].
  destruct (jobs w1 !! k) as [job|] eqn:Hj; [|by apply Hkeep].
  apply Hstop; [|by apply not_still_enabled].
  apply list_elem_of_fmap. exists (k, job). split; [done|].
  by apply elem_of_map_to_list.
Qed.

(** A reconciliation never throws: a failed configuration query is
    caught and leaves the service as it is. *)
Lemma reconciliation_total found (w : World) :
  exists w', loadPollingConfigurations found w = (Ok tt, w').
Proof.
  unfold loadPollingConfigurations, try_catch.
  match goal with |- context [match ?m w with _ => _ end] =>
    destruct (m w) as [[[]|e] w'] end; unfold ret; eauto.
Qed.

End ReconcileFacts.

(** ** Steps of the service *)

Section StepFacts.
Context `{DateHost}.

Lemma first_loop_well_formed (configs : list PollingConfig) :
  forall w : World,
    exists w',
      for_each configs reconcile_config w = (Ok tt, w')
      /\ polled w' = polled w
      /\ (well_formed w -> well_formed w').
Proof.
  induction configs as [|cfg configs IH]; intros w.
  - by exists w.
  - cbn [for_each]. unfold bind at 1.
    destruct (reconcile_config_shape cfg w) as (disable & st' & _ & ->).
    destruct (IH (reconciled cfg disable (set_states st' w))) as (w' & -> & Hpol & Hwf).
    exists w'. split; [done|]. split.
    + rewrite Hpol. by destruct (reconciled_frame cfg disable (set_states st' w)) as [_ ->].
    + intros Hw. apply Hwf, reconciled_well_formed. exact Hw.
Qed.

Lemma reconciliation_well_formed found (w : World) :
  well_formed w ->
  well_formed (loadPollingConfigurations found w).2
  /\ polled (loadPollingConfigurations found w).2 = polled w.
Proof.
  intros Hwf. unfold loadPollingConfigurations, try_catch.
  destruct found as [configs|e]; [|done].
  unfold bind.
  destruct (first_loop_well_formed configs w) as (w1 & -> & Hpol1 & Hwf1).
  destruct (second_loop configs (map_to_list (jobs w1)).*1 w1)
    as (w2 & -> & _ & Hpol2 & _ & _ & Hwf2).
  cbn [snd]. split; [auto|congruence].
Qed.

(** With timers and handles in agreement, a key without a handle has no
    pending timer. *)
Lemma no_handle_no_timer (w : World) k :
  well_formed w -> jobs w !! k = None -> forall id, timers w !! id <> Some k.
Proof.
  intros Hwf Hk id Hid. destruct (Hwf id k Hid) as (_ & job & Hj & _). congruence.
Qed.

Lemma timer_fires_well_formed id env (w : World) :
  well_formed w -> well_formed (step w (TimerFires id env)).
Proof.
  intros Hwf. cbn [step]. destruct (timers w !! id) as [jobKey|] eqn:Hid; [|done].
  set (w1 := set_timers (delete id (timers w)) (nextTimer w) w).
  assert (Hwf1 : well_formed w1).
  { intros i k. unfold w1. world_simp. intros Hi.
    apply lookup_delete_Some in Hi as [_ Hi]. by apply Hwf. }
  assert (Hquiet : forall i, timers w1 !! i <> Some jobKey).
  { intros i. unfold w1. world_simp. intros Hi.
    apply lookup_delete_Some in Hi as [Hne Hi].
    destruct (Hwf id jobKey Hid) as (_ & job & Hj & Ht).
    destruct (Hwf i jobKey Hi) as (_ & job' & Hj' & Ht'). congruence. }
  unfold timer_callback. destruct (serviceRunning w1); [|done].
  destruct (executePoll_shape env jobKey w1) as (l & st & inv & stp & -> & _).
  cbn [snd]. apply scheduleNextPoll_well_formed.
  - by apply cycled_well_formed.
  - intros i Hi. apply cycled_timers in Hi. by apply (Hquiet i).
Qed.

Lemma step_well_formed (w : World) e : well_formed w -> well_formed (step w e).
Proof.
  intros Hwf. destruct e as [found|id env|st].
  - by apply reconciliation_well_formed.
  - by apply timer_fires_well_formed.
  - exact Hwf.
Qed.

(** A timer that fires starts no handle, and invokes the behaviour
    only for a key that has one. *)
Lemma timer_fires_absent id env (w : World) k :
  jobs w !! k = None ->
  jobs (step w (TimerFires id env)) !! k = None
  /\ exists new, polled (step w (TimerFires id env)) = new ++ polled w /\ k ∉ new.
Proof.
  intros Hk. cbn [step]. destruct (timers w !! id) as [jobKey|] eqn:Hid.
  2: { split; [done|]. exists []. split; [done|]. apply not_elem_of_nil. }
  set (w1 := set_timers (delete id (timers w)) (nextTimer w) w).
  unfold timer_callback. change (serviceRunning w1) with (serviceRunning w).
  destruct (serviceRunning w).
  2: { split; [done|]. exists []. split; [done|]. apply not_elem_of_nil. }
  destruct (executePoll_shape env jobKey w1) as (l & st & inv & stp & -> & Hinv).
  cbn [snd]. split.
  - apply scheduleNextPoll_jobs. by apply cycled_jobs.
  - destruct (scheduleNextPoll_frame jobKey (cycled jobKey l st inv stp w1))
      as (_ & _ & -> & _).
    destruct (cycled_frame jobKey l st inv stp w1) as [_ ->].
    change (polled w1) with (polled w).
    destruct inv.
    + exists [jobKey]. split; [done|].
      destruct (Hinv eq_refl) as [job Hj]. change (jobs w1) with (jobs w) in Hj.
      apply not_elem_of_cons. split; [congruence|apply not_elem_of_nil].
    + exists []. split; [done|]. apply not_elem_of_nil.
Qed.

(** As long as every reconciliation finds the configurations of [k] at
    their threshold, [k] gets no handle and its behaviour is not
    invoked. *)
Lemma disabled_along_run k (es : list Event) :
  forall w : World,
    well_formed w ->
    jobs w !! k = None ->
    kept_disabled k w es ->
    well_formed (run w es)
    /\ jobs (run w es) !! k = None
    /\ exists new, polled (run w es) = new ++ polled w /\ k ∉ new.
Proof.
  induction es as [|e es IH]; intros w Hwf Hk Hkept.
  - cbn. split; [done|]. split; [done|]. exists []. split; [done|]. apply not_elem_of_nil.
  - cbn [run foldl]. cbn [kept_disabled] in Hkept. destruct Hkept as [Hnow Hrest].
    assert (Hstep : jobs (step w e) !! k = None
                    /\ exists new, polled (step w e) = new ++ polled w /\ k ∉ new).
    { destruct e as [[configs|err]|id env|st].
      - destruct Hnow as [Hf Hthr].
        destruct (reconciliation_disables k configs w Hf Hthr)
          as (w' & Hrun & Hgone & _ & Hpol & _).
        cbn [step]. rewrite Hrun. cbn [snd]. split; [done|].
        exists []. split; [done|]. apply not_elem_of_nil.
      - cbn. split; [done|]. exists []. split; [done|]. apply not_elem_of_nil.
      - by apply timer_fires_absent.
      - cbn. split; [done|]. exists []. split; [done|]. apply not_elem_of_nil. }
    destruct Hstep as (Hk' & new1 & Hpol1 & Hnew1).
    destruct (IH (step w e) (step_well_formed w e Hwf) Hk' Hrest)
      as (Hwf' & Hgone & new2 & Hpol2 & Hnew2).
    fold (run (step w e) es). split; [done|]. split; [done|].
    exists (new2 ++ new1). split.
    + rewrite Hpol2, Hpol1. by rewrite app_assoc.
    + rewrite elem_of_app. tauto.
Qed.

End StepFacts.

(** ** The cycle that reaches the threshold *)

Section BreakerFacts.
Context `{DateHost}.

Lemma updateLastPollAttempt_healthy now tenant source url (b : Backend HStore) :
  faults b = [] ->
  let key := getStateKey tenant source url in
  updateLastPollAttempt now tenant source url b
  = (Ok tt,
     healthy {| hashes := <[key := written [("lastPollAttempt", toISOString now)]
                                      (hash (store b) key)]> (hashes (store b));
                httl := <[key := ttl_seconds]> (httl (store b)) |}).
Proof.
  intros Hf key. unfold updateLastPollAttempt, try_catch, bind.
  rewrite command_healthy by done. unfold hSet. cbn [fst snd].
  rewrite command_healthy by done. done.
Qed.

(** Recording the attempt leaves the failure count that is read. *)
Lemma count_after_attempt (h : gmap string string) (ts : string) :
  consecutiveFailures (read_state (written [("lastPollAttempt", ts)] h))
  = consecutiveFailures (read_state h).
Proof.
  unfold written, read_state. cbn [foldl fst snd].
  rewrite (bool_decide_eq_false_2 (size (<["lastPollAttempt" := ts]> h) = 0%nat)).
  2: { intros Hs. apply map_size_empty_inv in Hs. by apply insert_non_empty in Hs. }
  unfold state_of_hash. cbn [consecutiveFailures].
  rewrite lookup_insert_ne by done.
  case_bool_decide as Hs; [|done].
  apply map_size_empty_inv in Hs. subst h. by rewrite lookup_empty.
Qed.

Lemma failing_cycle_stops_the_job env k (w : World) job e (n : Z) :
  well_formed w ->
  jobs w !! k = Some job -> isRunning job = false ->
  let cfg := config job in
  let key := getStateKey (tenant_id cfg) (source_type cfg) (instance_url cfg) in
  let minute := isAllowed (t_minute env) (rateLimitKey cfg +:+ ":minute") 60
                  (requests_per_minute (rate_limiting cfg)) (limiter w) in
  minute.1 = Ok true ->
  (isAllowed (t_hour env) (rateLimitKey cfg +:+ ":hour") 3600
     (requests_per_hour (rate_limiting cfg)) minute.2).1 = Ok true ->
  poll_outcome env = Throw e ->
  faults (states w) = [] ->
  consecutiveFailures (read_state (hash (store (states w)) key)) = Num n ->
  max_failures_before_disable (polling_config cfg) <= n + 1 ->
  let w' := (executePoll env k w).2 in
  jobs w' !! k = None
  /\ (forall id, timers w' !! id <> Some k)
  /\ scheduleNextPoll k w' = w'
  /\ consecutiveFailures (read_state (hash (store (states w')) key)) = Num (n + 1)
  /\ at_threshold (states w') cfg
  /\ well_formed w'.
Proof.
  intros Hwf Hj Hr cfg key minute Hmin Hhour Hout Hf Hcount Hmax w'.
  destruct minute as [rm l1] eqn:Hm. cbn [fst snd] in Hmin, Hhour. subst rm.
  destruct (isAllowed (t_hour env) (rateLimitKey cfg +:+ ":hour") 3600
              (requests_per_hour (rate_limiting cfg)) l1) as [rh l2] eqn:Hh.
  cbn [fst] in Hhour. subst rh.
  pose proof (updateLastPollAttempt_healthy (t_attempt env) (tenant_id cfg)
                (source_type cfg) (instance_url cfg) (states w) Hf) as Hatt.
  cbn zeta in Hatt. fold key in Hatt.
  set (s1 := healthy _) in Hatt.
  assert (Hcount1 : consecutiveFailures (read_state (hash (store s1) key)) = Num n).
  { unfold s1. cbn [store healthy]. rewrite hash_after_write.
    by rewrite count_after_attempt. }
  pose proof (updateFailedPoll_healthy (t_done env) (tenant_id cfg) (source_type cfg)
                (instance_url cfg) e (max_failures_before_disable (polling_config cfg))
                s1 eq_refl) as Hfail.
  cbn zeta in Hfail. fold key in Hfail. rewrite Hcount1 in Hfail.
  cbn [num_succ num_toString num_geb] in Hfail.
  rewrite (proj2 (Z.leb_le _ _) Hmax) in Hfail.
  set (s2 := healthy _) in Hfail.
  assert (Hw' : w' = stopPollingJob k
                       (set_polled (k :: polled w) (set_states s2 (set_limiter l2 w)))).
  { unfold w'.
    by rewrite (executePoll_failure env k w job l1 l2 s1 s2 e true Hj Hr Hm Hh Hatt Hout Hfail). }
  assert (Hwf' : well_formed w').
  { rewrite Hw'. apply stopPollingJob_well_formed. exact Hwf. }
  assert (Hgone : jobs w' !! k = None).
  { rewrite Hw', stopPollingJob_jobs. apply lookup_delete_eq. }
  assert (Hst : states w' = s2).
  { rewrite Hw'. by destruct (stopPollingJob_frame k
      (set_polled (k :: polled w) (set_states s2 (set_limiter l2 w)))) as [-> _]. }
  assert (Hcount2 : consecutiveFailures (read_state (hash (store s2) key)) = Num (n + 1)).
  { unfold s2. cbn [store healthy]. rewrite hash_after_write.
    apply read_count_written. }
  split; [done|]. split; [by apply no_handle_no_timer|]. split.
  { unfold scheduleNextPoll. by rewrite Hgone. }
  rewrite Hst. split; [done|]. split; [|done].
  unfold at_threshold. fold cfg key. rewrite Hcount2. cbn [num_geb]. by apply Z.leb_le.
Qed.

End BreakerFacts.

(** ** The circuit breaker *)

(** C1. A job key whose persisted failure count has reached the threshold
    of its configuration is neither scheduled nor executed.
    - A reconciliation that reads such a count for every configuration of
      the key leaves no job handle and no pending timer for it, whether or
      not a handle existed before.
    - A cycle whose failure brings the count to the threshold stops the
      handle within that cycle: the handle and its timer are gone and the
      re-arming that follows the cycle does nothing.
    - A timer that fires for a key without a handle does nothing.
    - From then on, whatever reconciliations, timer fires and writes to the
      state store happen, the key has no handle and no timer and its
      behaviour is not invoked, for as long as every reconciliation still
      reads a count at the threshold.
    The state store is taken to answer the reads and writes involved. *)
Theorem disabled_job_is_neither_scheduled_nor_executed `{DateHost} (k : string) :
  (forall configs (w : World),
      well_formed w ->
      faults (states w) = [] ->
      (forall cfg, cfg ∈ configs -> getJobKey cfg = k -> at_threshold (states w) cfg) ->
      let w' := (loadPollingConfigurations (Ok configs) w).2 in
      jobs w' !! k = None
      /\ (forall id, timers w' !! id <> Some k)
      /\ states w' = states w)
  /\ (forall env (w : World) job e (n : Z),
        well_formed w ->
        jobs w !! k = Some job -> isRunning job = false ->
        let cfg := config job in
        let key := getStateKey (tenant_id cfg) (source_type cfg) (instance_url cfg) in
        let minute := isAllowed (t_minute env) (rateLimitKey cfg +:+ ":minute") 60
                        (requests_per_minute (rate_limiting cfg)) (limiter w) in
        minute.1 = Ok true ->
        (isAllowed (t_hour env) (rateLimitKey cfg +:+ ":hour") 3600
           (requests_per_hour (rate_limiting cfg)) minute.2).1 = Ok true ->
        poll_outcome env = Throw e ->
        faults (states w) = [] ->
        consecutiveFailures (read_state (hash (store (states w)) key)) = Num n ->
        max_failures_before_disable (polling_config cfg) <= n + 1 ->
        let w' := (executePoll env k w).2 in
        jobs w' !! k = None
        /\ (forall id, timers w' !! id <> Some k)
        /\ scheduleNextPoll k w' = w'
        /\ consecutiveFailures (read_state (hash (store (states w')) key)) = Num (n + 1)
        /\ at_threshold (states w') cfg)
  /\ (forall env (w : World),
        jobs w !! k = None -> executePoll env k w = (Ok tt, w))
  /\ (forall (w : World) (es : list Event),
        well_formed w ->
        jobs w !! k = None ->
        kept_disabled k w es ->
        jobs (run w es) !! k = None
        /\ (forall id, timers (run w es) !! id <> Some k)
        /\ exists new, polled (run w es) = new ++ polled w /\ k ∉ new).
Proof.
  split; [|split; [|split]].
  - intros configs w Hwf Hf Hthr w'.
    destruct (reconciliation_disables k configs w Hf Hthr)
      as (w1 & Hrun & Hgone & Hst & _ & Hwf1).
    unfold w'. rewrite Hrun. cbn [snd]. split; [done|]. split; [|done].
    apply no_handle_no_timer; auto.
  - intros env w job e n Hwf Hj Hr cfg key minute Hmin Hhour Hout Hf Hcount Hmax w'.
    destruct (failing_cycle_stops_the_job env k w job e n Hwf Hj Hr Hmin Hhour Hout Hf
                Hcount Hmax) as (H1 & H2 & H3 & H4 & H5 & _).
    done.
  - intros env w Hk. by apply executePoll_absent.
  - intros w es Hwf Hk Hkept.
    destruct (disabled_along_run k es w Hwf Hk Hkept) as (Hwf' & Hgone & Hpol).
    split; [done|]. split; [|done]. by apply no_handle_no_timer.
Qed.

Lemma disabled_job_is_neither_scheduled_nor_executed_witness :
  let H := ExampleHost.epoch_date in
  let k := getJobKey Examples.eu in
  let w := run Examples.started Examples.three_failures in
  let w' := run w Examples.still_configured in
  polled w = [k; k; k]
  /\ jobs w !! k = None
  /\ jobs w' !! k = None
  /\ (forall id, timers w' !! id <> Some k)
  /\ (exists new, polled w' = new ++ polled w /\ k ∉ new)
  /\ is_Some (jobs (run w [StateWritten (healthy no_states);
                           Reconciliation (Ok [Examples.eu])]) !! k).
Proof.
  intros H k w w'.
  assert (Hw : w = {| jobs := ∅; serviceRunning := true; timers := ∅; nextTimer := 3%nat;
                      limiter := limiter w; states := states w; polled := [k; k; k] |}).
  { vm_compute. reflexivity. }
  assert (Hwf : well_formed w).
  { rewrite Hw. intros id key Hid. cbn [timers] in Hid. by rewrite lookup_empty in Hid. }
  assert (Hgone : jobs w !! k = None) by (rewrite Hw; apply lookup_empty).
  assert (Hkept : kept_disabled k w Examples.still_configured).
  { cbn [kept_disabled Examples.still_configured].
    assert (Hthr : forall w0 : World,
               states w0 = states w ->
               faults (states w0) = []
               /\ forall cfg, cfg ∈ [Examples.eu] -> getJobKey cfg = k ->
                              at_threshold (states w0) cfg).
    { intros w0 ->. split; [vm_compute; reflexivity|].
      intros cfg Hin _. apply list_elem_of_singleton in Hin. subst cfg.
      vm_compute. reflexivity. }
    split; [by apply Hthr|]. split; [done|]. split; [|done].
    apply Hthr. vm_compute. reflexivity. }
  destruct (disabled_job_is_neither_scheduled_nor_executed (H := H) k)
    as (_ & _ & _ & Halong).
  destruct (Halong w Examples.still_configured Hwf Hgone Hkept) as (Hj' & Ht' & Hp').
  split; [rewrite Hw; reflexivity|]. split; [exact Hgone|]. split; [exact Hj'|].
  split; [exact Ht'|]. split; [exact Hp'|].
  vm_compute. eauto.
Defined.

(** ** Reading the window *)

Lemma getCurrentCount_healthy now key W (b : Backend ZStore) :
  faults b = [] ->
  getCurrentCount now key W b
  = (Ok (Z.of_nat (size (evict now W (zset (store b) key)))),
     healthy {| zsets := <[key := evict now W (zset (store b) key)]> (zsets (store b));
                zttl := zttl (store b) |}).
Proof.
  intros Hf. unfold getCurrentCount, try_catch, bind.
  rewrite command_healthy by done. unfold zRemRangeByScore. cbn [fst snd].
  rewrite command_healthy by done. unfold zCard. cbn [fst snd store healthy].
  rewrite zset_after_write. done.
Qed.

Lemma evict_evict now W (z : gmap string Z) : evict now W (evict now W z) = evict now W z.
Proof.
  unfold evict. apply map_filter_id. intros member score Hm.
  by apply map_lookup_filter_Some in Hm as [_ Hkeep].
Qed.

(** X3. [getCurrentCount] never throws and never answers a negative number.
    When its first command fails it answers 0 and leaves the store alone;
    when the eviction succeeds and the count fails it still answers 0, with
    the eviction done. On a backend that answers it returns the size of the
    window after eviction, leaves exactly that evicted window under the key
    and the expiry as it was, gives the same answer when called again at the
    same time, and [isAllowed] at that time allows exactly when this count
    is below the limit, before as well as after the count was taken. *)
Theorem current_count_is_what_the_limiter_compares now key W (b : Backend ZStore) :
  (exists n b', getCurrentCount now key W b = (Ok n, b') /\ 0 <= n)
  /\ (forall fs, faults b = true :: fs ->
        getCurrentCount now key W b = (Ok 0, {| store := store b; faults := fs |}))
  /\ (forall fs, faults b = false :: true :: fs ->
        exists b', getCurrentCount now key W b = (Ok 0, b')
                   /\ zset (store b') key = evict now W (zset (store b) key))
  /\ (faults b = [] ->
      let counted := getCurrentCount now key W b in
      counted.1 = Ok (Z.of_nat (size (evict now W (zset (store b) key))))
      /\ zset (store counted.2) key = evict now W (zset (store b) key)
      /\ zttl (store counted.2) = zttl (store b)
      /\ getCurrentCount now key W counted.2 = counted
      /\ forall N,
           (isAllowed now key W N b).1
           = Ok (bool_decide (Z.of_nat (size (evict now W (zset (store b) key))) < N))
           /\ (isAllowed now key W N counted.2).1 = (isAllowed now key W N b).1).
Proof.
  split_and!.
  - unfold getCurrentCount, try_catch, bind, ret.
    destruct (command_outcome (zRemRangeByScore key 0 (now - W * 1000)) b)
      as [(fs & Hf & ->)|[_ ->]]; [eexists _, _; split; [done|lia]|].
    match goal with |- context [command ?f ?x] =>
      destruct (command_outcome f x) as [(fs & Hf & ->)|[_ ->]] end.
    + eexists _, _. split; [done|lia].
    + eexists _, _. split; [done|]. unfold zCard. cbn [fst]. lia.
  - intros fs Hf. unfold getCurrentCount, try_catch, bind, ret.
    by rewrite (command_faulty _ b fs).
  - intros fs Hf. unfold getCurrentCount, try_catch, bind, ret.
    unfold command at 1. rewrite Hf. unfold zRemRangeByScore at 1. cbn [fst snd].
    rewrite (command_faulty _ _ fs) by done.
    eexists. split; [done|]. cbn [store]. by rewrite zset_after_write.
  - intros Hf counted. subst counted. rewrite getCurrentCount_healthy by done.
    cbn [fst snd store healthy zttl]. rewrite zset_after_write.
    split_and!; try done.
    + rewrite getCurrentCount_healthy by done. cbn [store healthy zsets zttl].
      by rewrite zset_after_write, evict_evict, insert_insert_eq.
    + intros N. rewrite !isAllowed_healthy, !isAllowed_body_healthy by done.
      cbn zeta. cbn [store healthy]. rewrite zset_after_write, evict_evict.
      destruct (N <=? _) eqn:Hcmp; cbn [fst].
      * apply Z.leb_le in Hcmp. split; [|done]. f_equal. symmetry.
        apply bool_decide_eq_false. lia.
      * apply Z.leb_gt in Hcmp. split; [|done]. f_equal. symmetry.
        by apply bool_decide_eq_true.
Qed.

Lemma current_count_is_what_the_limiter_compares_witness :
  let b := healthy {| zsets := {[ "k" := {[ "1000" := 1000; "50000" := 50000 ]} ]};
                      zttl := ∅ |} in
  (getCurrentCount 61000 "k" 60 b).1 = Ok 1
  /\ zset (store (getCurrentCount 61000 "k" 60 b).2) "k" = {[ "50000" := 50000 ]}
  /\ (isAllowed 61000 "k" 60 1 b).1 = Ok false
  /\ (isAllowed 61000 "k" 60 2 b).1 = Ok true.
Proof.
  set (b := healthy _).
  destruct (current_count_is_what_the_limiter_compares 61000 "k" 60 b)
    as (_ & _ & _ & Hh).
  destruct (Hh eq_refl) as (Hc & Hz & _ & _ & Hall).
  split; [rewrite Hc; vm_compute; reflexivity|].
  split; [rewrite Hz; vm_compute; reflexivity|].
  split; [rewrite (proj1 (Hall 1)); vm_compute; reflexivity|].
  rewrite (proj1 (Hall 2)); vm_compute; reflexivity.
Defined.

(** ** The time until the window resets *)

Lemma zRangeByScore_none key lo hi (d : ZStore) :
  (forall member score, zset d key !! member = Some score -> ~ lo <= score <= hi) ->
  zRangeByScore key lo hi d = ([], d).
Proof.
  intros Hnone. unfold zRangeByScore.
  replace (filter (in_range lo hi) (zset d key)) with (∅ : gmap string Z); [done|].
  symmetry. apply map_empty. intros member. apply map_lookup_filter_None.
  right. intros score Hm Hr. exact (Hnone member score Hm Hr).
Qed.

Lemma zRangeByScore_one key lo hi (d : ZStore) member score :
  zset d key !! member = Some score -> lo <= score <= hi ->
  (forall member' score', zset d key !! member' = Some score' -> lo <= score' <= hi ->
                          member' = member) ->
  zRangeByScore key lo hi d = ([member], d).
Proof.
  intros Hm Hin Honly. unfold zRangeByScore.
  replace (filter (in_range lo hi) (zset d key)) with ({[ member := score ]} : gmap string Z).
  { by rewrite map_to_list_singleton. }
  symmetry. apply map_eq. intros m.
  destruct (decide (m = member)) as [->|Hne].
  - rewrite lookup_singleton_eq. apply map_lookup_filter_Some. done.
  - rewrite lookup_singleton_ne by done. apply map_lookup_filter_None.
    right. intros s Hs Hr. apply Hne. by apply (Honly m s).
Qed.

(** X4. [getTimeUntilReset] never throws, never writes and never answers a
    negative number. Its range query asks for the members scored between 0
    and 0, so it answers 0 whenever no event of the window has score 0, in
    particular for every window whose events were recorded by [isAllowed] at
    positive clock readings, however full that window is. When the window
    holds the event "0" of score 0 and no other of that score, the answer is
    the time from [now] to [windowSizeSeconds] seconds after the epoch, in
    whole seconds rounded up, and 0 after that. *)
Theorem time_until_reset_reads_score_zero now key W (b : Backend ZStore) :
  (exists r, (getTimeUntilReset now key W b).1 = Ok r /\ forall n, r = Num n -> 0 <= n)
  /\ store (getTimeUntilReset now key W b).2 = store b
  /\ ((forall member, zset (store b) key !! member <> Some 0) ->
      (getTimeUntilReset now key W b).1 = Ok (Num 0))
  /\ (forall lo hi, window_within lo hi (zset (store b) key) -> 0 < lo ->
        (getTimeUntilReset now key W b).1 = Ok (Num 0))
  /\ (faults b = [] ->
      zset (store b) key !! "0" = Some 0 ->
      (forall member, zset (store b) key !! member = Some 0 -> member = "0") ->
      (getTimeUntilReset now key W b).1
      = Ok (Num (Z.max 0 (ceil_div (W * 1000 - now) 1000)))).
Proof.
  assert (Hnone : (forall member, zset (store b) key !! member <> Some 0) ->
                  (getTimeUntilReset now key W b).1 = Ok (Num 0)).
  { intros Hz. unfold getTimeUntilReset, try_catch, bind, ret.
    destruct (command_outcome (zRangeByScore key 0 0) b) as [(fs & Hf & ->)|[_ ->]]; [done|].
    rewrite zRangeByScore_none; [done|].
    intros member score Hm Hs. apply (Hz member). rewrite Hm. f_equal. lia. }
  split_and!.
  - unfold getTimeUntilReset, try_catch, bind, ret.
    destruct (command_outcome (zRangeByScore key 0 0) b) as [(fs & Hf & ->)|[_ ->]].
    { eexists. split; [done|]. intros n [= <-]. lia. }
    destruct (zRangeByScore key 0 0 (store b)).1 as [|first rest].
    { eexists. split; [done|]. intros n [= <-]. lia. }
    destruct (parseInt first) as [oldestTimestamp|].
    + eexists. split; [done|]. intros n [= <-]. lia.
    + eexists. split; [done|]. intros n [=].
  - unfold getTimeUntilReset, try_catch, bind, ret.
    destruct (command_outcome (zRangeByScore key 0 0) b) as [(fs & Hf & ->)|[_ ->]]; [done|].
    unfold zRangeByScore at 2. cbn [snd].
    destruct (zRangeByScore key 0 0 (store b)).1 as [|first rest]; [done|].
    by destruct (parseInt first).
  - done.
  - intros lo hi Hwin Hlo. apply Hnone. intros member Hm.
    destruct (Hwin member 0 Hm) as [_ Hs]. lia.
  - intros Hf Hzero Honly. unfold getTimeUntilReset, try_catch, bind, ret.
    rewrite command_healthy by done.
    rewrite (zRangeByScore_one key 0 0 (store b) "0" 0); [|done|lia|].
    + cbn [fst snd]. done.
    + intros member' score' Hm Hs. apply Honly. rewrite Hm. f_equal. lia.
Qed.

Lemma time_until_reset_reads_score_zero_witness :
  let spent := (calls "acme:INTERCOM:api_calls:minute" 60 2 [5000; 5001]
                  (healthy no_windows)).2 in
  (isAllowed 6000 "acme:INTERCOM:api_calls:minute" 60 2 spent).1 = Ok false
  /\ (getTimeUntilReset 6000 "acme:INTERCOM:api_calls:minute" 60 spent).1 = Ok (Num 0)
  /\ (getTimeUntilReset 6000 "acme:INTERCOM:api_calls:minute" 60
        (healthy {| zsets := {[ "acme:INTERCOM:api_calls:minute" := {[ "0" := 0 ]} ]};
                    zttl := ∅ |})).1 = Ok (Num 54).
Proof.
  set (spent := (calls _ _ _ _ _).2).
  split; [vm_compute; reflexivity|]. split.
  - destruct (time_until_reset_reads_score_zero 6000 "acme:INTERCOM:api_calls:minute" 60 spent)
      as (_ & _ & _ & Hwin & _).
    apply (Hwin 5000 5002); [|lia].
    intros member score Hm.
    assert (Hall : map_Forall (fun (m : string) (s : Z) => m = pretty s /\ 5000 <= s < 5002)
                     (zset (store spent) "acme:INTERCOM:api_calls:minute")).
    { apply (bool_decide_unpack _). vm_compute. exact I. }
    exact (Hall member score Hm).
  - set (b := healthy _).
    destruct (time_until_reset_reads_score_zero 6000 "acme:INTERCOM:api_calls:minute" 60 b)
      as (_ & _ & _ & _ & Hzero).
    rewrite Hzero; [vm_compute; reflexivity|reflexivity|vm_compute; reflexivity|].
    intros member Hm.
    assert (Hall : map_Forall (fun (m : string) (s : Z) => m = "0")
                     (zset (store b) "acme:INTERCOM:api_calls:minute")).
    { apply (bool_decide_unpack _). vm_compute. exact I. }
    exact (Hall member 0 Hm).
Defined.

(** ** One key, one window *)

(** X5. Whatever the backend does, [isAllowed] and [getCurrentCount] on one
    key leave the window and the expiry of every other key as they were, and
    [getTimeUntilReset] leaves the whole store as it was. *)
Theorem limiter_calls_touch_one_key now key W N (b : Backend ZStore) (other : string) :
  other <> key ->
  same_window other b (isAllowed now key W N b).2
  /\ same_window other b (getCurrentCount now key W b).2
  /\ store (getTimeUntilReset now key W b).2 = store b.
Proof.
  intros Hne. assert (Hne' : key <> other) by done.
  split_and!.
  - unfold same_window, isAllowed, isAllowed_body, try_catch, bind, ret.
    destruct (command_outcome (pipeline_exec key 0 (now - W * 1000)) b)
      as [(fs & Hf & ->)|[_ ->]]; [done|].
    unfold pipeline_exec, zRemRangeByScore, zCard. cbn [fst snd].
    destruct (N <=? _).
    { cbn [fst snd store zttl]. split; [|done]. unfold zset. cbn [zsets].
      by rewrite lookup_insert_ne. }
    repeat match goal with |- context [command ?f ?x] =>
      destruct (command_outcome f x) as [(? & ? & ->)|[_ ->]]; cbn [fst snd]
    end;
      unfold zAdd, RateLimiter.expire; cbn [fst snd store zsets zttl];
      unfold zset; cbn [zsets]; rewrite ?lookup_insert_ne by done; done.
  - unfold same_window, getCurrentCount, try_catch, bind, ret.
    repeat match goal with |- context [command ?f ?x] =>
      destruct (command_outcome f x) as [(? & ? & ->)|[_ ->]]; cbn [fst snd]
    end;
      unfold zRemRangeByScore, zCard; cbn [fst snd store zsets zttl];
      unfold zset; cbn [zsets]; rewrite ?lookup_insert_ne by done; done.
  - unfold getTimeUntilReset, try_catch, bind, ret.
    destruct (command_outcome (zRangeByScore key 0 0) b) as [(fs & Hf & ->)|[_ ->]]; [done|].
    unfold zRangeByScore at 2. cbn [snd].
    destruct (zRangeByScore key 0 0 (store b)).1 as [|first rest]; [done|].
    by destruct (parseInt first).
Qed.

Lemma limiter_calls_touch_one_key_witness :
  let spent := (calls "acme:INTERCOM:api_calls:minute" 60 2 [5000; 5001]
                  (healthy no_windows)).2 in
  let later := (isAllowed 6000 "acme:INTERCOM:api_calls:hour" 3600 1000 spent).2 in
  zset (store later) "acme:INTERCOM:api_calls:minute"
  = {[ "5000" := 5000; "5001" := 5001 ]}.
Proof.
  intros spent later.
  destruct (limiter_calls_touch_one_key 6000 "acme:INTERCOM:api_calls:hour" 3600 1000 spent
              "acme:INTERCOM:api_calls:minute") as ([Hz _] & _); [done|].
  etrans; [exact Hz|]. vm_compute. reflexivity.
Defined.

(** ** Resetting the failure record *)

Section ResetFacts.
Context `{DateHost}.

Lemma resetFailureCount_healthy tenant source url (b : Backend HStore) :
  faults b = [] ->
  let key := getStateKey tenant source url in
  resetFailureCount tenant source url b
  = (Ok tt,
     healthy {| hashes :=
                  <[key := delete "lastErrorTimestamp"
                             (delete "lastError"
                                (written [("consecutiveFailures", "0")]
                                   (hash (store b) key)))]> (hashes (store b));
                httl := <[key := ttl_seconds]> (httl (store b)) |}).
Proof.
  intros Hf key. unfold resetFailureCount, try_catch, bind.
  rewrite command_healthy by done. unfold hSet. cbn [fst snd].
  rewrite command_healthy by done. unfold hDel. cbn [fst snd store healthy].
  rewrite command_healthy by done. unfold PollingStateService.expire.
  cbn [fst snd store healthy hashes httl].
  rewrite hash_after_write, insert_insert_eq. done.
Qed.

Lemma read_state_dates (h : gmap string string) :
  lastSuccessfulPoll (read_state h) = date_field h "lastSuccessfulPoll"
  /\ lastPollAttempt (read_state h) = date_field h "lastPollAttempt".
Proof.
  unfold read_state. case_bool_decide as Hh; [|done].
  apply map_size_empty_iff in Hh. subst h. unfold date_field.
  by rewrite !lookup_empty.
Qed.

(** X6. On a backend that answers, [resetFailureCount] writes the count 0,
    deletes the stored error and its timestamp, keeps the stored last
    success and last attempt, and sets the expiry of 30 days; the state read
    back has these values, and [shouldDisablePolling] then answers [false]
    for every positive threshold. *)
Theorem reset_clears_the_failure_record tenant source url (b : Backend HStore) :
  faults b = [] ->
  let key := getStateKey tenant source url in
  let before := read_state (hash (store b) key) in
  let reset := (resetFailureCount tenant source url b).2 in
  (resetFailureCount tenant source url b).1 = Ok tt
  /\ hash (store reset) key !! "consecutiveFailures" = Some "0"
  /\ hash (store reset) key !! "lastError" = None
  /\ hash (store reset) key !! "lastErrorTimestamp" = None
  /\ hash (store reset) key !! "lastSuccessfulPoll" = hash (store b) key !! "lastSuccessfulPoll"
  /\ hash (store reset) key !! "lastPollAttempt" = hash (store b) key !! "lastPollAttempt"
  /\ httl (store reset) !! key = Some ttl_seconds
  /\ (exists st, (getPollingState tenant source url reset).1 = Ok st
                 /\ consecutiveFailures st = Num 0
                 /\ lastError st = None
                 /\ lastErrorTimestamp st = None
                 /\ lastSuccessfulPoll st = lastSuccessfulPoll before
                 /\ lastPollAttempt st = lastPollAttempt before)
  /\ (forall maxFailures, 0 < maxFailures ->
        (shouldDisablePolling tenant source url maxFailures reset).1 = Ok false).
Proof.
  intros Hf key before reset. subst reset before.
  rewrite resetFailureCount_healthy by done. fold key.
  cbn [fst snd store healthy httl]. rewrite hash_after_write.
  set (h := hash (store b) key).
  set (h' := delete "lastErrorTimestamp" (delete "lastError" (written _ h))).
  assert (Hc : h' !! "consecutiveFailures" = Some "0").
  { unfold h', written. cbn [foldl fst snd].
    rewrite !lookup_delete_ne by done. by rewrite lookup_insert_eq. }
  assert (He : h' !! "lastError" = None).
  { unfold h'. rewrite lookup_delete_ne by done. by rewrite lookup_delete_eq. }
  assert (Ht : h' !! "lastErrorTimestamp" = None).
  { unfold h'. by rewrite lookup_delete_eq. }
  assert (Hs : h' !! "lastSuccessfulPoll" = h !! "lastSuccessfulPoll").
  { unfold h', written. cbn [foldl fst snd].
    rewrite !lookup_delete_ne by done. by rewrite lookup_insert_ne. }
  assert (Ha : h' !! "lastPollAttempt" = h !! "lastPollAttempt").
  { unfold h', written. cbn [foldl fst snd].
    rewrite !lookup_delete_ne by done. by rewrite lookup_insert_ne. }
  assert (Hsize : size h' <> 0%nat).
  { intros Hz. apply map_size_empty_iff in Hz. rewrite Hz in Hc. by rewrite lookup_empty in Hc. }
  assert (Hst : read_state h' =
                {| lastSuccessfulPoll := lastSuccessfulPoll (read_state h);
                   lastPollAttempt := lastPollAttempt (read_state h);
                   consecutiveFailures := Num 0; lastError := None;
                   lastErrorTimestamp := None |}).
  { destruct (read_state_dates h) as [-> ->].
    unfold read_state. rewrite bool_decide_eq_false_2 by done.
    unfold state_of_hash, date_field. by rewrite Hc, He, Ht, Hs, Ha. }
  split_and!; try done.
  - by rewrite lookup_insert_eq.
  - rewrite getPollingState_healthy by done. cbn [fst store healthy].
    rewrite hash_after_write. fold h'. rewrite Hst. eexists. split; [done|]. done.
  - intros maxFailures Hmax. rewrite shouldDisablePolling_healthy by done.
    cbn [fst store healthy]. rewrite hash_after_write. fold h'. rewrite Hst.
    cbn [consecutiveFailures num_geb]. f_equal. apply Z.leb_gt. lia.
Qed.

End ResetFacts.

Lemma reset_clears_the_failure_record_witness :
  let H := ExampleHost.epoch_date in
  let failed := (failures "acme" "DISCOURSE" "https://forum.acme.io" 3
                   [(1000, "timeout"); (2000, "HTTP 500"); (3000, "HTTP 502")]
                   (healthy no_states)).2 in
  let reset := (resetFailureCount "acme" "DISCOURSE" "https://forum.acme.io" failed).2 in
  (shouldDisablePolling "acme" "DISCOURSE" "https://forum.acme.io" 3 failed).1 = Ok true
  /\ (shouldDisablePolling "acme" "DISCOURSE" "https://forum.acme.io" 3 reset).1 = Ok false
  /\ hash (store reset) (getStateKey "acme" "DISCOURSE" "https://forum.acme.io")
     !! "lastError" = None.
Proof.
  intros H failed reset.
  split; [vm_compute; reflexivity|].
  destruct (reset_clears_the_failure_record (H := H) "acme" "DISCOURSE"
              "https://forum.acme.io" failed)
    as (_ & _ & He & _ & _ & _ & _ & _ & Hd); [vm_compute; reflexivity|].
  split; [apply Hd; lia|exact He].
Defined.

(** ** The polling state while Redis fails *)

Lemma command_answers {D A : Type} (f : D -> A * D) (b : Backend D) fs :
  faults b = false :: fs ->
  command f b = (Ok (f (store b)).1, {| store := (f (store b)).2; faults := fs |}).
Proof. intros Hf. unfold command. rewrite Hf. by destruct (f (store b)). Qed.

Section OutageFacts.
Context `{DateHost}.

Lemma getPollingState_answers tenant source url (b : Backend HStore) fs :
  faults b = false :: fs ->
  getPollingState tenant source url b
  = (Ok (read_state (hash (store b) (getStateKey tenant source url))),
     {| store := store b; faults := fs |}).
Proof.
  intros Hf. unfold getPollingState, try_catch, bind.
  rewrite (command_answers _ b fs) by done. unfold hGetAll, read_state. cbn [fst snd].
  by case_bool_decide.
Qed.

Lemma resetFailureCount_total tenant source url (b : Backend HStore) :
  exists b', resetFailureCount tenant source url b = (Ok tt, b').
Proof.
  unfold resetFailureCount, try_catch, bind, ret.
  repeat match goal with |- context [command ?f ?x] =>
    destruct (command_outcome f x) as [(? & ? & ->)|[_ ->]]; cbn [fst snd]
  end; eauto.
Qed.

Lemma getPollingState_faulty tenant source url
    (b : Backend HStore) fs :
  faults b = true :: fs ->
  getPollingState tenant source url b
  = (Ok default_state, {| store := store b; faults := fs |}).
Proof.
  intros Hf. unfold getPollingState, try_catch, bind. by rewrite (command_faulty _ b fs).
Qed.

(** X7. When the read of the hash fails, [getPollingState] answers the
    default state, so [shouldDisablePolling] answers [false] for every
    positive threshold whatever count is stored; and [updateFailedPoll],
    when only its read fails, stores the count 1 in place of the stored
    count and answers [true] only for a threshold of at most 1. *)
Theorem failed_state_read_counts_as_no_failures tenant source url
    (b : Backend HStore) fs :
  faults b = true :: fs ->
  let after := {| store := store b; faults := fs |} in
  getPollingState tenant source url b = (Ok default_state, after)
  /\ (forall maxFailures,
        shouldDisablePolling tenant source url maxFailures b
        = (Ok (maxFailures <=? 0), after))
  /\ (fs = [] ->
      forall now error maxFailures,
        let failed := updateFailedPoll now tenant source url error maxFailures b in
        failed.1 = Ok (maxFailures <=? 1)
        /\ hash (store failed.2) (getStateKey tenant source url) !! "consecutiveFailures"
           = Some "1").
Proof.
  intros Hf after.
  assert (Hget : getPollingState tenant source url b = (Ok default_state, after))
    by (by apply getPollingState_faulty).
  split_and!; [done| |].
  - intros maxFailures. unfold shouldDisablePolling, try_catch, bind. by rewrite Hget.
  - intros -> now error maxFailures failed. subst failed.
    unfold updateFailedPoll, try_catch, bind. rewrite Hget.
    cbn [consecutiveFailures default_state num_succ num_geb num_toString].
    rewrite command_healthy by done. unfold hSet. cbn [fst snd].
    rewrite command_healthy by done. unfold PollingStateService.expire.
    unfold ret. cbn [fst snd store healthy hashes httl].
    split; [done|]. rewrite hash_after_write. cbn [foldl fst snd].
    rewrite !lookup_insert_ne by done. by rewrite lookup_insert_eq.
Qed.

(** X8. None of [updateLastPollAttempt], [updateSuccessfulPoll],
    [updateFailedPoll] and [resetFailureCount] ever throws. When the write
    of [updateFailedPoll] fails, the store is left as it was and the call
    answers [false], whatever the threshold; when the write succeeds and
    setting the expiry fails, the new count is stored and the call still
    answers [false]. When the deletion of [updateSuccessfulPoll] fails, the
    count is already 0 while the stored error and the expiry stay as they
    were. *)
Theorem state_writes_are_best_effort now tenant source url error maxFailures
    (b : Backend HStore) :
  let key := getStateKey tenant source url in
  (exists b', updateLastPollAttempt now tenant source url b = (Ok tt, b'))
  /\ (exists b', updateSuccessfulPoll now tenant source url b = (Ok tt, b'))
  /\ (exists r b', updateFailedPoll now tenant source url error maxFailures b = (Ok r, b'))
  /\ (exists b', resetFailureCount tenant source url b = (Ok tt, b'))
  /\ (forall fs, faults b = false :: true :: fs ->
        updateFailedPoll now tenant source url error maxFailures b
        = (Ok false, {| store := store b; faults := fs |}))
  /\ (forall fs, faults b = false :: false :: true :: fs ->
        let failed := updateFailedPoll now tenant source url error maxFailures b in
        failed.1 = Ok false
        /\ hash (store failed.2) key !! "consecutiveFailures"
           = Some (num_toString
                     (num_succ (consecutiveFailures (read_state (hash (store b) key))))))
  /\ (forall fs, faults b = false :: true :: fs ->
        let done := (updateSuccessfulPoll now tenant source url b).2 in
        hash (store done) key !! "consecutiveFailures" = Some "0"
        /\ hash (store done) key !! "lastError" = hash (store b) key !! "lastError"
        /\ httl (store done) = httl (store b)).
Proof.
  intros key. split_and!.
  - apply updateLastPollAttempt_total.
  - apply updateSuccessfulPoll_total.
  - apply updateFailedPoll_total.
  - apply resetFailureCount_total.
  - intros fs Hf. unfold updateFailedPoll, try_catch, bind.
    rewrite (getPollingState_answers _ _ _ b (true :: fs)) by done.
    by rewrite (command_faulty _ _ fs).
  - intros fs Hf failed. subst failed. unfold updateFailedPoll, try_catch, bind.
    rewrite (getPollingState_answers _ _ _ b (false :: true :: fs)) by done.
    rewrite (command_answers _ _ (true :: fs)) by done. unfold hSet. cbn [fst snd store].
    rewrite (command_faulty _ _ fs) by done. cbn [fst snd store ret].
    split; [done|]. rewrite hash_after_write. cbn [foldl fst snd]. fold key.
    rewrite !lookup_insert_ne by done. by rewrite lookup_insert_eq.
  - intros fs Hf done. subst done. unfold updateSuccessfulPoll, try_catch, bind.
    rewrite (command_answers _ b (true :: fs)) by done. unfold hSet. cbn [fst snd].
    rewrite (command_faulty _ _ fs) by done. cbn [fst snd store ret httl].
    rewrite hash_after_write. cbn [foldl fst snd]. fold key.
    split_and!; [|by rewrite !lookup_insert_ne|done].
    by rewrite lookup_insert_eq.
Qed.

End OutageFacts.

Lemma failed_state_read_counts_as_no_failures_witness :
  let H := ExampleHost.epoch_date in
  let failed := (failures "acme" "DISCOURSE" "https://forum.acme.io" 3
                   [(1000, "timeout"); (2000, "HTTP 500"); (3000, "HTTP 502")]
                   (healthy no_states)).2 in
  let down : Backend HStore := {| store := store failed; faults := [true] |} in
  (shouldDisablePolling "acme" "DISCOURSE" "https://forum.acme.io" 3 failed).1 = Ok true
  /\ (shouldDisablePolling "acme" "DISCOURSE" "https://forum.acme.io" 3 down).1 = Ok false
  /\ hash (store (updateFailedPoll 4000 "acme" "DISCOURSE" "https://forum.acme.io"
                    "HTTP 503" 3 down).2)
          (getStateKey "acme" "DISCOURSE" "https://forum.acme.io")
     !! "consecutiveFailures" = Some "1".
Proof.
  intros H failed down.
  split; [vm_compute; reflexivity|].
  destruct (failed_state_read_counts_as_no_failures (H := H) "acme" "DISCOURSE"
              "https://forum.acme.io" down [] eq_refl) as (_ & Hd & Hu).
  split; [by rewrite Hd|].
  exact (proj2 (Hu eq_refl 4000 "HTTP 503" 3)).
Defined.

Lemma state_writes_are_best_effort_witness :
  let H := ExampleHost.epoch_date in
  let failed := (failures "acme" "DISCOURSE" "https://forum.acme.io" 3
                   [(1000, "timeout"); (2000, "HTTP 500")] (healthy no_states)).2 in
  let flaky : Backend HStore := {| store := store failed; faults := [false; true] |} in
  updateFailedPoll 3000 "acme" "DISCOURSE" "https://forum.acme.io" "HTTP 502" 3 flaky
  = (Ok false, {| store := store failed; faults := [] |})
  /\ (updateFailedPoll 3000 "acme" "DISCOURSE" "https://forum.acme.io" "HTTP 502" 3
        failed).1 = Ok true.
Proof.
  intros H failed flaky. split; [|vm_compute; reflexivity].
  destruct (state_writes_are_best_effort (H := H) 3000 "acme" "DISCOURSE"
              "https://forum.acme.io" "HTTP 502" 3 flaky) as (_ & _ & _ & _ & Hw & _).
  exact (Hw [] eq_refl).
Defined.

(** ** One source, one hash *)

Section FrameFacts.
Context `{DateHost}.

Ltac frame_cases :=
  repeat match goal with |- context [command ?f ?x] =>
    destruct (command_outcome f x) as [(? & ? & ->)|[_ ->]]; cbn [fst snd]
  end.

Ltac frame_solve :=
  unfold ret, hSet, hDel, hGetAll, PollingStateService.expire;
  cbn [fst snd store hashes httl]; unfold hash; cbn [hashes httl];
  rewrite ?lookup_insert_ne by done; done.

Lemma getPollingState_frame tenant source url (b : Backend HStore) other :
  untouched other b (getPollingState tenant source url b).2.
Proof.
  unfold untouched, getPollingState, try_catch, bind. frame_cases.
  - frame_solve.
  - case_bool_decide; frame_solve.
Qed.

(** X9. Whatever the backend does, the reads and updates of the polling
    state of one source leave the hash and the expiry stored under every
    other key as they were. *)
Theorem state_updates_touch_one_key now tenant source url error maxFailures
    (b : Backend HStore) (other : string) :
  other <> getStateKey tenant source url ->
  untouched other b (getPollingState tenant source url b).2
  /\ untouched other b (shouldDisablePolling tenant source url maxFailures b).2
  /\ untouched other b (updateLastPollAttempt now tenant source url b).2
  /\ untouched other b (updateSuccessfulPoll now tenant source url b).2
  /\ untouched other b (updateFailedPoll now tenant source url error maxFailures b).2
  /\ untouched other b (resetFailureCount tenant source url b).2.
Proof.
  intros Hne.
  assert (Hne' : getStateKey tenant source url <> other) by done.
  split_and!.
  - apply getPollingState_frame.
  - unfold shouldDisablePolling, try_catch, bind.
    pose proof (getPollingState_frame tenant source url b other) as Hg.
    destruct (getPollingState_total tenant source url b) as (st & b' & Hb).
    rewrite Hb in *. done.
  - unfold untouched, updateLastPollAttempt, try_catch, bind. frame_cases; frame_solve.
  - unfold untouched, updateSuccessfulPoll, try_catch, bind. frame_cases; frame_solve.
  - unfold updateFailedPoll, try_catch, bind.
    pose proof (getPollingState_frame tenant source url b other) as [Hg1 Hg2].
    destruct (getPollingState_total tenant source url b) as (st & b' & Hb).
    rewrite Hb in *. cbn [snd] in Hg1, Hg2. unfold untouched. rewrite <- Hg1, <- Hg2.
    frame_cases; frame_solve.
  - unfold untouched, resetFailureCount, try_catch, bind. frame_cases; frame_solve.
Qed.

End FrameFacts.

Lemma state_updates_touch_one_key_witness :
  let H := ExampleHost.epoch_date in
  let other := getStateKey "globex" "DISCOURSE" "https://forum.acme.io" in
  let failed := (failures "globex" "DISCOURSE" "https://forum.acme.io" 3
                   [(1000, "timeout"); (2000, "HTTP 500")] (healthy no_states)).2 in
  let later := (updateFailedPoll 3000 "acme" "DISCOURSE" "https://forum.acme.io"
                  "HTTP 502" 3 failed).2 in
  hash (store later) other = hash (store failed) other
  /\ hash (store later) other !! "consecutiveFailures" = Some "2".
Proof.
  intros H other failed later.
  destruct (state_updates_touch_one_key (H := H) 3000 "acme" "DISCOURSE"
              "https://forum.acme.io" "HTTP 502" 3 failed other)
    as (_ & _ & _ & _ & [Hh _] & _); [vm_compute; discriminate|].
  split; [exact Hh|]. fold later in Hh. rewrite Hh. vm_compute. reflexivity.
Defined.

(** ** What the state key keeps of the instance URL *)

Lemma instance_hash_prefix (url : string) :
  slice0 8 (Base64.encode url) = slice0 8 (Base64.encode (String.substring 0 6 url)).
Proof.
  destruct url as [|c1 [|c2 [|c3 [|c4 [|c5 [|c6 rest]]]]]]; try reflexivity.
  unfold Base64.encode. cbn [String.substring String.list_ascii_of_string map].
  assert (Hnone : forall s, String.substring 0 0 s = "") by (by intros []).
  unfold slice0. cbn [Base64.encode_bytes String.substring]. by rewrite !Hnone.
Qed.

(** X10. The state key keeps of the instance URL only what its first six
    bytes determine: two URLs that agree on their first six bytes have the
    same state key for a given tenant and source type. *)
Theorem state_key_reads_six_bytes (tenant source url1 url2 : string) :
  String.substring 0 6 url1 = String.substring 0 6 url2 ->
  getStateKey tenant source url1 = getStateKey tenant source url2.
Proof.
  intros Hp. unfold getStateKey.
  by rewrite (instance_hash_prefix url1), (instance_hash_prefix url2), Hp.
Qed.

Lemma state_key_reads_six_bytes_witness :
  getStateKey "acme" "INTERCOM" "https://eu.acme.io"
  = getStateKey "acme" "INTERCOM" "https://us.acme.io"
  /\ getStateKey "acme" "INTERCOM" "https://eu.acme.io"
     <> getStateKey "acme" "INTERCOM" "http://eu.acme.io".
Proof.
  split; [by apply state_key_reads_six_bytes|].
  vm_compute. discriminate.
Defined.

(** ** The generic cycle *)

Section GenericFacts.
Context `{JsonPath} `{DateHost}.
Variable makeRequest : Z -> gmap string json -> res json.
Variable cfg : PollingConfig.

Lemma poll_loop_run (left : nat) :
  forall hasMore pageCount total all params issued,
  exists more,
    (DefaultPollingBehavior.poll_loop makeRequest cfg left hasMore pageCount total all
       params issued).2 = issued ++ more
    /\ (length more <= left)%nat
    /\ (hasMore = false -> more = [])
    /\ forall r,
         (DefaultPollingBehavior.poll_loop makeRequest cfg left hasMore pageCount total all
            params issued).1 = Ok r ->
         pagesProcessed r = pageCount + Z.of_nat (length more)
         /\ records r = all ++ pages_records makeRequest cfg pageCount more
         /\ totalRecords r
            = total + Z.of_nat (length (pages_records makeRequest cfg pageCount more))
         /\ (hasMoreData r = true -> length more = left).
Proof.
  induction left as [|left IH]; intros hasMore pageCount total all params issued.
  - exists []. cbn [DefaultPollingBehavior.poll_loop fst snd].
    rewrite app_nil_r. split_and!; [done|cbn; lia|done|].
    intros r [= <-]. cbn. rewrite app_nil_r. split_and!; try done; lia.
  - cbn [DefaultPollingBehavior.poll_loop]. destruct hasMore.
    2:{ exists []. cbn [fst snd]. rewrite app_nil_r. split_and!; [done|cbn; lia|done|].
        intros r [= <-]. cbn. rewrite app_nil_r. split_and!; try done; lia. }
    destruct (makeRequest (pageCount + 1) params) as [response|e] eqn:Hreq.
    2:{ exists [params]. cbn [fst snd]. split_and!; [done|cbn; lia|done|done]. }
    destruct (extractData response cfg) as [extractedData|e] eqn:Hext.
    2:{ exists [params]. cbn [fst snd]. split_and!; [done|cbn; lia|done|done]. }
    cbn zeta.
    match goal with |- context [DefaultPollingBehavior.poll_loop _ _ left ?h ?p ?t ?a ?ps ?i] =>
      destruct (IH h p t a ps i) as (more & Hmore & Hlen & Hstop & Hres) end.
    exists (params :: more). rewrite Hmore. rewrite <- app_assoc. cbn [app].
    split_and!; [done|cbn; lia|done|].
    intros r Hr. destruct (Hres r Hr) as (Hp & Hrec & Htot & Hcap).
    cbn [pages_records length]. unfold page_records at 1 2. rewrite Hreq, Hext.
    split_and!.
    + lia.
    + rewrite Hrec. destruct (0 <? _) eqn:Hn; [by rewrite <- app_assoc|].
      apply Z.ltb_ge in Hn. destruct extractedData; [done|cbn in Hn; lia].
    + rewrite Htot, length_app. destruct (0 <? _) eqn:Hn; [lia|].
      apply Z.ltb_ge in Hn. lia.
    + intros Hm. f_equal. by apply Hcap.
Qed.

Lemma poll_loop_unpaginated (left : nat) pageCount total all params issued :
  pagination (data_extraction cfg) = None ->
  (DefaultPollingBehavior.poll_loop makeRequest cfg (S left) true pageCount total all
     params issued).2 = issued ++ [params].
Proof.
  intros Hnone. cbn [DefaultPollingBehavior.poll_loop].
  destruct (makeRequest (pageCount + 1) params) as [response|e]; [|done].
  destruct (extractData response cfg) as [extractedData|e]; [|done].
  cbn zeta. replace (hasNextPage response cfg) with false
    by (unfold hasNextPage; by rewrite Hnone).
  match goal with |- context [DefaultPollingBehavior.poll_loop _ _ left false ?p ?t ?a ?ps ?i] =>
    destruct (poll_loop_run left false p t a ps i) as (more & -> & _ & Hstop & _) end.
  by rewrite (Hstop eq_refl), app_nil_r.
Qed.

(** X11. A generic cycle sends at least one and at most 10 requests, the
    first with the parameters it starts from, and exactly one when no
    pagination is configured. When it returns, [pagesProcessed] is the
    number of requests sent, [records] is the concatenation, in page order,
    of what was extracted from each answer, [totalRecords] is its length,
    and [hasMoreData] is [true] only after 10 requests. *)
Theorem generic_cycle_is_capped (params : gmap string json) :
  let run := DefaultPollingBehavior.poll_loop makeRequest cfg 10 true 0 0 [] params [] in
  (1 <= length run.2 <= 10)%nat
  /\ head run.2 = Some params
  /\ (pagination (data_extraction cfg) = None -> run.2 = [params])
  /\ forall r, run.1 = Ok r ->
       pagesProcessed r = Z.of_nat (length run.2)
       /\ records r = pages_records makeRequest cfg 0 run.2
       /\ totalRecords r = Z.of_nat (length (records r))
       /\ (hasMoreData r = true -> length run.2 = 10%nat).
Proof.
  intros run. subst run.
  assert (Hone : pagination (data_extraction cfg) = None ->
                 (DefaultPollingBehavior.poll_loop makeRequest cfg 10 true 0 0 [] params []).2
                 = [params]).
  { intros Hnone. by rewrite (poll_loop_unpaginated 9 0 0 [] params [] Hnone). }
  destruct (poll_loop_run 10 true 0 0 [] params []) as (more & Hmore & Hlen & _ & Hres).
  destruct (poll_loop_first_request makeRequest cfg 9 0 0 [] params []) as (more' & Hfirst).
  rewrite Hmore in Hfirst. cbn [app] in Hfirst. subst more.
  rewrite Hmore in Hone. rewrite Hmore. cbn [app] in *.
  split_and!; [cbn; lia|done|done|done|].
  intros r Hr. destruct (Hres r Hr) as (Hp & Hrec & Htot & Hcap).
  cbn [app] in Hrec. rewrite Hrec. split_and!; [lia|done|lia|done].
Qed.

End GenericFacts.

Lemma generic_cycle_is_capped_witness :
  let J := ExampleHost.mini_jsonpath in
  let run := DefaultPollingBehavior.poll_loop
               (Examples.serving [Examples.response; Examples.last_response]) Examples.by_page
               10 true 0 0 [] ∅ [] in
  length run.2 = 3%nat
  /\ exists r, run.1 = Ok r
       /\ pagesProcessed r = 3
       /\ totalRecords r = 3
       /\ length (records r) = 3%nat.
Proof.
  intros J run.
  destruct (generic_cycle_is_capped (H := J)
              (Examples.serving [Examples.response; Examples.last_response]) Examples.by_page ∅)
    as (_ & _ & _ & Hres).
  assert (Hlen : length run.2 = 3%nat) by (vm_compute; reflexivity).
  split; [exact Hlen|].
  destruct run.1 as [r|e] eqn:Hr; [|vm_compute in Hr; discriminate].
  exists r. destruct (Hres r Hr) as (Hp & Hrec & Htot & _).
  fold run in Hp, Hrec. rewrite Hlen in Hp.
  assert (Hn : length (records r) = 3%nat) by (rewrite Hrec; vm_compute; reflexivity).
  rewrite Hn in Htot. done.
Defined.

(** ** Page and offset pagination across a cycle *)

Section PaginationFacts.
Context `{JsonPath} `{DateHost}.
Variable makeRequest : Z -> gmap string json -> res json.
Variable cfg : PollingConfig.

Lemma parseInt_or_number (n : Z) (dflt : string) :
  parseInt dflt = Num 0 \/ n <> 0 ->
  parseInt_or (JNum (Num n)) dflt = Num (if decide (n = 0) then 0 else n).
Proof.
  intros Hd. unfold parseInt_or. cbn [truthy js_String num_toString].
  destruct (decide (n = 0)) as [->|Hn].
  - cbn. by destruct Hd.
  - rewrite (proj2 (Z.eqb_neq n 0)) by done. cbn [negb]. apply parseInt_pretty.
Qed.

(** An invariant of the loop over the parameters of the request to come
    is met by every request sent. *)
Lemma poll_loop_invariant (P : Z -> gmap string json -> Prop) :
  (forall pageCount params response,
      P pageCount params ->
      hasNextPage response cfg = true ->
      P (pageCount + 1) (getNextPageParams response cfg params ∪ params)) ->
  forall (left : nat) hasMore pageCount total all params issued,
    P pageCount params ->
    exists more,
      (DefaultPollingBehavior.poll_loop makeRequest cfg left hasMore pageCount total all
         params issued).2 = issued ++ more
      /\ forall (i : nat) sent, more !! i = Some sent -> P (pageCount + Z.of_nat i) sent.
Proof.
  intros Hstep. induction left as [|left IH];
    intros hasMore pageCount total all params issued HP.
  - exists []. cbn. rewrite app_nil_r. split; [done|]. intros i sent Hi. by destruct i.
  - cbn [DefaultPollingBehavior.poll_loop]. destruct hasMore.
    2:{ exists []. cbn. rewrite app_nil_r. split; [done|]. intros i sent Hi. by destruct i. }
    assert (Hone : forall (i : nat) sent,
               [params] !! i = Some sent -> P (pageCount + Z.of_nat i) sent).
    { intros [|i] sent; cbn; [|by destruct i].
      intros [= <-]. by rewrite Z.add_0_r. }
    destruct (makeRequest (pageCount + 1) params) as [response|e] eqn:Hreq.
    2:{ by exists [params]. }
    destruct (extractData response cfg) as [extractedData|e] eqn:Hext.
    2:{ by exists [params]. }
    cbn zeta. destruct (hasNextPage response cfg) eqn:Hnext.
    + match goal with |- context [DefaultPollingBehavior.poll_loop _ _ left ?h ?p ?t ?a ?ps ?i] =>
        destruct (IH h p t a ps i) as (more & Hmore & Hall) end.
      { by apply Hstep. }
      exists (params :: more). rewrite Hmore, <- app_assoc. split; [done|].
      intros [|i] sent; cbn.
      * intros [= <-]. by rewrite Z.add_0_r.
      * intros Hi. replace (pageCount + Z.of_nat (S i))
          with (pageCount + 1 + Z.of_nat i) by lia. by apply Hall.
    + destruct left; cbn [DefaultPollingBehavior.poll_loop fst snd];
        by exists [params].
Qed.

(** X12. With page pagination and a non-empty page parameter configured
    that is not also the per-page parameter, the request number [i] of a
    generic cycle, counting from 1, carries [i] under the page parameter,
    and every request carries 50 under the per-page parameter when one is
    configured. *)
Theorem page_parameter_counts_the_pages (pg : Pagination) (page : string)
    (pollingState : PollingState) :
  pagination (data_extraction cfg) = Some pg ->
  pg_type pg = Page ->
  page_param pg = Some page -> page <> "" ->
  per_page_param pg <> Some page ->
  let run := DefaultPollingBehavior.poll_loop makeRequest cfg 10 true 0 0 []
               (DefaultPollingBehavior.initial_params cfg pollingState) [] in
  forall (i : nat) sent,
    run.2 !! i = Some sent ->
    sent !! page = Some (JNum (Num (Z.of_nat i + 1)))
    /\ forall perPage, per_page_param pg = Some perPage -> perPage <> "" ->
         sent !! perPage = Some (JNum (Num 50)).
Proof.
  intros Hpg Htype Hpage Hne Hper run.
  set (P := fun (pageCount : Z) (params : gmap string json) =>
              0 <= pageCount
              /\ params !! page = Some (JNum (Num (pageCount + 1)))
              /\ forall perPage, per_page_param pg = Some perPage -> perPage <> "" ->
                   params !! perPage = Some (JNum (Num 50))).
  destruct (poll_loop_invariant P) with (left := 10%nat) (hasMore := true) (pageCount := 0)
    (total := 0) (all := @nil json)
    (params := DefaultPollingBehavior.initial_params cfg pollingState)
    (issued := @nil (gmap string json)) as (more & Hmore & Hall).
  - intros pageCount params response (Hpos & Hcur & Hsize) _.
    unfold getNextPageParams. rewrite Hpg, Htype, Hpage. cbn [str_truthy default from_option id].
    rewrite bool_decide_eq_false_2 by done. cbn [negb].
    unfold prop. rewrite Hcur. cbn [default from_option id].
    rewrite parseInt_or_number by (right; lia).
    destruct (decide (pageCount + 1 = 0)) as [|_]; [lia|].
    cbn [num_json_add].
    split; [lia|]. split.
    + apply lookup_union_Some_l.
      destruct (str_truthy (per_page_param pg) && _).
      * rewrite lookup_insert_ne; [by rewrite lookup_singleton_eq|].
        intros Heq. destruct (per_page_param pg) as [q|]; [|done].
        cbn in Heq. by subst q.
      * by rewrite lookup_singleton_eq.
    + intros perPage Hq Hqne. rewrite Hq. cbn [str_truthy default from_option id].
      rewrite bool_decide_eq_false_2 by done. cbn [negb andb].
      unfold prop. rewrite (Hsize perPage Hq Hqne).
      cbn [default from_option id truthy Z.eqb negb andb].
      rewrite lookup_union_r; [by apply Hsize|].
      rewrite lookup_singleton_ne; [done|]. intros ->. by rewrite Hq in Hper.
  - unfold P. split; [done|].
    unfold DefaultPollingBehavior.initial_params, getInitialPaginationParams.
    rewrite Hpg, Htype, Hpage. cbn [str_truthy default from_option id].
    rewrite bool_decide_eq_false_2 by done. cbn [negb].
    set (initial := if str_truthy (per_page_param pg) then _ else _).
    assert (Hp : initial !! page = Some (JNum (Num 1))).
    { unfold initial. destruct (str_truthy (per_page_param pg)).
      - rewrite lookup_insert_ne; [by rewrite lookup_singleton_eq|].
        intros Heq. destruct (per_page_param pg) as [q|]; [|done].
        cbn in Heq. by subst q.
      - by rewrite lookup_singleton_eq. }
    assert (Hq : forall perPage, per_page_param pg = Some perPage -> perPage <> "" ->
                   initial !! perPage = Some (JNum (Num 50))).
    { intros perPage Hq Hqne. unfold initial. rewrite Hq. cbn [str_truthy default from_option id].
      rewrite bool_decide_eq_false_2 by done. cbn [negb]. by rewrite lookup_insert_eq. }
    assert (Hkeep : forall k (v : Z), v <> 0 ->
              initial !! k = Some (JNum (Num v)) ->
              addIncrementalParams initial (lastSuccessfulPoll pollingState) cfg !! k
              = Some (JNum (Num v))).
    { intros k v Hv Hk. unfold addIncrementalParams.
      destruct (lastSuccessfulPoll pollingState) as [t|]; [|done].
      destruct (truthy (prop initial "since")) eqn:Hsince; [done|].
      cbn [negb andb]. destruct (negb _ && negb _); [|done].
      rewrite lookup_insert_ne; [done|]. intros <-.
      unfold prop in Hsince. rewrite Hk in Hsince. cbn in Hsince.
      apply negb_false_iff, Z.eqb_eq in Hsince. done. }
    split; [by apply Hkeep|].
    intros perPage Hq' Hqne. apply Hkeep; [done|by apply Hq].
  - subst run. rewrite Hmore. cbn [app]. intros i sent Hi.
    destruct (Hall i sent Hi) as (_ & Hp & Hq). split; [|done].
    rewrite Hp. by replace (0 + Z.of_nat i + 1) with (Z.of_nat i + 1) by lia.
Qed.

(** X13. With offset pagination and two different non-empty names configured
    as offset parameter (not [since]) and limit parameter, the request
    number [i] of a generic cycle, counting from 0, carries the offset [50 *
    i] and the limit 50. *)
Theorem offset_parameter_advances_by_the_limit (pg : Pagination) (offset limit : string)
    (pollingState : PollingState) :
  pagination (data_extraction cfg) = Some pg ->
  pg_type pg = Offset ->
  offset_param pg = Some offset -> offset <> "" ->
  limit_param pg = Some limit -> limit <> "" ->
  offset <> limit -> offset <> "since" ->
  let run := DefaultPollingBehavior.poll_loop makeRequest cfg 10 true 0 0 []
               (DefaultPollingBehavior.initial_params cfg pollingState) [] in
  forall (i : nat) sent,
    run.2 !! i = Some sent ->
    sent !! offset = Some (JNum (Num (50 * Z.of_nat i)))
    /\ sent !! limit = Some (JNum (Num 50)).
Proof.
  intros Hpg Htype Hoff Hone Hlim Hlne Hol Hsince run.
  set (P := fun (pageCount : Z) (params : gmap string json) =>
              0 <= pageCount
              /\ params !! offset = Some (JNum (Num (50 * pageCount)))
              /\ params !! limit = Some (JNum (Num 50))).
  destruct (poll_loop_invariant P) with (left := 10%nat) (hasMore := true) (pageCount := 0)
    (total := 0) (all := @nil json)
    (params := DefaultPollingBehavior.initial_params cfg pollingState)
    (issued := @nil (gmap string json)) as (more & Hmore & Hall).
  - intros pageCount params response (Hpos & Hcur & Hsize) _.
    unfold getNextPageParams. rewrite Hpg, Htype, Hoff, Hlim.
    cbn [str_truthy default from_option id].
    rewrite !bool_decide_eq_false_2 by done. cbn [negb andb].
    unfold prop. rewrite Hcur, Hsize. cbn [default from_option id].
    rewrite (parseInt_or_number (50 * pageCount) "0") by (by left).
    rewrite (parseInt_or_number 50 "50") by (by right).
    destruct (decide (50 = 0)) as [|_]; [lia|].
    replace (if decide (50 * pageCount = 0) then 0 else 50 * pageCount)
      with (50 * pageCount) by (by destruct (decide (50 * pageCount = 0)) as [->|]).
    cbn [num_json_add].
    split; [lia|]. split.
    + apply lookup_union_Some_l. rewrite lookup_insert_ne by done.
      rewrite lookup_singleton_eq. do 3 f_equal. lia.
    + apply lookup_union_Some_l. by rewrite lookup_insert_eq.
  - unfold P. split; [done|].
    unfold DefaultPollingBehavior.initial_params, getInitialPaginationParams.
    rewrite Hpg, Htype, Hoff, Hlim. cbn [str_truthy default from_option id].
    rewrite !bool_decide_eq_false_2 by done. cbn [negb].
    set (initial := <[limit := _]> _).
    assert (Ho : initial !! offset = Some (JNum (Num 0))).
    { unfold initial. rewrite lookup_insert_ne by done. by rewrite lookup_singleton_eq. }
    assert (Hl : initial !! limit = Some (JNum (Num 50))).
    { unfold initial. by rewrite lookup_insert_eq. }
    unfold addIncrementalParams. destruct (lastSuccessfulPoll pollingState) as [t|]; [|done].
    destruct (truthy (prop initial "since")) eqn:Hs; [done|].
    cbn [negb andb]. destruct (negb _ && negb _); [|done].
    split.
    + by rewrite lookup_insert_ne.
    + rewrite lookup_insert_ne; [done|]. intros <-.
      unfold prop in Hs. by rewrite Hl in Hs.
  - subst run. rewrite Hmore. cbn [app]. intros i sent Hi.
    destruct (Hall i sent Hi) as (_ & Ho & Hl). split; [|done].
    rewrite Ho. by replace (50 * (0 + Z.of_nat i)) with (50 * Z.of_nat i) by lia.
Qed.

End PaginationFacts.

Lemma page_parameter_counts_the_pages_witness :
  let J := ExampleHost.mini_jsonpath in
  let D := ExampleHost.epoch_date in
  let run := DefaultPollingBehavior.poll_loop
               (Examples.serving [Examples.response; Examples.last_response]) Examples.by_page
               10 true 0 0 []
               (DefaultPollingBehavior.initial_params Examples.by_page (Examples.succeeded 1000)) [] in
  length run.2 = 3%nat
  /\ forall (i : nat) sent,
       run.2 !! i = Some sent ->
       sent !! "page" = Some (JNum (Num (Z.of_nat i + 1)))
       /\ sent !! "per_page" = Some (JNum (Num 50)).
Proof.
  intros J D run. split; [vm_compute; reflexivity|].
  intros i sent Hi.
  destruct (page_parameter_counts_the_pages (H := J) (H0 := D)
              (Examples.serving [Examples.response; Examples.last_response]) Examples.by_page
              _ "page" (Examples.succeeded 1000) eq_refl eq_refl eq_refl
              ltac:(done) ltac:(done) i sent Hi) as [Hp Hq].
  split; [exact Hp|]. by apply Hq.
Defined.

Lemma offset_parameter_advances_by_the_limit_witness :
  let J := ExampleHost.mini_jsonpath in
  let D := ExampleHost.epoch_date in
  let run := DefaultPollingBehavior.poll_loop
               (Examples.serving [Examples.response; Examples.last_response]) Examples.by_offset
               10 true 0 0 []
               (DefaultPollingBehavior.initial_params Examples.by_offset (Examples.succeeded 1000)) [] in
  length run.2 = 3%nat
  /\ forall (i : nat) sent,
       run.2 !! i = Some sent ->
       sent !! "offset" = Some (JNum (Num (50 * Z.of_nat i)))
       /\ sent !! "limit" = Some (JNum (Num 50)).
Proof.
  intros J D run. split; [vm_compute; reflexivity|].
  intros i sent Hi.
  exact (offset_parameter_advances_by_the_limit (H := J) (H0 := D)
           (Examples.serving [Examples.response; Examples.last_response]) Examples.by_offset
           _ "offset" "limit" (Examples.succeeded 1000) eq_refl eq_refl eq_refl
           ltac:(done) eq_refl ltac:(done) ltac:(done) ltac:(done) i sent Hi).
Defined.

(** ** Where a paginated cycle ends *)

Section EndFacts.
Context `{JsonPath} `{DateHost}.
Variable makeRequest : Z -> gmap string json -> res json.
Variable cfg : PollingConfig.

Lemma hasNextPage_paged (pg : Pagination) (response : json) (extractedData : list json) :
  pagination (data_extraction cfg) = Some pg ->
  pg_type pg <> Cursor ->
  extractData response cfg = Ok extractedData ->
  hasNextPage response cfg = (0 <? Z.of_nat (length extractedData)).
Proof.
  intros Hpg Htype Hext. unfold hasNextPage, hasNextPage_body. rewrite Hpg.
  destruct (pg_type pg); [by rewrite Hext|done|by rewrite Hext].
Qed.

Lemma poll_loop_paged (pg : Pagination) (left : nat) :
  pagination (data_extraction cfg) = Some pg ->
  pg_type pg <> Cursor ->
  forall hasMore pageCount total all params issued,
  exists more,
    (DefaultPollingBehavior.poll_loop makeRequest cfg left hasMore pageCount total all
       params issued).2 = issued ++ more
    /\ (forall (i : nat) sent,
          more !! i = Some sent -> (i + 1 < length more)%nat ->
          page_records makeRequest cfg (pageCount + 1 + Z.of_nat i) sent <> [])
    /\ (forall r,
          (DefaultPollingBehavior.poll_loop makeRequest cfg left hasMore pageCount total all
             params issued).1 = Ok r ->
          hasMore = true -> (length more < left)%nat ->
          hasMoreData r = false
          /\ exists sent, last more = Some sent
               /\ page_records makeRequest cfg (pageCount + Z.of_nat (length more)) sent = []).
Proof.
  intros Hpg Htype. induction left as [|left IH];
    intros hasMore pageCount total all params issued.
  - exists []. cbn. rewrite app_nil_r. split_and!; [done| |].
    + intros i sent Hi. by destruct i.
    + intros r _ _ Hlt. lia.
  - cbn [DefaultPollingBehavior.poll_loop]. destruct hasMore.
    2:{ exists []. cbn. rewrite app_nil_r. split_and!; [done| |done].
        intros i sent Hi. by destruct i. }
    assert (Hone : forall (i : nat) sent,
               [params] !! i = Some sent -> (i + 1 < length [params])%nat ->
               page_records makeRequest cfg (pageCount + 1 + Z.of_nat i) sent <> []).
    { intros i sent _. cbn. lia. }
    destruct (makeRequest (pageCount + 1) params) as [response|e] eqn:Hreq.
    2:{ by exists [params]. }
    destruct (extractData response cfg) as [extractedData|e] eqn:Hext.
    2:{ by exists [params]. }
    cbn zeta. rewrite (hasNextPage_paged pg response extractedData) by done.
    assert (Hpage : page_records makeRequest cfg (pageCount + 1) params = extractedData).
    { unfold page_records. by rewrite Hreq, Hext. }
    destruct (0 <? Z.of_nat (length extractedData)) eqn:Hn.
    + match goal with |- context [DefaultPollingBehavior.poll_loop _ _ left ?h ?p ?t ?a ?ps ?i] =>
        destruct (IH h p t a ps i) as (more & Hmore & Hfull & Hend) end.
      exists (params :: more). rewrite Hmore, <- app_assoc. split_and!; [done| |].
      * intros [|i] sent Hi Hlt.
        -- cbn in Hi. injection Hi as <-.
           replace (pageCount + 1 + Z.of_nat 0) with (pageCount + 1) by lia.
           rewrite Hpage. apply Z.ltb_lt in Hn. by destruct extractedData.
        -- replace (pageCount + 1 + Z.of_nat (S i))
             with (pageCount + 1 + 1 + Z.of_nat i) by lia.
           apply Hfull; [done|]. cbn [length] in Hlt. lia.
      * intros r Hr _ Hlt. cbn [length] in Hlt.
        destruct (Hend r Hr eq_refl) as (Hdone & sent & Hlast & Hempty); [lia|].
        split; [done|]. exists sent. split.
        -- destruct more; [done|]. by rewrite last_cons, Hlast.
        -- by replace (pageCount + Z.of_nat (length (params :: more)))
             with (pageCount + 1 + Z.of_nat (length more)) by (cbn [length]; lia).
    + exists [params]. apply Z.ltb_ge in Hn.
      assert (Hnil : extractedData = []) by (destruct extractedData; [done|cbn in Hn; lia]).
      assert (Hlast : page_records makeRequest cfg (pageCount + Z.of_nat (length [params]))
                        params = []).
      { cbn [length]. change (Z.of_nat 1) with 1. by rewrite Hpage. }
      destruct left; cbn [DefaultPollingBehavior.poll_loop fst snd];
        (split_and!; [done|done|]);
        intros r [= <-] _ _; (split; [done|]); by exists params.
Qed.

(** X14. With page or offset pagination, every page of a generic cycle
    before the last one yielded at least one record; and a cycle that
    returns after fewer than 10 requests ended on a page that yielded none,
    with [hasMoreData = false]. *)
Theorem paged_cycle_ends_at_the_first_empty_page (pg : Pagination)
    (params : gmap string json) :
  pagination (data_extraction cfg) = Some pg ->
  pg_type pg <> Cursor ->
  let run := DefaultPollingBehavior.poll_loop makeRequest cfg 10 true 0 0 [] params [] in
  (forall (i : nat) sent,
      run.2 !! i = Some sent -> (i + 1 < length run.2)%nat ->
      page_records makeRequest cfg (Z.of_nat i + 1) sent <> [])
  /\ (forall r, run.1 = Ok r -> (length run.2 < 10)%nat ->
        hasMoreData r = false
        /\ exists sent, last run.2 = Some sent
             /\ page_records makeRequest cfg (Z.of_nat (length run.2)) sent = []).
Proof.
  intros Hpg Htype run. subst run.
  destruct (poll_loop_paged pg 10 Hpg Htype true 0 0 [] params [])
    as (more & Hmore & Hfull & Hend).
  rewrite Hmore. cbn [app]. split.
  - intros i sent Hi Hlt.
    replace (Z.of_nat i + 1) with (0 + 1 + Z.of_nat i) by lia. by apply Hfull.
  - intros r Hr Hlt. by apply Hend.
Qed.

(** X15. With cursor pagination and no cursor parameter configured, the next
    value of a response is never sent back: every request of the cycle
    carries the parameters of the first. *)
Theorem cursor_without_parameter_repeats_the_request (pg : Pagination)
    (params : gmap string json) :
  pagination (data_extraction cfg) = Some pg ->
  pg_type pg = Cursor ->
  str_truthy (cursor_param pg) = false ->
  let run := DefaultPollingBehavior.poll_loop makeRequest cfg 10 true 0 0 [] params [] in
  forall sent, sent ∈ run.2 -> sent = params.
Proof.
  intros Hpg Htype Hcursor run sent Hin.
  destruct (poll_loop_invariant makeRequest cfg (fun _ current => current = params))
    with (left := 10%nat) (hasMore := true) (pageCount := 0) (total := 0) (all := @nil json)
         (params := params) (issued := @nil (gmap string json)) as (more & Hmore & Hall).
  - intros pageCount current response -> _.
    unfold getNextPageParams. rewrite Hpg, Htype, Hcursor. cbn [andb].
    by rewrite (left_id_L ∅ (∪)).
  - done.
  - subst run. rewrite Hmore in Hin. cbn [app] in Hin.
    apply list_elem_of_lookup in Hin as [i Hi]. by apply (Hall i).
Qed.

End EndFacts.

Lemma paged_cycle_ends_at_the_first_empty_page_witness :
  let J := ExampleHost.mini_jsonpath in
  let run := DefaultPollingBehavior.poll_loop
               (Examples.serving [Examples.response; Examples.last_response]) Examples.by_page
               10 true 0 0 [] ∅ [] in
  length run.2 = 3%nat
  /\ exists r sent, run.1 = Ok r
       /\ hasMoreData r = false
       /\ last run.2 = Some sent
       /\ page_records (Examples.serving [Examples.response; Examples.last_response]) Examples.by_page 3 sent
          = [].
Proof.
  intros J run.
  destruct (paged_cycle_ends_at_the_first_empty_page (H := J)
              (Examples.serving [Examples.response; Examples.last_response]) Examples.by_page _ ∅
              eq_refl ltac:(done)) as (_ & Hend).
  assert (Hlen : length run.2 = 3%nat) by (vm_compute; reflexivity).
  split; [exact Hlen|].
  destruct run.1 as [r|e] eqn:Hr; [|vm_compute in Hr; discriminate].
  destruct (Hend r Hr) as (Hmore & sent & Hlast & Hempty).
  - fold run. rewrite Hlen. lia.
  - fold run in Hlast, Hempty. rewrite Hlen in Hempty. by exists r, sent.
Defined.

Lemma cursor_without_parameter_repeats_the_request_witness :
  let J := ExampleHost.mini_jsonpath in
  let run := DefaultPollingBehavior.poll_loop
               (Examples.serving [Examples.response; Examples.response]) Examples.unnamed_cursor
               10 true 0 0 [] ∅ [] in
  length run.2 = 3%nat /\ forall sent, sent ∈ run.2 -> sent = ∅.
Proof.
  intros J run. split; [vm_compute; reflexivity|].
  exact (cursor_without_parameter_repeats_the_request (H := J)
           (Examples.serving [Examples.response; Examples.response]) Examples.unnamed_cursor _ ∅
           eq_refl eq_refl eq_refl).
Defined.

(** ** From where a cycle fetches *)

Section SinceFacts.
Context `{JsonPath} `{DateHost}.


End SinceFacts.


(** ** Grouping the posts of a page *)

Section GroupingFacts.
Import DiscourseClient.

Lemma group_push_keys post (groups : list (Z * list DiscourseSearchPost)) :
  (group_push post groups).*1
  = if decide (sp_topic_id post ∈ groups.*1) then groups.*1
    else groups.*1 ++ [sp_topic_id post].
Proof.
  induction groups as [|[t ps] rest IH]; cbn [group_push fmap list_fmap fst].
  - rewrite decide_False; [done|]. apply not_elem_of_nil.
  - case_bool_decide as Ht.
    + subst t. cbn [fmap list_fmap fst]. rewrite decide_True; [done|]. apply list_elem_of_here.
    + cbn [fmap list_fmap fst]. rewrite IH.
      destruct (decide (sp_topic_id post ∈ rest.*1)) as [Hin|Hout].
      * rewrite decide_True; [done|]. by apply list_elem_of_further.
      * rewrite decide_False; [done|]. intros [Heq|Hin]%elem_of_cons; done.
Qed.

Lemma group_push_elem post (groups : list (Z * list DiscourseSearchPost)) t ps :
  NoDup groups.*1 ->
  (t, ps) ∈ group_push post groups ->
  (t <> sp_topic_id post /\ (t, ps) ∈ groups)
  \/ (t = sp_topic_id post
      /\ ((exists ps0, (t, ps0) ∈ groups /\ ps = ps0 ++ [post])
          \/ ((t ∉ groups.*1) /\ ps = [post]))).
Proof.
  induction groups as [|[t0 ps0] rest IH]; cbn [group_push fmap list_fmap fst].
  - intros _ [= -> ->]%list_elem_of_singleton. right. split; [done|]. right.
    split; [apply not_elem_of_nil|done].
  - intros [Hnot Hnd]%NoDup_cons. case_bool_decide as Ht.
    + subst t0. intros [[= -> ->]|Hin]%elem_of_cons.
      * right. split; [done|]. left. exists ps0. split; [|done]. apply list_elem_of_here.
      * left. split; [|by apply list_elem_of_further].
        intros ->. apply Hnot. apply list_elem_of_fmap. by exists (sp_topic_id post, ps).
    + intros [[= -> ->]|Hin]%elem_of_cons.
      * left. split; [done|]. apply list_elem_of_here.
      * destruct (IH Hnd Hin) as [[Hne Hin']|[-> [(ps1 & Hin' & ->)|[Hout ->]]]].
        -- left. split; [done|]. by apply list_elem_of_further.
        -- right. split; [done|]. left. exists ps1. split; [|done]. by apply list_elem_of_further.
        -- right. split; [done|]. right. split; [|done].
           intros [Heq|Hin']%elem_of_cons; done.
Qed.

Lemma group_push_posts post (groups : list (Z * list DiscourseSearchPost)) :
  mjoin (group_push post groups).*2 ≡ₚ mjoin groups.*2 ++ [post].
Proof.
  induction groups as [|[t ps] rest IH]; cbn [group_push fmap list_fmap snd mjoin list_join].
  - done.
  - case_bool_decide as Ht; cbn [fmap list_fmap snd mjoin list_join].
    + rewrite <- !app_assoc. apply Permutation_app_head. apply Permutation_app_comm.
    + rewrite IH. by rewrite app_assoc.
Qed.

Lemma groupPostsByTopic_snoc posts post :
  groupPostsByTopic (posts ++ [post]) = group_push post (groupPostsByTopic posts).
Proof. unfold groupPostsByTopic. by rewrite foldl_app. Qed.

Lemma filter_topic_snoc (t : Z) posts post :
  filter (fun q => sp_topic_id q = t) (posts ++ [post])
  = filter (fun q => sp_topic_id q = t) posts
    ++ (if decide (sp_topic_id post = t) then [post] else []).
Proof.
  by rewrite filter_app.
Qed.

(** X17. [groupPostsByTopic] yields one group per topic id occurring among
    the posts, none empty and no topic twice; the group of a topic holds
    exactly the posts of that topic, in their order in the page; the groups
    together are a rearrangement of the posts, so that the detail requests
    of a page ask for every post id of the page exactly as often as it
    occurs. *)
Theorem grouping_partitions_the_posts (posts : list DiscourseSearchPost) :
  let groups := groupPostsByTopic posts in
  NoDup groups.*1
  /\ (forall t ps, (t, ps) ∈ groups ->
        ps <> [] /\ ps = filter (fun post => sp_topic_id post = t) posts)
  /\ (forall post, post ∈ posts -> sp_topic_id post ∈ groups.*1)
  /\ mjoin groups.*2 ≡ₚ posts
  /\ mjoin (map (fun group => map sp_id group.2) groups) ≡ₚ map sp_id posts.
Proof.
  cbn zeta.
  assert (Hmain : NoDup (groupPostsByTopic posts).*1
    /\ (forall t ps, (t, ps) ∈ groupPostsByTopic posts ->
          ps <> [] /\ ps = filter (fun post => sp_topic_id post = t) posts)
    /\ (forall post, post ∈ posts -> sp_topic_id post ∈ (groupPostsByTopic posts).*1)
    /\ mjoin (groupPostsByTopic posts).*2 ≡ₚ posts).
  { induction posts as [|post posts IH] using rev_ind.
    - split_and!; [constructor|intros t ps Hin; by apply elem_of_nil in Hin
                  |intros post Hin; by apply elem_of_nil in Hin|done].
    - destruct IH as (Hnd & Hgr & Hall & Hperm).
      rewrite groupPostsByTopic_snoc. split_and!.
      + rewrite group_push_keys. destruct (decide _) as [|Hout]; [done|].
        apply NoDup_app. split_and!; [done| |apply NoDup_singleton].
        intros t Hin ->%list_elem_of_singleton. done.
      + intros t ps Hin. rewrite filter_topic_snoc.
        destruct (group_push_elem post _ t ps Hnd Hin)
          as [[Hne Hin']|[-> [(ps0 & Hin' & ->)|[Hout ->]]]].
        * destruct (Hgr t ps Hin') as [Hnil ->].
          rewrite decide_False by done. by rewrite app_nil_r.
        * destruct (Hgr _ ps0 Hin') as [Hnil ->].
          rewrite decide_True by done. split; [|done]. by intros [? ?]%app_eq_nil.
        * rewrite decide_True by done. split; [done|].
          destruct (filter _ posts) as [|q rest] eqn:Hf; [done|].
          assert (Hq : q ∈ filter (fun q => sp_topic_id q = sp_topic_id post) posts)
            by (rewrite Hf; apply list_elem_of_here).
          apply list_elem_of_filter in Hq as [Ht Hq].
          destruct Hout. rewrite <- Ht. by apply Hall.
      + intros q [Hq| ->%list_elem_of_singleton]%elem_of_app; rewrite group_push_keys.
        * destruct (decide _); [by apply Hall|]. apply elem_of_app. left. by apply Hall.
        * destruct (decide _) as [|Hout]; [done|]. apply elem_of_app. right.
          by apply list_elem_of_singleton.
      + rewrite group_push_posts. by rewrite Hperm. }
  destruct Hmain as (Hnd & Hgr & Hall & Hperm). split_and!; try done.
  transitivity (map sp_id (mjoin (groupPostsByTopic posts).*2));
    [|by apply Permutation_map].
  generalize (groupPostsByTopic posts). intros groups.
  induction groups as [|[t ps] rest IH]; [done|].
  cbn [map fmap list_fmap snd mjoin list_join]. rewrite map_app.
  apply Permutation_app_head. exact IH.
Qed.

End GroupingFacts.

Lemma grouping_partitions_the_posts_witness :
  let posts := [Examples.post 1 10 "Login"; Examples.post 2 20 "Billing";
                Examples.post 3 10 "Login"] in
  DiscourseClient.groupPostsByTopic posts
  = [(10, [Examples.post 1 10 "Login"; Examples.post 3 10 "Login"]);
     (20, [Examples.post 2 20 "Billing"])]
  /\ NoDup (DiscourseClient.groupPostsByTopic posts).*1
  /\ forall t ps, (t, ps) ∈ DiscourseClient.groupPostsByTopic posts -> ps <> [].
Proof.
  intros posts. split; [reflexivity|].
  destruct (grouping_partitions_the_posts posts) as (Hnd & Hgr & _).
  split; [exact Hnd|]. intros t ps Hin. exact (proj1 (Hgr t ps Hin)).
Defined.

(** ** Merging the details into the search hits *)

Section MergeFacts.
Import DiscourseClient.

Lemma search_map_lookup (searchPosts : list DiscourseSearchPost) (id : Z) :
  foldl (fun (m : gmap Z DiscourseSearchPost) post => <[sp_id post := post]> m) ∅ searchPosts
    !! id
  = last (filter (fun post => sp_id post = id) searchPosts).
Proof.
  induction searchPosts as [|post posts IH] using rev_ind; [done|].
  rewrite foldl_app, filter_app. cbn [foldl]. rewrite filter_cons, filter_nil.
  destruct (decide (sp_id post = id)) as [<-|Hne].
  - rewrite lookup_insert_eq. by rewrite last_snoc.
  - rewrite lookup_insert_ne by done. by rewrite app_nil_r.
Qed.

(** X18. [mergePostData] returns one entry per detailed post, in the order
    received and with the detailed post unchanged, whether or not it was
    among the search hits; its title is the headline of the last search hit
    with the same id, which is the only one when ids are distinct, and the
    empty string when there is none. *)
Theorem merge_keeps_every_detailed_post (searchPosts : list DiscourseSearchPost)
    (detailedPosts : list DiscourseDetailedPost) :
  let merged := mergePostData searchPosts detailedPosts in
  map detailed merged = detailedPosts
  /\ length merged = length detailedPosts
  /\ (forall (i : nat) enriched, merged !! i = Some enriched ->
        topic_title_headline enriched
        = match last (filter (fun post => sp_id post = dp_id (detailed enriched)) searchPosts)
          with
          | Some searchPost => sp_topic_title_headline searchPost
          | None => ""
          end)
  /\ (forall enriched searchPost,
        enriched ∈ merged -> searchPost ∈ searchPosts ->
        NoDup (map sp_id searchPosts) ->
        sp_id searchPost = dp_id (detailed enriched) ->
        topic_title_headline enriched = sp_topic_title_headline searchPost)
  /\ (forall enriched,
        enriched ∈ merged ->
        (forall searchPost, searchPost ∈ searchPosts ->
                            sp_id searchPost <> dp_id (detailed enriched)) ->
        topic_title_headline enriched = "").
Proof.
  cbn zeta. unfold mergePostData.
  set (f := fun detailedPost => _).
  assert (Htitle : forall enriched, enriched ∈ map f detailedPosts ->
            topic_title_headline enriched
            = match last (filter (fun post => sp_id post = dp_id (detailed enriched))
                            searchPosts) with
              | Some searchPost => sp_topic_title_headline searchPost
              | None => ""
              end).
  { intros enriched (dp & -> & _)%list_elem_of_fmap. unfold f.
    cbn [topic_title_headline detailed]. by rewrite search_map_lookup. }
  split_and!.
  - rewrite map_map. unfold f. cbn [detailed]. apply map_id.
  - apply length_map.
  - intros i enriched Hi. apply Htitle. by apply list_elem_of_lookup_2 in Hi.
  - intros enriched searchPost He Hs Hnd Hid. rewrite (Htitle enriched He).
    assert (Hone : filter (fun post => sp_id post = dp_id (detailed enriched)) searchPosts
                   = [searchPost]).
    { clear -Hs Hnd Hid. induction searchPosts as [|post posts IH];
        [by apply elem_of_nil in Hs|].
      cbn [map] in Hnd. apply NoDup_cons in Hnd as [Hnot Hnd].
      rewrite filter_cons. apply elem_of_cons in Hs as [->|Hs].
      - rewrite decide_True by done. f_equal.
        destruct (filter _ posts) as [|q rest] eqn:Hf; [done|].
        assert (Hq : q ∈ filter (fun post => sp_id post = dp_id (detailed enriched)) posts)
          by (rewrite Hf; apply list_elem_of_here).
        apply list_elem_of_filter in Hq as [Hq1 Hq2].
        destruct Hnot. rewrite Hid, <- Hq1. apply list_elem_of_fmap. by exists q.
      - rewrite decide_False; [by apply IH|].
        intros Heq. apply Hnot. rewrite Heq, <- Hid. apply list_elem_of_fmap.
        by exists searchPost. }
    by rewrite Hone.
  - intros enriched He Hnone. rewrite (Htitle enriched He).
    destruct (last _) as [searchPost|] eqn:Hlast; [|done].
    apply last_Some in Hlast as [l Hl].
    assert (Hin : searchPost ∈ filter (fun post => sp_id post = dp_id (detailed enriched))
                                 searchPosts).
    { rewrite Hl. apply elem_of_app. right. apply list_elem_of_here. }
    apply list_elem_of_filter in Hin as [Hid Hin]. by destruct (Hnone searchPost Hin).
Qed.

End MergeFacts.

Lemma merge_keeps_every_detailed_post_witness :
  let hits := [Examples.post 1 10 "Login"; Examples.post 3 10 "Login"] in
  let dp (id : Z) := {| DiscourseClient.dp_id := id; DiscourseClient.dp_topic_id := 10;
                        DiscourseClient.dp_cooked := "<p>text</p>" |} in
  let merged := DiscourseClient.mergePostData hits [dp 1; dp 2; dp 3] in
  map DiscourseClient.detailed merged = [dp 1; dp 2; dp 3]
  /\ map DiscourseClient.topic_title_headline merged = ["Login"; ""; "Login"].
Proof.
  intros hits dp merged.
  destruct (merge_keeps_every_detailed_post hits [dp 1; dp 2; dp 3]) as (Hd & _).
  split; [exact Hd|reflexivity].
Defined.

(** ** The requests of a Discourse cycle *)

Section TraceFacts.
Import DiscourseClient.
Variable search : Z -> res (option (list DiscourseSearchPost)).
Variable details : Z -> Z -> list Z -> res (option (list DiscourseDetailedPost)).

Lemma fetch_pages_trace (left : nat) :
  forall page st,
  exists n : nat,
    (n <= left)%nat
    /\ (fetch_pages search details left page st).2
       = st.2 ++ mjoin ((fun i : nat => page_requests search (page + Z.of_nat i)) <$> seq 0 n)
    /\ (forall i : nat, (i + 1 < n)%nat -> has_posts search (page + Z.of_nat i))
    /\ ((n < left)%nat ->
        (0 < n)%nat /\ ~ has_posts search (page + Z.of_nat n - 1))
    /\ (forall e, (fetch_pages search details left page st).1 = Throw e ->
          (0 < n)%nat /\ search (page + Z.of_nat n - 1) = Throw e).
Proof.
  induction left as [|left IH]; intros page st.
  - exists 0%nat. cbn. rewrite app_nil_r. split_and!; [done|done|lia|lia|done].
  - cbn [fetch_pages].
    assert (Hlast : forall (P : Z -> Prop), P page -> P (page + Z.of_nat 1 - 1)).
    { intros P HP. by replace (page + Z.of_nat 1 - 1) with page by lia. }
    destruct (search page) as [[[|post posts]|]|e] eqn:Hs.
    + exists 1%nat. cbn [fst snd seq fmap list_fmap mjoin list_join].
      unfold page_requests. rewrite Z.add_0_r, Hs, app_nil_r.
      split_and!; [lia|done|lia| |done].
      intros _. split; [lia|]. apply Hlast. intros (ps & Hps & Hne). congruence.
    + set (st' := foldl _ _ _).
      destruct (IH (page + 1) st') as (n & Hn & Htrace & Hall & Hstop & Hthrow).
      assert (Hst' : st'.2 = (st.2 ++ [SearchRequest page])
                             ++ map (group_request page) (groupPostsByTopic (post :: posts))).
      { unfold st'. by rewrite fetch_groups_spec. }
      exists (S n). rewrite Htrace, Hst'.
      cbn [fst snd seq fmap list_fmap mjoin list_join].
      unfold page_requests at 2. rewrite Z.add_0_r, Hs.
      split_and!.
      * lia.
      * rewrite <- !app_assoc. f_equal. cbn [app]. f_equal. f_equal. f_equal.
        rewrite <- fmap_S_seq, <- list_fmap_compose. apply list_fmap_ext.
        intros i x _. cbn. f_equal. lia.
      * intros [|i] Hi.
        -- rewrite Z.add_0_r. by exists (post :: posts).
        -- replace (page + Z.of_nat (S i)) with (page + 1 + Z.of_nat i) by lia.
           apply Hall. lia.
      * intros Hlt. destruct Hstop as [Hpos Hno]; [lia|]. split; [lia|].
        by replace (page + Z.of_nat (S n) - 1) with (page + 1 + Z.of_nat n - 1) by lia.
      * intros e He. destruct (Hthrow e He) as [Hpos Hsearch]. split; [lia|].
        by replace (page + Z.of_nat (S n) - 1) with (page + 1 + Z.of_nat n - 1) by lia.
    + exists 1%nat. cbn [fst snd seq fmap list_fmap mjoin list_join].
      unfold page_requests. rewrite Z.add_0_r, Hs, app_nil_r.
      split_and!; [lia|done|lia| |done].
      intros _. split; [lia|]. apply Hlast. intros (ps & Hps & Hne). congruence.
    + exists 1%nat. cbn [fst snd seq fmap list_fmap mjoin list_join].
      unfold page_requests. rewrite Z.add_0_r, Hs, app_nil_r.
      split_and!; [lia|done|lia| |].
      * intros _. split; [lia|]. apply Hlast. intros (ps & Hps & Hne). congruence.
      * intros e' [= <-]. split; [lia|]. by apply Hlast.
Qed.

(** X19. The requests of [fetchPostsWithDetails] are, for the pages 1, 2,
    ..., n with n at most [maxPages], the search request of the page
    followed by one detail request per topic group of its posts; every page
    before the n-th had posts; when n is below [maxPages] the n-th page had
    none or its search failed; and the cycle throws only the error of the
    n-th search. *)
Theorem search_pages_are_consecutive (maxPages : nat) :
  let run := fetchPostsWithDetails search details maxPages in
  exists n : nat,
    (n <= maxPages)%nat
    /\ run.2 = mjoin ((fun i : nat => page_requests search (Z.of_nat i)) <$> seq 1 n)
    /\ (forall q, 1 <= q < Z.of_nat n -> has_posts search q)
    /\ ((n < maxPages)%nat -> (0 < n)%nat /\ ~ has_posts search (Z.of_nat n))
    /\ (forall e, run.1 = Throw e -> (0 < n)%nat /\ search (Z.of_nat n) = Throw e).
Proof.
  intros run. subst run. unfold fetchPostsWithDetails.
  destruct (fetch_pages_trace maxPages 1 ([], [])) as (n & Hn & Htrace & Hall & Hstop & Hthrow).
  exists n. split_and!.
  - done.
  - rewrite Htrace. cbn [snd app]. f_equal.
    rewrite <- fmap_S_seq, <- list_fmap_compose. apply list_fmap_ext.
    intros i x _. cbn. f_equal. lia.
  - intros q Hq. replace q with (1 + Z.of_nat (Z.to_nat (q - 1))) by lia.
    apply Hall. lia.
  - intros Hlt. destruct (Hstop Hlt) as [Hpos Hno]. split; [done|].
    by replace (Z.of_nat n) with (1 + Z.of_nat n - 1) by lia.
  - intros e He. destruct (Hthrow e He) as [Hpos Hs]. split; [done|].
    by replace (Z.of_nat n) with (1 + Z.of_nat n - 1) by lia.
Qed.

End TraceFacts.

Lemma search_pages_are_consecutive_witness :
  let run := DiscourseClient.fetchPostsWithDetails Examples.forum_search
               Examples.forum_details 5 in
  exists n : nat,
    (n <= 5)%nat
    /\ run.2 = mjoin ((fun i : nat => page_requests Examples.forum_search (Z.of_nat i))
                        <$> seq 1 n)
    /\ length run.2 = 6%nat.
Proof.
  intros run.
  destruct (search_pages_are_consecutive Examples.forum_search Examples.forum_details 5)
    as (n & Hn & Htrace & _).
  exists n. split; [exact Hn|]. split; [exact Htrace|reflexivity].
Defined.

(** ** What a cycle writes *)

(** X20. A cycle that both rate-limit checks allow, on a state store that
    answers, invokes the behaviour once and leaves the hash of the source
    with the 30-day expiry. After success the hash is the old one with the
    attempt time, the success time and the count 0 written and the error
    fields deleted, and the job stays. After a failure with message [e] it
    is the old one with the attempt time, the count raised by one, [e] and
    the failure time written; the job stays while the new count is below the
    threshold and is removed once it reaches it. *)
Theorem cycle_outcome_is_recorded `{DateHost} env k (w : World) job :
  jobs w !! k = Some job -> isRunning job = false ->
  faults (states w) = [] ->
  let cfg := config job in
  let key := getStateKey (tenant_id cfg) (source_type cfg) (instance_url cfg) in
  let minute := isAllowed (t_minute env) (rateLimitKey cfg +:+ ":minute") 60
                  (requests_per_minute (rate_limiting cfg)) (limiter w) in
  minute.1 = Ok true ->
  (isAllowed (t_hour env) (rateLimitKey cfg +:+ ":hour") 3600
     (requests_per_hour (rate_limiting cfg)) minute.2).1 = Ok true ->
  let w' := (executePoll env k w).2 in
  let h := hash (store (states w)) key in
  let h' := hash (store (states w')) key in
  polled w' = k :: polled w
  /\ httl (store (states w')) !! key = Some ttl_seconds
  /\ (poll_outcome env = Ok tt ->
      h' = delete "lastErrorTimestamp"
             (delete "lastError"
                (<["consecutiveFailures" := "0"]>
                   (<["lastSuccessfulPoll" := toISOString (t_done env)]>
                      (<["lastPollAttempt" := toISOString (t_attempt env)]> h))))
      /\ jobs w' = jobs w)
  /\ (forall e n,
        poll_outcome env = Throw e ->
        consecutiveFailures (read_state h) = Num n ->
        h' = <["lastErrorTimestamp" := toISOString (t_done env)]>
               (<["lastError" := e]>
                  (<["consecutiveFailures" := pretty (n + 1)]>
                     (<["lastPollAttempt" := toISOString (t_attempt env)]> h)))
        /\ (n + 1 < max_failures_before_disable (polling_config cfg) -> jobs w' = jobs w)
        /\ (max_failures_before_disable (polling_config cfg) <= n + 1 ->
            jobs w' = delete k (jobs w))).
Proof.
  intros Hj Hr Hf cfg key minute Hmin Hhour w' h h'.
  destruct minute as [rm l1] eqn:Hm. cbn [fst snd] in Hmin, Hhour. subst rm.
  destruct (isAllowed (t_hour env) (rateLimitKey cfg +:+ ":hour") 3600
              (requests_per_hour (rate_limiting cfg)) l1) as [rh l2] eqn:Hh.
  cbn [fst] in Hhour. subst rh.
  pose proof (updateLastPollAttempt_healthy (t_attempt env) (tenant_id cfg)
                (source_type cfg) (instance_url cfg) (states w) Hf) as Hatt.
  cbn zeta in Hatt. fold key in Hatt. fold h in Hatt.
  set (s1 := healthy _) in Hatt.
  assert (Hh1 : hash (store s1) key = <["lastPollAttempt" := toISOString (t_attempt env)]> h).
  { unfold s1. cbn [store healthy]. by rewrite hash_after_write. }
  destruct (poll_outcome env) as [[]|e] eqn:Hout.
  - pose proof (updateSuccessfulPoll_healthy (t_done env) (tenant_id cfg) (source_type cfg)
                  (instance_url cfg) s1 eq_refl) as Hok.
    cbn zeta in Hok. fold key in Hok. rewrite Hh1 in Hok.
    set (s2 := healthy _) in Hok.
    assert (Hw' : w' = set_polled (k :: polled w) (set_states s2 (set_limiter l2 w))).
    { unfold w'.
      by rewrite (executePoll_success env k w job l1 l2 s1 s2 Hj Hr Hm Hh Hatt Hout Hok). }
    unfold h'. rewrite Hw'. cbn [polled states jobs set_polled set_states set_limiter].
    unfold s2. cbn [store healthy httl]. rewrite hash_after_write, lookup_insert_eq.
    split_and!; [done|done| |done]. by intros _.
  - assert (Hfail : forall n, consecutiveFailures (read_state h) = Num n ->
              exists s2,
                updateFailedPoll (t_done env) (tenant_id cfg) (source_type cfg)
                  (instance_url cfg) e (max_failures_before_disable (polling_config cfg)) s1
                = (Ok (max_failures_before_disable (polling_config cfg) <=? n + 1), s2)
                /\ hash (store s2) key
                   = <["lastErrorTimestamp" := toISOString (t_done env)]>
                       (<["lastError" := e]>
                          (<["consecutiveFailures" := pretty (n + 1)]>
                             (<["lastPollAttempt" := toISOString (t_attempt env)]> h)))
                /\ httl (store s2) !! key = Some ttl_seconds).
    { intros n Hn.
      pose proof (updateFailedPoll_healthy (t_done env) (tenant_id cfg) (source_type cfg)
                    (instance_url cfg) e (max_failures_before_disable (polling_config cfg))
                    s1 eq_refl) as Hfl.
      cbn zeta in Hfl. fold key in Hfl. rewrite Hh1 in Hfl.
      change (<["lastPollAttempt" := toISOString (t_attempt env)]> h)
        with (written [("lastPollAttempt", toISOString (t_attempt env))] h) in Hfl.
      rewrite count_after_attempt, Hn in Hfl.
      cbn [num_succ num_toString num_geb] in Hfl.
      eexists. split; [exact Hfl|]. cbn [store healthy httl].
      rewrite hash_after_write, lookup_insert_eq. done. }
    destruct (updateFailedPoll_total (t_done env) (tenant_id cfg) (source_type cfg)
                (instance_url cfg) e (max_failures_before_disable (polling_config cfg)) s1)
      as (d & s2 & Hfl).
    assert (Hw' : w' = let w0 := set_polled (k :: polled w)
                                   (set_states s2 (set_limiter l2 w)) in
                       if d then stopPollingJob k w0 else w0).
    { unfold w'.
      by rewrite (executePoll_failure env k w job l1 l2 s1 s2 e d Hj Hr Hm Hh Hatt Hout Hfl). }
    cbn zeta in Hw'.
    assert (Hst : states w' = s2).
    { rewrite Hw'. destruct d; [|done].
      by destruct (stopPollingJob_frame k
        (set_polled (k :: polled w) (set_states s2 (set_limiter l2 w)))) as [-> _]. }
    assert (Hpol : polled w' = k :: polled w).
    { rewrite Hw'. destruct d; [|done]. by rewrite stopPollingJob_polled. }
    assert (Httl : httl (store s2) !! key = Some ttl_seconds).
    { pose proof (updateFailedPoll_healthy (t_done env) (tenant_id cfg) (source_type cfg)
                    (instance_url cfg) e (max_failures_before_disable (polling_config cfg))
                    s1 eq_refl) as Hfl'.
      cbn zeta in Hfl'. rewrite Hfl in Hfl'. injection Hfl' as _ ->.
      cbn [store healthy httl]. by rewrite lookup_insert_eq. }
    unfold h'. rewrite Hst. split_and!; [done|done|done|].
    intros e' n [= <-] Hn. destruct (Hfail n Hn) as (s2' & Hfl' & Hh2 & _).
    rewrite Hfl in Hfl'. injection Hfl' as -> <-.
    split; [done|]. rewrite Hw'. split.
    + intros Hlt. rewrite (proj2 (Z.leb_gt _ _) Hlt). done.
    + intros Hle. rewrite (proj2 (Z.leb_le _ _) Hle). by rewrite stopPollingJob_jobs.
Qed.

Lemma cycle_outcome_is_recorded_witness :
  let H := ExampleHost.epoch_date in
  let w := Examples.world {[ getJobKey Examples.eu := Examples.idle Examples.eu ]}
             (healthy no_windows) (healthy no_states) in
  let w' := (executePoll (Examples.at_time 1000 (Throw "HTTP 500"))
               (getJobKey Examples.eu) w).2 in
  polled w' = [getJobKey Examples.eu]
  /\ hash (store (states w')) (getStateKey "acme" "INTERCOM" "https://eu.acme.io")
     = {[ "lastPollAttempt" := "1000"; "consecutiveFailures" := "1";
          "lastError" := "HTTP 500"; "lastErrorTimestamp" := "1000" ]}
  /\ jobs w' = jobs w.
Proof.
  intros H w w'.
  destruct (cycle_outcome_is_recorded (H := H) (Examples.at_time 1000 (Throw "HTTP 500"))
              (getJobKey Examples.eu) w (Examples.idle Examples.eu) eq_refl eq_refl eq_refl)
    as (Hpol & _ & _ & Hfail).
  - vm_compute. reflexivity.
  - vm_compute. reflexivity.
  - destruct (Hfail "HTTP 500" 0 eq_refl) as (Hh & Hkeep & _); [vm_compute; reflexivity|].
    split; [exact Hpol|]. split.
    + etrans; [exact Hh|]. vm_compute. reflexivity.
    + apply Hkeep. vm_compute. reflexivity.
Defined.

(** ** A cycle denied by the per-minute limit *)

(** X21. Both rate-limit checks of a cycle always run. When the per-minute
    check denies and the per-hour check reaches the verdict "allowed", the
    cycle is skipped with the state store, the job and the invocations
    unchanged, and the per-hour window is the evicted window with the
    current timestamp added. *)
Theorem minute_denial_still_spends_hour_budget `{DateHost} env jobKey (w : World) job l1 l2 :
  jobs w !! jobKey = Some job ->
  isRunning job = false ->
  let minuteKey := rateLimitKey (config job) +:+ ":minute" in
  let hourKey := rateLimitKey (config job) +:+ ":hour" in
  isAllowed (t_minute env) minuteKey 60
    (requests_per_minute (rate_limiting (config job))) (limiter w) = (Ok false, l1) ->
  isAllowed_body (t_hour env) hourKey 3600
    (requests_per_hour (rate_limiting (config job))) l1 = (Ok true, l2) ->
  let w' := (executePoll env jobKey w).2 in
  let before := evict (t_hour env) 3600 (zset (store (limiter w)) hourKey) in
  let after := zset (store (limiter w')) hourKey in
  states w' = states w
  /\ polled w' = polled w
  /\ jobs w' = jobs w
  /\ after = <[pretty (t_hour env) := t_hour env]> before
  /\ (before !! pretty (t_hour env) = None -> size after = S (size before)).
Proof.
  intros Hj Hr minuteKey hourKey Hmin Hbody w' before after.
  assert (Hhour : isAllowed (t_hour env) hourKey 3600
            (requests_per_hour (rate_limiting (config job))) l1 = (Ok true, l2)).
  { rewrite isAllowed_catches. by rewrite Hbody. }
  assert (Hw' : w' = set_limiter l2 w).
  { unfold w'. by rewrite (executePoll_rate_limited env jobKey w job false true l1 l2). }
  assert (Hafter : after = <[pretty (t_hour env) := t_hour env]> before).
  { unfold after, before. rewrite Hw'. cbn [limiter set_limiter].
    destruct (isAllowed_body_allows _ _ _ _ _ _ Hbody) as [_ ->].
    rewrite zset_after_write. f_equal. f_equal.
    replace l1 with (isAllowed (t_minute env) minuteKey 60
                       (requests_per_minute (rate_limiting (config job))) (limiter w)).2
      by (by rewrite Hmin).
    apply isAllowed_other_window, minute_hour_keys_differ. }
  rewrite Hw'. cbn [states polled jobs set_limiter].
  split_and!; try done.
  intros Hfresh. rewrite Hafter. by apply map_size_insert_None.
Qed.

Lemma minute_denial_still_spends_hour_budget_witness :
  let w := Examples.world {[ getJobKey Examples.strict := Examples.idle Examples.strict ]}
             (healthy Examples.minute_spent) (healthy no_states) in
  let w' := (executePoll (H := ExampleHost.epoch_date) (Examples.at_time 2000 (Ok tt))
               (getJobKey Examples.strict) w).2 in
  states w' = states w
  /\ polled w' = []
  /\ zset (store (limiter w')) "acme:INTERCOM:api_calls:hour" = {[ "2000" := 2000 ]}.
Proof.
  intros w w'.
  destruct (isAllowed 2000 "acme:INTERCOM:api_calls:minute" 60 1 (limiter w))
    as [rm l1] eqn:Hmin.
  assert (Hrm : rm = Ok false) by (vm_compute in Hmin; congruence).
  subst rm.
  destruct (isAllowed_body 2000 "acme:INTERCOM:api_calls:hour" 3600 5 l1)
    as [rh l2] eqn:Hhour.
  assert (Hrh : rh = Ok true).
  { assert (Hl1 : l1 = (isAllowed 2000 "acme:INTERCOM:api_calls:minute" 60 1 (limiter w)).2)
      by (by rewrite Hmin).
    rewrite Hl1 in Hhour. vm_compute in Hhour. congruence. }
  subst rh.
  destruct (minute_denial_still_spends_hour_budget (H := ExampleHost.epoch_date)
              (Examples.at_time 2000 (Ok tt)) (getJobKey Examples.strict) w (Examples.idle Examples.strict)
              l1 l2 eq_refl eq_refl Hmin Hhour) as (Hst & Hpol & _ & Hafter & _).
  split; [exact Hst|]. split; [exact Hpol|].
  etrans; [exact Hafter|]. vm_compute. reflexivity.
Defined.

(** ** Publishing the records of a cycle *)

Section PublishFacts.
Context {R : Type}.
Variable config : PollingConfig.
Variable apiKey : option string.
Variable correlationId : string.

Lemma publish_all (rs : list R) :
  forall b : Backend (list (QueueMessage R)),
    faults b = [] ->
    for_each rs (fun record => publishToKafka config apiKey record correlationId) b
    = (Ok tt, healthy (store b ++ map (fun record => message config apiKey record correlationId) rs)).
Proof.
  induction rs as [|r rs IH]; intros b Hf.
  - cbn. rewrite app_nil_r. destruct b as [d fs]. cbn in Hf. by subst fs.
  - cbn [for_each]. unfold bind at 1, publishToKafka at 1.
    rewrite command_healthy by done. cbn [fst snd].
    rewrite IH by done. cbn [store healthy map]. by rewrite <- app_assoc.
Qed.

Lemma publish_until_fault (rs : list R) :
  forall (b : Backend (list (QueueMessage R))) (i : nat) fs,
    faults b = replicate i false ++ true :: fs ->
    (i < length rs)%nat ->
    for_each rs (fun record => publishToKafka config apiKey record correlationId) b
    = (Throw "redis: command failed",
       {| store := store b
                   ++ map (fun record => message config apiKey record correlationId)
                        (take i rs);
          faults := fs |}).
Proof.
  induction rs as [|r rs IH]; intros b i fs Hf Hi; [cbn in Hi; lia|].
  cbn [for_each]. unfold bind at 1, publishToKafka at 1. destruct i as [|i].
  - cbn [replicate app] in Hf. rewrite (command_faulty _ b fs) by done.
    cbn [take map]. by rewrite app_nil_r.
  - cbn [replicate app] in Hf.
    rewrite (command_answers _ b (replicate i false ++ true :: fs)) by done.
    cbn [fst snd]. rewrite (IH _ i fs); [|done|cbn [length] in Hi; lia].
    cbn [store take map]. by rewrite <- app_assoc.
Qed.

(** X22. The records of a polling result are published one message each, in
    order, after the messages the topic held, each carrying the tenant,
    source type and instance URL of the configuration, the ingestion method
    "POLLING" and retry count 0. When the send number [i] (from 0) fails,
    exactly the first [i] records have been published and the error is
    passed on; a throw of the behaviour publishes nothing. *)
Theorem records_are_published_in_order (result : PollingResult R)
    (b : Backend (list (QueueMessage R))) :
  let sent := map (fun record => message config apiKey record correlationId) in
  (faults b = [] ->
   publish_records config apiKey correlationId (Ok result) b
   = (Ok tt, healthy (store b ++ sent (records result))))
  /\ (forall (i : nat) fs,
        faults b = replicate i false ++ true :: fs ->
        (i < length (records result))%nat ->
        exists e,
          publish_records config apiKey correlationId (Ok result) b
          = (Throw e, {| store := store b ++ sent (take i (records result)); faults := fs |}))
  /\ (forall e, publish_records config apiKey correlationId (Throw e) b = (Throw e, b)).
Proof.
  cbn zeta. split_and!.
  - intros Hf. by apply publish_all.
  - intros i fs Hf Hi. eexists. by apply publish_until_fault.
  - done.
Qed.

End PublishFacts.

Lemma records_are_published_in_order_witness :
  let result := {| records := [JNum (Num 1); JNum (Num 2); JNum (Num 3)];
                   totalRecords := 3; pagesProcessed := 1; hasMoreData := false |} in
  let flaky : Backend (list (QueueMessage json)) :=
    {| store := []; faults := [false; false; true] |} in
  (publish_records Examples.eu None "c-1" (Ok result) (healthy [])).1 = Ok tt
  /\ map msg_raw_data (store (publish_records Examples.eu None "c-1" (Ok result)
                                (healthy [])).2)
     = [JNum (Num 1); JNum (Num 2); JNum (Num 3)]
  /\ exists e,
       publish_records Examples.eu None "c-1" (Ok result) flaky
       = (Throw e, {| store := [message Examples.eu None (JNum (Num 1)) "c-1";
                                message Examples.eu None (JNum (Num 2)) "c-1"];
                      faults := [] |}).
Proof.
  intros result flaky.
  destruct (records_are_published_in_order Examples.eu None "c-1" result (healthy []))
    as (Hok & _).
  destruct (records_are_published_in_order Examples.eu None "c-1" result flaky)
    as (_ & Hfault & _).
  rewrite (Hok eq_refl). split; [done|]. split; [done|].
  destruct (Hfault 2%nat [] eq_refl) as [e He]; [cbn; lia|].
  exists e. exact He.
Defined.

(** ** Job keys *)

Lemma colon_split (a b x y : string) :
  (forall c, c ∈ String.list_ascii_of_string a -> c <> ":"%char) ->
  (forall c, c ∈ String.list_ascii_of_string b -> c <> ":"%char) ->
  a +:+ ":" +:+ x = b +:+ ":" +:+ y ->
  a = b /\ x = y.
Proof.
  revert b. induction a as [|c a IH]; intros b Ha Hb Heq.
  - destruct b as [|c' b].
    + cbn in Heq. by injection Heq.
    + cbn in Heq. injection Heq as Hc _. destruct (Hb c'); [apply list_elem_of_here|done].
  - destruct b as [|c' b].
    + cbn in Heq. injection Heq as Hc _. destruct (Ha c); [apply list_elem_of_here|done].
    + cbn in Heq. injection Heq as -> Heq.
      destruct (IH b) as [-> ->]; [| |done|done].
      * intros d Hd. apply Ha. by apply list_elem_of_further.
      * intros d Hd. apply Hb. by apply list_elem_of_further.
Qed.

(** X23. For tenant ids and source types without a colon, the job key
    determines tenant, source type and instance URL: two configurations with
    the same job key agree on all three. *)
Theorem job_key_is_injective (c1 c2 : PollingConfig) :
  colon_free (tenant_id c1) -> colon_free (tenant_id c2) ->
  colon_free (source_type c1) -> colon_free (source_type c2) ->
  getJobKey c1 = getJobKey c2 ->
  tenant_id c1 = tenant_id c2
  /\ source_type c1 = source_type c2
  /\ instance_url c1 = instance_url c2.
Proof.
  intros Ht1 Ht2 Hs1 Hs2 Heq. unfold getJobKey in Heq.
  apply colon_split in Heq as [Ht Heq]; [|done|done].
  apply colon_split in Heq as [Hs Hu]; done.
Qed.

Lemma job_key_is_injective_witness :
  getJobKey Examples.eu = getJobKey (Examples.acme "https://eu.acme.io" 50 10 8)
  /\ instance_url (Examples.acme "https://eu.acme.io" 50 10 8) = "https://eu.acme.io"
  /\ getJobKey Examples.eu <> getJobKey Examples.us.
Proof.
  assert (Hfree : forall s, Forall (fun c => c <> ":"%char) (String.list_ascii_of_string s) ->
                            colon_free s).
  { intros s Hs c Hc. by apply (proj1 (Forall_forall _ _) Hs). }
  assert (Hacme : forall url m h f,
            colon_free (tenant_id (Examples.acme url m h f))
            /\ colon_free (source_type (Examples.acme url m h f))).
  { intros url m h f. split; apply Hfree; apply (bool_decide_unpack _); vm_compute; exact I. }
  split; [reflexivity|]. split.
  - destruct (job_key_is_injective Examples.eu (Examples.acme "https://eu.acme.io" 50 10 8))
      as (_ & _ & Hurl); [apply Hacme|apply Hacme|apply Hacme|apply Hacme|reflexivity|].
    by rewrite <- Hurl.
  - intros Heq.
    destruct (job_key_is_injective Examples.eu Examples.us) as (_ & _ & Hurl);
      [apply Hacme|apply Hacme|apply Hacme|apply Hacme|exact Heq|].
    vm_compute in Hurl. discriminate.
Defined.

(** ** What a reconciliation preserves *)

Section PreserveFacts.
Context `{DateHost}.

Lemma reconciled_preserves (Q : World -> Prop) :
  (forall w k, Q w -> Q (stopPollingJob k w)) ->
  (forall w cfg, Q w -> jobs w !! getJobKey cfg = None -> Q (startPollingJob cfg w)) ->
  forall cfg disable w, Q w -> Q (reconciled cfg disable w).
Proof.
  intros Hstop Hstart cfg disable w HQ. unfold reconciled. destruct disable.
  { by apply Hstop. }
  set (w1 := match jobs w !! getJobKey cfg with
             | Some job => if hasConfigChanged (config job) cfg
                           then stopPollingJob (getJobKey cfg) w else w
             | None => w
             end).
  assert (HQ1 : Q w1).
  { unfold w1. destruct (jobs w !! getJobKey cfg) as [job|]; [|done].
    destruct (hasConfigChanged (config job) cfg); [|done]. by apply Hstop. }
  destruct (jobs w1 !! getJobKey cfg) eqn:Hj; [done|]. by apply Hstart.
Qed.

Lemma reconciliation_preserves (Q : World -> Prop) :
  (forall w st, Q w -> Q (set_states st w)) ->
  (forall w k, Q w -> Q (stopPollingJob k w)) ->
  (forall w cfg, Q w -> jobs w !! getJobKey cfg = None -> Q (startPollingJob cfg w)) ->
  forall found w, Q w -> Q (loadPollingConfigurations found w).2.
Proof.
  intros Hstates Hstop Hstart found w HQ.
  unfold loadPollingConfigurations, try_catch.
  destruct found as [configs|e]; [|done].
  unfold bind.
  assert (Hfirst : forall w, Q w ->
            exists w', for_each configs reconcile_config w = (Ok tt, w') /\ Q w').
  { clear w HQ. induction configs as [|cfg configs IH]; intros w HQ.
    - by exists w.
    - cbn [for_each]. unfold bind at 1.
      destruct (reconcile_config_shape cfg w) as (disable & st' & _ & ->).
      apply IH. apply reconciled_preserves; [done|done|]. by apply Hstates. }
  destruct (Hfirst w HQ) as (w1 & -> & HQ1).
  assert (Hsecond : forall keys w, Q w ->
            exists w', for_each keys
                         (fun jobKey => if isStillEnabled configs jobKey then ret tt
                                        else sync (stopPollingJob jobKey)) w = (Ok tt, w')
                       /\ Q w').
  { clear -Hstop. intros keys. induction keys as [|key keys IH]; intros w HQ.
    - by exists w.
    - cbn [for_each]. unfold bind at 1.
      destruct (isStillEnabled configs key).
      + unfold ret at 1. by apply IH.
      + unfold sync at 1. apply IH. by apply Hstop. }
  destruct (Hsecond (map_to_list (jobs w1)).*1 w1 HQ1) as (w2 & -> & HQ2).
  done.
Qed.

End PreserveFacts.

(** ** Every job waits on one timer *)

Section ArmedFacts.
Context `{DateHost}.

Lemma stopPollingJob_timer_kept k (w : World) i k' :
  timers w !! i = Some k' ->
  (forall job, jobs w !! k = Some job -> timeoutId job <> Some i) ->
  timers (stopPollingJob k w) !! i = Some k'.
Proof.
  intros Hi Hne. unfold stopPollingJob. destruct (jobs w !! k) as [job|] eqn:Hj; [|done].
  world_simp. unfold clearTimeout. destruct (timeoutId job) as [j|] eqn:Hjid; [|done].
  rewrite lookup_delete_ne; [done|]. intros ->. by apply (Hne job).
Qed.

Lemma stopPollingJob_scheduled k (w : World) : scheduled w -> scheduled (stopPollingJob k w).
Proof.
  intros (Hwf & Harm & Hrun). split_and!.
  - by apply stopPollingJob_well_formed.
  - intros k' job' Hj'. rewrite stopPollingJob_jobs in Hj'.
    apply lookup_delete_Some in Hj' as [Hne Hj'].
    destruct (Harm k' job' Hj') as (id & Ht & Hid). exists id. split; [done|].
    unfold stopPollingJob. destruct (jobs w !! k) as [job|] eqn:Hj; [|done].
    world_simp. unfold clearTimeout. destruct (timeoutId job) as [i|] eqn:Hi; [|done].
    rewrite lookup_delete_ne; [done|]. intros ->.
    destruct (Harm k job Hj) as (i' & Hi' & Hown). congruence.
  - by destruct (stopPollingJob_frame k w) as (_ & _ & -> & _).
Qed.

Lemma scheduleNextPoll_armed k (w : World) :
  well_formed w -> serviceRunning w = true ->
  (forall k' job', k' <> k -> jobs w !! k' = Some job' ->
     exists id, timeoutId job' = Some id /\ timers w !! id = Some k') ->
  all_armed (scheduleNextPoll k w).
Proof.
  intros Hwf Hrun Hothers. unfold scheduleNextPoll.
  destruct (jobs w !! k) as [job|] eqn:Hj.
  2:{ intros k' job' Hj'. apply Hothers; [|done]. intros ->. congruence. }
  rewrite Hrun. intros k' job'. world_simp. intros Hj'.
  destruct (decide (k = k')) as [<-|Hne].
  - rewrite lookup_insert_eq in Hj'. injection Hj' as <-. cbn [timeoutId].
    eexists. split; [done|]. by rewrite lookup_insert_eq.
  - rewrite lookup_insert_ne in Hj' by done.
    destruct (Hothers k' job') as (id & Ht & Hid); [done|done|].
    exists id. split; [done|]. rewrite lookup_insert_ne; [done|].
    intros <-. destruct (Hwf _ _ Hid) as [Hlt _]. lia.
Qed.

Lemma startPollingJob_scheduled cfg (w : World) :
  scheduled w -> jobs w !! getJobKey cfg = None -> scheduled (startPollingJob cfg w).
Proof.
  intros (Hwf & Harm & Hrun) Hnew. split_and!.
  - by apply startPollingJob_well_formed.
  - unfold startPollingJob. apply scheduleNextPoll_armed.
    + intros id k. world_simp. intros Hid.
      destruct (Hwf id k Hid) as (Hlt & job & Hj & Ht).
      split; [done|]. exists job. split; [|done].
      rewrite lookup_insert_ne; [done|]. intros <-. congruence.
    + done.
    + intros k' job' Hne. world_simp. rewrite lookup_insert_ne by done. apply Harm.
  - by destruct (startPollingJob_frame cfg w) as (_ & _ & _ & ->).
Qed.

Lemma timer_fires_scheduled id env (w : World) :
  scheduled w -> scheduled (step w (TimerFires id env)).
Proof.
  intros (Hwf & Harm & Hrun).
  pose proof (timer_fires_well_formed id env w Hwf) as Hwf'.
  cbn [step] in *. destruct (timers w !! id) as [k|] eqn:Hid; [|done].
  set (w1 := set_timers (delete id (timers w)) (nextTimer w) w) in *.
  unfold timer_callback in *.
  assert (Hrun1 : serviceRunning w1 = true) by done. rewrite Hrun1 in *.
  destruct (executePoll_shape env k w1) as (l & st & invoked & stopped & Hshape & _).
  rewrite Hshape in *. cbn [snd] in *.
  assert (Hwf1 : well_formed w1).
  { intros id' k'. unfold w1. world_simp. intros Hl.
    apply lookup_delete_Some in Hl as [_ Hl]. by apply Hwf. }
  assert (Hwf2 : well_formed (cycled k l st invoked stopped w1))
    by (by apply cycled_well_formed).
  assert (Hrun2 : serviceRunning (cycled k l st invoked stopped w1) = true).
  { by destruct (cycled_frame k l st invoked stopped w1) as [-> _]. }
  split_and!; [done| |].
  - apply scheduleNextPoll_armed; [done|done|].
    intros k' job' Hne Hj'.
    assert (Hold : jobs w !! k' = Some job').
    { revert Hj'. unfold cycled. destruct stopped; [|done].
      rewrite stopPollingJob_jobs. world_simp. by rewrite lookup_delete_ne. }
    destruct (Harm k' job' Hold) as (i & Hi & Hown). exists i. split; [done|].
    assert (Hi1 : timers w1 !! i = Some k').
    { unfold w1. world_simp. rewrite lookup_delete_ne; [done|]. intros <-. congruence. }
    unfold cycled. destruct stopped; [|done].
    apply stopPollingJob_timer_kept; [done|].
    intros job Hj Hjid.
    assert (Hj0 : jobs w !! k = Some job) by exact Hj.
    destruct (Harm k job Hj0) as (j' & Hj'' & Hown'). congruence.
  - by destruct (scheduleNextPoll_frame k (cycled k l st invoked stopped w1))
      as (_ & _ & _ & ->).
Qed.

Lemma step_scheduled (w : World) e : scheduled w -> scheduled (step w e).
Proof.
  intros HQ. destruct e as [found|id env|st].
  - cbn [step]. apply (reconciliation_preserves scheduled); [| | |done].
    + intros w0 st HQ0. by destruct w0.
    + intros w0 k. apply stopPollingJob_scheduled.
    + intros w0 cfg. apply startPollingJob_scheduled.
  - by apply timer_fires_scheduled.
  - cbn [step]. by destruct w.
Qed.

(** X24. In a running service, with every step (reconciliation, timer fire,
    state write) run to completion before the next, if initially timers and
    handles are in agreement and every job handle waits on a pending timer
    of its own, then after any sequence of steps every job handle has
    exactly one pending timer, the one it holds, every pending timer belongs
    to a job handle, and the service is still running. *)
Theorem every_job_waits_on_one_timer (w : World) (es : list Event) :
  well_formed w -> all_armed w -> serviceRunning w = true ->
  let w' := run w es in
  (forall k job, jobs w' !! k = Some job ->
     exists id, timers w' !! id = Some k
                /\ timeoutId job = Some id
                /\ forall id', timers w' !! id' = Some k -> id' = id)
  /\ (forall id k, timers w' !! id = Some k -> is_Some (jobs w' !! k))
  /\ serviceRunning w' = true.
Proof.
  intros Hwf Harm Hrun w'.
  assert (HQ : scheduled w').
  { unfold w'. assert (HQ : scheduled w) by done. clear -HQ.
    revert w HQ. induction es as [|e es IH]; intros w HQ; [done|].
    cbn [run foldl]. apply IH. by apply step_scheduled. }
  destruct HQ as (Hwf' & Harm' & Hrun'). split_and!; [| |done].
  - intros k job Hj. destruct (Harm' k job Hj) as (id & Ht & Hid).
    exists id. split_and!; [done|done|].
    intros id' Hid'. destruct (Hwf' id' k Hid') as (_ & job' & Hj' & Ht'). congruence.
  - intros id k Hid. destruct (Hwf' id k Hid) as (_ & job & Hj & _). by exists job.
Qed.

End ArmedFacts.

Lemma started_scheduled : scheduled Examples.started.
Proof.
  split_and!.
  - intros id k Hid. change ((∅ : gmap nat string) !! id = Some k) in Hid.
    by rewrite lookup_empty in Hid.
  - intros k job Hj. change ((∅ : gmap string PollingJob) !! k = Some job) in Hj.
    by rewrite lookup_empty in Hj.
  - done.
Qed.

Lemma every_job_waits_on_one_timer_witness :
  let H := ExampleHost.epoch_date in
  let w' := run Examples.started
              [Reconciliation (Ok [Examples.eu; Examples.us]);
               TimerFires 0 (Examples.at_time 1000 (Ok tt));
               TimerFires 1 (Examples.at_time 2000 (Throw "HTTP 500"));
               Reconciliation (Ok [Examples.us])] in
  size (jobs w') = 1%nat
  /\ forall k job, jobs w' !! k = Some job ->
       exists id, timers w' !! id = Some k
                  /\ forall id', timers w' !! id' = Some k -> id' = id.
Proof.
  intros H w'.
  destruct started_scheduled as (Hwf & Harm & Hrun).
  destruct (every_job_waits_on_one_timer (H := H) Examples.started
              [Reconciliation (Ok [Examples.eu; Examples.us]);
               TimerFires 0 (Examples.at_time 1000 (Ok tt));
               TimerFires 1 (Examples.at_time 2000 (Throw "HTTP 500"));
               Reconciliation (Ok [Examples.us])] Hwf Harm Hrun) as (Hone & _).
  split; [vm_compute; reflexivity|].
  intros k job Hj. destruct (Hone k job Hj) as (id & Hid & _ & Honly).
  exists id. split; [exact Hid|exact Honly].
Defined.

(** ** Which jobs a reconciliation leaves *)

Section ReconcileMore.
Context `{DateHost}.

Lemma still_enabled_iff (configs : list PollingConfig) k :
  isStillEnabled configs k = true
  <-> exists cfg, cfg ∈ configs /\ getJobKey cfg = k /\ enabled (polling_config cfg) = true.
Proof.
  unfold isStillEnabled. rewrite existsb_exists. split.
  - intros (cfg & Hin & Hcfg). apply andb_prop in Hcfg as [Hkey Hen].
    apply bool_decide_eq_true in Hkey. exists cfg. by apply list_elem_of_In in Hin.
  - intros (cfg & Hin & Hkey & Hen). exists cfg. split; [by apply list_elem_of_In|].
    rewrite Hen, andb_true_r. by apply bool_decide_eq_true.
Qed.

(** X25. After a reconciliation every job handle, and (timers and handles
    being in agreement) every pending timer, belongs to a key for which the
    configurations found hold an enabled one; a failed configuration query
    leaves the service exactly as it was. *)
Theorem reconciliation_keeps_only_enabled_keys (configs : list PollingConfig) (w : World) :
  let w' := (loadPollingConfigurations (Ok configs) w).2 in
  (forall k job, jobs w' !! k = Some job ->
     exists cfg, cfg ∈ configs /\ getJobKey cfg = k /\ enabled (polling_config cfg) = true)
  /\ (well_formed w ->
      forall id k, timers w' !! id = Some k ->
        exists cfg, cfg ∈ configs /\ getJobKey cfg = k /\ enabled (polling_config cfg) = true)
  /\ (forall e, loadPollingConfigurations (Throw e) w = (Ok tt, w)).
Proof.
  cbn zeta.
  assert (Hjobs : forall k job, jobs (loadPollingConfigurations (Ok configs) w).2 !! k = Some job ->
            isStillEnabled configs k = true).
  { unfold loadPollingConfigurations, try_catch, bind.
    destruct (first_loop_well_formed configs w) as (w1 & -> & _ & _).
    destruct (second_loop configs (map_to_list (jobs w1)).*1 w1)
      as (w2 & -> & _ & _ & Hkeep & Hstop & _).
    cbn [snd]. intros k job Hj.
    destruct (isStillEnabled configs k) eqn:Hen; [done|].
    destruct (jobs w1 !! k) as [job1|] eqn:Hj1.
    - rewrite Hstop in Hj; [done| |done].
      apply list_elem_of_fmap. exists (k, job1). split; [done|].
      by apply elem_of_map_to_list.
    - by rewrite Hkeep in Hj. }
  split_and!.
  - intros k job Hj. by apply still_enabled_iff, (Hjobs k job).
  - intros Hwf id k Hid.
    destruct (reconciliation_well_formed (Ok configs) w Hwf) as [Hwf' _].
    destruct (Hwf' id k Hid) as (_ & job & Hj & _).
    by apply still_enabled_iff, (Hjobs k job).
  - done.
Qed.

Lemma reconciled_other_job cfg disable (w : World) k :
  k <> getJobKey cfg ->
  jobs (reconciled cfg disable w) !! k = None <-> jobs w !! k = None.
Proof.
  intros Hne. unfold reconciled. destruct disable.
  { rewrite stopPollingJob_jobs. by rewrite lookup_delete_ne. }
  set (w1 := match jobs w !! getJobKey cfg with
             | Some job => if hasConfigChanged (config job) cfg
                           then stopPollingJob (getJobKey cfg) w else w
             | None => w
             end).
  assert (Hk1 : jobs w1 !! k = None <-> jobs w !! k = None).
  { unfold w1. destruct (jobs w !! getJobKey cfg) as [job|]; [|done].
    destruct (hasConfigChanged (config job) cfg); [|done].
    rewrite stopPollingJob_jobs. by rewrite lookup_delete_ne. }
  destruct (jobs w1 !! getJobKey cfg); [done|].
  by rewrite startPollingJob_jobs.
Qed.

Lemma reconciled_enabled_job cfg (w : World) :
  jobs (reconciled cfg false w) !! getJobKey cfg <> None.
Proof.
  unfold reconciled.
  set (w1 := match jobs w !! getJobKey cfg with
             | Some job => if hasConfigChanged (config job) cfg
                           then stopPollingJob (getJobKey cfg) w else w
             | None => w
             end).
  destruct (jobs w1 !! getJobKey cfg) eqn:Hj; [by rewrite Hj|].
  unfold startPollingJob. rewrite scheduleNextPoll_jobs. world_simp.
  by rewrite lookup_insert_eq.
Qed.

Lemma first_loop_starts k (configs : list PollingConfig) :
  forall w : World,
    faults (states w) = [] ->
    (forall cfg, cfg ∈ configs -> getJobKey cfg = k -> ~ at_threshold (states w) cfg) ->
    exists w',
      for_each configs reconcile_config w = (Ok tt, w')
      /\ (jobs w !! k <> None \/ (exists cfg, cfg ∈ configs /\ getJobKey cfg = k) ->
          jobs w' !! k <> None).
Proof.
  induction configs as [|cfg configs IH]; intros w Hf Hthr.
  - exists w. split; [done|]. intros [Hj|(cfg & Hin & _)]; [done|].
    by apply elem_of_nil in Hin.
  - cbn [for_each]. unfold bind at 1.
    destruct (reconcile_config_shape cfg w) as (disable & st' & Hsd & ->).
    rewrite shouldDisablePolling_healthy in Hsd by done.
    injection Hsd as Hdis <-.
    assert (Hsame : set_states (states w) w = w) by (by destruct w).
    rewrite Hsame.
    destruct (reconciled_frame cfg disable w) as [Hst _].
    destruct (IH (reconciled cfg disable w)) as (w' & -> & Hkeep).
    { by rewrite Hst. }
    { intros c Hc Hk. rewrite Hst. apply Hthr; [|done]. by apply list_elem_of_further. }
    exists w'. split; [done|]. intros Hcase. apply Hkeep.
    destruct (decide (getJobKey cfg = k)) as [Hk|Hk].
    + left. assert (disable = false) as ->.
      { rewrite <- Hdis. apply not_true_is_false.
        apply (Hthr cfg); [apply list_elem_of_here|done]. }
      rewrite <- Hk. apply reconciled_enabled_job.
    + destruct Hcase as [Hj|(c & Hc & Hck)].
      * left. by rewrite reconciled_other_job.
      * apply elem_of_cons in Hc as [->|Hc]; [done|]. right. by exists c.
Qed.

Lemma second_loop_keeps (configs : list PollingConfig) k (keys : list string) :
  isStillEnabled configs k = true ->
  forall w : World,
    exists w',
      for_each keys
        (fun jobKey => if isStillEnabled configs jobKey then ret tt
                       else sync (stopPollingJob jobKey)) w = (Ok tt, w')
      /\ (jobs w !! k <> None -> jobs w' !! k <> None).
Proof.
  intros Hen. induction keys as [|key keys IH]; intros w.
  - by exists w.
  - cbn [for_each]. unfold bind at 1.
    destruct (isStillEnabled configs key) eqn:Hkey.
    + unfold ret at 1. apply IH.
    + unfold sync at 1. destruct (IH (stopPollingJob key w)) as (w' & -> & Hkeep).
      exists w'. split; [done|]. intros Hj. apply Hkeep.
      rewrite stopPollingJob_jobs, lookup_delete_ne; [done|]. intros ->. congruence.
Qed.

(** X26. On a state store that answers, a reconciliation that finds an
    enabled configuration, with every configuration of its key below the
    failure threshold, leaves a job handle for that key; in a running
    service whose handles all wait on a timer, that handle waits on a
    pending timer of its key. *)
Theorem reconciliation_starts_enabled_jobs (configs : list PollingConfig) (w : World)
    (cfg : PollingConfig) :
  faults (states w) = [] ->
  cfg ∈ configs ->
  enabled (polling_config cfg) = true ->
  (forall c, c ∈ configs -> getJobKey c = getJobKey cfg -> ~ at_threshold (states w) c) ->
  let w' := (loadPollingConfigurations (Ok configs) w).2 in
  is_Some (jobs w' !! getJobKey cfg)
  /\ (scheduled w ->
      exists job id, jobs w' !! getJobKey cfg = Some job
                     /\ timeoutId job = Some id
                     /\ timers w' !! id = Some (getJobKey cfg)).
Proof.
  intros Hf Hin Hen Hthr w'.
  assert (Hjob : is_Some (jobs w' !! getJobKey cfg)).
  { unfold w', loadPollingConfigurations, try_catch, bind.
    destruct (first_loop_starts (getJobKey cfg) configs w Hf Hthr) as (w1 & -> & Hstart).
    destruct (second_loop_keeps configs (getJobKey cfg) (map_to_list (jobs w1)).*1)
      with (w := w1) as (w2 & -> & Hkeep).
    { apply still_enabled_iff. by exists cfg. }
    cbn [snd]. apply not_eq_None_Some, Hkeep, Hstart. right. by exists cfg. }
  split; [done|]. intros HQ.
  assert (HQ' : scheduled w').
  { apply (reconciliation_preserves scheduled); [| | |done].
    - intros w0 st HQ0. by destruct w0.
    - intros w0 k. apply stopPollingJob_scheduled.
    - intros w0 c. apply startPollingJob_scheduled. }
  destruct Hjob as [job Hj]. destruct HQ' as (_ & Harm & _).
  destruct (Harm _ job Hj) as (id & Ht & Hid). by exists job, id.
Qed.

End ReconcileMore.

Lemma reconciliation_keeps_only_enabled_keys_witness :
  let H := ExampleHost.epoch_date in
  let w := run Examples.started [Reconciliation (Ok [Examples.eu; Examples.us])] in
  let w' := (loadPollingConfigurations (Ok [Examples.us]) w).2 in
  is_Some (jobs w !! getJobKey Examples.eu)
  /\ jobs w' !! getJobKey Examples.eu = None.
Proof.
  intros H w w'. split; [vm_compute; eauto|].
  destruct (reconciliation_keeps_only_enabled_keys (H := H) [Examples.us] w) as (Hkeep & _).
  destruct (jobs w' !! getJobKey Examples.eu) as [job|] eqn:Hj; [|done].
  destruct (Hkeep _ job Hj) as (cfg & Hin & Hkey & _).
  apply list_elem_of_singleton in Hin. subst cfg. vm_compute in Hkey. discriminate.
Defined.

Lemma reconciliation_starts_enabled_jobs_witness :
  let H := ExampleHost.epoch_date in
  let w' := (loadPollingConfigurations (Ok [Examples.eu; Examples.us]) Examples.started).2 in
  is_Some (jobs w' !! getJobKey Examples.us)
  /\ exists job id, jobs w' !! getJobKey Examples.us = Some job
                    /\ timeoutId job = Some id
                    /\ timers w' !! id = Some (getJobKey Examples.us).
Proof.
  intros H w'.
  destruct (reconciliation_starts_enabled_jobs (H := H) [Examples.eu; Examples.us]
              Examples.started Examples.us) as [Hjob Htimer].
  - reflexivity.
  - apply list_elem_of_further, list_elem_of_here.
  - reflexivity.
  - intros c Hc _ Hthr.
    apply elem_of_cons in Hc as [->|Hc];
      [|apply list_elem_of_singleton in Hc; subst c];
      vm_compute in Hthr; discriminate.
  - split; [exact Hjob|]. apply Htimer, started_scheduled.
Defined.

(** ** A configuration that changes under a running job *)

Section ChangeFacts.
Context `{DateHost}.

(** X27. For a configuration below its failure threshold whose key already
    has a job, on a state store that answers: when interval, endpoint, query
    parameters and data extraction equal those of the job's configuration,
    the reconciliation of that configuration changes nothing (the job keeps
    its old configuration, rate limits and threshold included); when
    [hasConfigChanged] holds, the handle is replaced by an idle one with the
    new configuration, the old timer is cleared and a fresh one is armed. *)
Theorem job_restarts_only_on_compared_fields cfg (w : World) job :
  faults (states w) = [] ->
  jobs w !! getJobKey cfg = Some job ->
  ~ at_threshold (states w) cfg ->
  (hasConfigChanged (config job) cfg = false -> reconcile_config cfg w = (Ok tt, w))
  /\ (hasConfigChanged (config job) cfg = true -> serviceRunning w = true ->
      let w' := (reconcile_config cfg w).2 in
      jobs w' = <[getJobKey cfg := {| config := cfg; timeoutId := Some (nextTimer w);
                                      isRunning := false |}]> (jobs w)
      /\ timers w' = <[nextTimer w := getJobKey cfg]> (clearTimeout (timeoutId job) (timers w))
      /\ nextTimer w' = S (nextTimer w))
  /\ (interval_seconds (polling_config (config job)) = interval_seconds (polling_config cfg) ->
      endpoint (api_config (config job)) = endpoint (api_config cfg) ->
      query_params (api_config (config job)) = query_params (api_config cfg) ->
      data_extraction (config job) = data_extraction cfg ->
      hasConfigChanged (config job) cfg = false).
Proof.
  intros Hf Hj Hthr.
  destruct (reconcile_config_shape cfg w) as (disable & st' & Hsd & Hrec).
  rewrite shouldDisablePolling_healthy in Hsd by done.
  injection Hsd as Hdis <-.
  assert (disable = false) as ->.
  { rewrite <- Hdis. by apply not_true_is_false. }
  assert (Hsame : set_states (states w) w = w) by (by destruct w).
  rewrite Hsame in Hrec. rewrite Hrec. clear Hrec Hsame Hdis.
  split_and!.
  - intros Hsame. unfold reconciled. rewrite Hj, Hsame. by rewrite Hj.
  - intros Hchanged Hrun. cbn [snd]. unfold reconciled. rewrite Hj, Hchanged.
    rewrite stopPollingJob_jobs, lookup_delete_eq.
    unfold startPollingJob, scheduleNextPoll.
    destruct (stopPollingJob_frame (getJobKey cfg) w) as (_ & _ & Hr & Hn).
    unfold stopPollingJob in *. rewrite Hj in *.
    revert Hr Hn. world_simp. intros _ _.
    rewrite lookup_insert_eq, Hrun. world_simp.
    split_and!; [|done|done].
    by rewrite insert_insert_eq, insert_delete_eq.
  - intros Hi He Hq Hd. unfold hasConfigChanged.
    rewrite Hi, He, Hq, Hd, Z.eqb_refl. by rewrite !bool_decide_eq_true_2.
Qed.

End ChangeFacts.


Lemma job_restarts_only_on_compared_fields_witness :
  let H := ExampleHost.epoch_date in
  let w := run Examples.started [Reconciliation (Ok [Examples.eu])] in
  let relaxed := Examples.acme "https://eu.acme.io" 50 10 8 in
  reconcile_config relaxed w = (Ok tt, w)
  /\ (config <$> jobs w !! getJobKey relaxed) = Some Examples.eu.
Proof.
  intros H w relaxed.
  assert (Hj : jobs w !! getJobKey relaxed
               = Some {| config := Examples.eu; timeoutId := Some 0%nat;
                         isRunning := false |}) by (vm_compute; reflexivity).
  destruct (job_restarts_only_on_compared_fields (H := H) relaxed w _ eq_refl Hj)
    as (Hsame & _ & Hfields).
  - intros Hthr. vm_compute in Hthr. discriminate.
  - split; [|by rewrite Hj]. apply Hsame, Hfields; reflexivity.
Defined.

(** ** Stopping the service *)

Section StopFacts.
Context `{DateHost}.

Lemma stop_all_jobs (keys : list string) :
  forall w : World,
    let w' := foldl (fun w jobKey => stopPollingJob jobKey w) w keys in
    (forall k, jobs w' !! k = if decide (k ∈ keys) then None else jobs w !! k)
    /\ serviceRunning w' = serviceRunning w
    /\ polled w' = polled w
    /\ states w' = states w
    /\ limiter w' = limiter w
    /\ (well_formed w -> well_formed w').
Proof.
  induction keys as [|key keys IH]; intros w; cbn [foldl].
  - by split_and!.
  - destruct (IH (stopPollingJob key w)) as (Hj & Hr & Hp & Hs & Hl & Hwf). cbn zeta in *.
    destruct (stopPollingJob_frame key w) as (Hs' & Hl' & Hr' & _).
    split_and!; try congruence.
    + intros k. rewrite Hj, stopPollingJob_jobs.
      destruct (decide (k ∈ keys)) as [Hin|Hout].
      * rewrite decide_True; [done|]. by apply list_elem_of_further.
      * destruct (decide (k = key)) as [->|Hne].
        -- rewrite decide_True; [|apply list_elem_of_here]. apply lookup_delete_eq.
        -- rewrite decide_False; [by rewrite lookup_delete_ne|].
           intros [?|?]%elem_of_cons; done.
    + by rewrite Hp, stopPollingJob_polled.
    + intros Hw. by apply Hwf, stopPollingJob_well_formed.
Qed.

Lemma halted_step p (w : World) e : halted p w -> halted p (step w e).
Proof.
  intros HQ. destruct e as [found|id env|st].
  - cbn [step]. apply (reconciliation_preserves (halted p)); [| | |done].
    + intros w0 st (Hr & Ht & Hp). by destruct w0.
    + intros w0 k (Hr & Ht & Hp). unfold halted.
      destruct (stopPollingJob_frame k w0) as (_ & _ & -> & _).
      rewrite stopPollingJob_polled. split_and!; [done| |done].
      apply map_empty. intros id. destruct (timers (stopPollingJob k w0) !! id) as [k'|] eqn:Hid;
        [|done].
      apply stopPollingJob_timers in Hid. by rewrite Ht, lookup_empty in Hid.
    + intros w0 cfg (Hr & Ht & Hp) _. unfold halted, startPollingJob, scheduleNextPoll.
      world_simp. rewrite lookup_insert_eq, Hr. by world_simp.
  - cbn [step]. destruct HQ as (Hr & Ht & Hp). by rewrite Ht, lookup_empty.
  - cbn [step]. destruct HQ as (Hr & Ht & Hp). by destruct w.
Qed.

Lemma halted_run p (es : list Event) :
  forall w : World, halted p w -> halted p (run w es).
Proof.
  induction es as [|e es IH]; intros w Hh; [done|].
  cbn [run foldl]. apply IH. by apply halted_step.
Qed.

(** X28. With timers and handles in agreement, [stop()] leaves no job handle
    and no pending timer and invokes no behaviour; whatever steps follow
    (each run to completion), no behaviour is invoked and no timer is armed
    again. *)
Theorem stop_halts_every_job (w : World) :
  well_formed w ->
  jobs (stop w) = ∅
  /\ timers (stop w) = ∅
  /\ serviceRunning (stop w) = false
  /\ polled (stop w) = polled w
  /\ forall es : list Event,
       polled (run (stop w) es) = polled w
       /\ timers (run (stop w) es) = ∅.
Proof.
  intros Hwf. unfold stop.
  set (w1 := set_serviceRunning false w).
  destruct (stop_all_jobs (map_to_list (jobs w1)).*1 w1) as (Hj & Hr & Hp & _ & _ & Hwf').
  cbn zeta in *. set (w' := foldl _ w1 _) in *.
  assert (Hjobs : jobs w' = ∅).
  { apply map_empty. intros k. rewrite Hj.
    destruct (decide _) as [|Hout]; [done|].
    destruct (jobs w1 !! k) as [job|] eqn:Hk; [|done].
    destruct Hout. apply list_elem_of_fmap. exists (k, job). split; [done|].
    by apply elem_of_map_to_list. }
  assert (Htimers : timers w' = ∅).
  { apply map_empty. intros id. destruct (timers w' !! id) as [k|] eqn:Hid; [|done].
    destruct (Hwf' Hwf id k Hid) as (_ & job & Hjob & _).
    by rewrite Hjobs, lookup_empty in Hjob. }
  split_and!; try done.
  intros es.
  assert (Hrun : halted (polled w) (run w' es)) by (by apply halted_run).
  by destruct Hrun as (_ & Ht & Hp').
Qed.

End StopFacts.

Lemma stop_halts_every_job_witness :
  let H := ExampleHost.epoch_date in
  let w := run Examples.started [Reconciliation (Ok [Examples.eu; Examples.us])] in
  size (jobs w) = 2%nat
  /\ size (timers w) = 2%nat
  /\ jobs (stop w) = ∅
  /\ timers (stop w) = ∅
  /\ forall es, polled (run (stop w) es) = [].
Proof.
  intros H w.
  assert (Hwf : well_formed w).
  { apply step_well_formed. apply started_scheduled. }
  destruct (stop_halts_every_job (H := H) w Hwf) as (Hj & Ht & _ & _ & Hes).
  split; [vm_compute; reflexivity|]. split; [vm_compute; reflexivity|].
  split; [exact Hj|]. split; [exact Ht|].
  intros es. exact (proj1 (Hes es)).
Defined.
